(** * Authentication, sessions and transactional game import

    A shallow embedding of the two HTTP back ends of the repository and of
    its migration script:

    - [src/server.js], the Postgres-only server (module [PgOnly] below);
    - [src/unnamed/part_000], the dual-mode server (Postgres when
      [DATABASE_URL] is set, SQLite otherwise; module [Dual] below);
    - [src/migrate_sqlite_to_postgres.js], the script that copies the SQLite
      database into Postgres (module [Migrate] below).

    Handlers are functions from a server state and a request to a new state
    and a response.  The libraries the handlers call are part of the
    environment and are modelled next to them: [JSON.parse] and
    [JSON.stringify], the request life cycle of express-session
    ([saveUninitialized: false], [resave: false]), the credential and game
    tables, and the transaction of the bulk import.  What the outside world
    decides during a request (the clock, the salt, which database and
    session-store calls report an error) is an argument [Env] of every
    handler; bcrypt and the parameter conversions of the database driver are
    an argument [Lib], and the properties hold for all of them.

    The first part has the definitions, the second the properties. *)

From Stdlib Require Import Ascii String.
From stdpp Require Import base option list sorting gmap strings.

Set Default Proof Using "Type".
Set Warnings "-register-all".

(** ** JavaScript values *)

(** Strings are byte strings (the UTF-8 encoding of the JavaScript string).
    Numbers are kept as their decimal literal: no arithmetic is done on them,
    only truthiness and printing are needed; IEEE rounding (underflow of a
    literal to zero, overflow) is outside the model. *)
Inductive JsValue : Type :=
| JUndefined
| JNull
| JBool (b : bool)
| JNum (lit : string)
| JStr (s : string)
| JArr (xs : list JsValue)
| JObj (fields : list (string * JsValue)).

Module Js.

Definition dquote : ascii := Ascii false true false false false true false false.
Definition backslash : ascii := "\"%char.

Definition is_digit (c : ascii) : bool :=
  let n := nat_of_ascii c in (48 <=? n) && (n <=? 57).

Definition is_nonzero_digit (c : ascii) : bool :=
  let n := nat_of_ascii c in (49 <=? n) && (n <=? 57).

(** A numeric literal denotes zero when its mantissa (the part before an
    exponent marker) has no digit other than 0. *)
Fixpoint lit_nonzero (s : string) : bool :=
  match s with
  | EmptyString => false
  | String c r =>
      if Ascii.eqb c "e" || Ascii.eqb c "E" then false
      else is_nonzero_digit c || lit_nonzero r
  end.

(** [ToBoolean]: what [if (v)], [!v] and [v || w] test. *)
Definition truthy (v : JsValue) : bool :=
  match v with
  | JUndefined | JNull => false
  | JBool b => b
  | JNum lit => lit_nonzero lit
  | JStr s => negb (String.eqb s "")
  | JArr _ | JObj _ => true
  end.

(** [a || b] *)
Definition or (a b : JsValue) : JsValue := if truthy a then a else b.

(** [typeof v === 'string'] *)
Definition is_string (v : JsValue) : bool :=
  match v with JStr _ => true | _ => false end.

(** [v == null] *)
Definition is_nullish (v : JsValue) : bool :=
  match v with JUndefined | JNull => true | _ => false end.

(** [Array.isArray(v)] *)
Definition isArray (v : JsValue) : bool :=
  match v with JArr _ => true | _ => false end.

Fixpoint lookup_field (k : string) (fields : list (string * JsValue)) : JsValue :=
  match fields with
  | [] => JUndefined
  | (k', v) :: rest => if String.eqb k k' then v else lookup_field k rest
  end.

(** [v.k] for the property names the handlers read ([username], [password],
    [games], [pgn], [fens], [date], [created_at]; none of them is defined
    on a built-in prototype).  Reading a property of [null] or [undefined]
    throws a [TypeError]: [None]. *)
Definition get (v : JsValue) (k : string) : option JsValue :=
  match v with
  | JUndefined | JNull => None
  | JObj fields => Some (lookup_field k fields)
  | _ => Some JUndefined
  end.

End Js.

(** ** JSON.stringify and JSON.parse *)

Module JSON.
Import Js.

Definition hex_digit (n : nat) : ascii :=
  if n <? 10 then ascii_of_nat (48 + n) else ascii_of_nat (87 + n).

(** [QuoteJSONString], one character at a time. *)
Definition escape_char (c : ascii) : string :=
  let n := nat_of_ascii c in
  if Ascii.eqb c dquote then String backslash (String dquote EmptyString)
  else if Ascii.eqb c backslash then String backslash (String backslash EmptyString)
  else if n =? 8 then "\b"
  else if n =? 9 then "\t"
  else if n =? 10 then "\n"
  else if n =? 12 then "\f"
  else if n =? 13 then "\r"
  else if n <? 32 then
    "\u00" +:+ String (hex_digit (n / 16)) (String (hex_digit (n mod 16)) EmptyString)
  else String c EmptyString.

Fixpoint escape (s : string) : string :=
  match s with
  | EmptyString => EmptyString
  | String c r => escape_char c +:+ escape r
  end.

Definition quote (s : string) : string :=
  String dquote (escape s +:+ String dquote EmptyString).

Fixpoint join (sep : string) (parts : list string) : string :=
  match parts with
  | [] => ""
  | [p] => p
  | p :: rest => p +:+ sep +:+ join sep rest
  end.

(** [JSON.stringify(v)] without indentation.  [None] is the result
    [undefined]; inside an array [undefined] prints as [null], inside an
    object the property is left out. *)
Fixpoint stringify (v : JsValue) : option string :=
  match v with
  | JUndefined => None
  | JNull => Some "null"
  | JBool true => Some "true"
  | JBool false => Some "false"
  | JNum lit => Some lit
  | JStr s => Some (quote s)
  | JArr xs =>
      Some ("[" +:+ join "," (List.map (fun x => default "null" (stringify x)) xs) +:+ "]")
  | JObj fields =>
      let member (kv : string * JsValue) : list string :=
        match stringify (snd kv) with
        | Some t => [quote (fst kv) +:+ ":" +:+ t]
        | None => []
        end in
      Some ("{" +:+ join "," (List.flat_map member fields) +:+ "}")
  end.

(** *** Parsing *)

Definition is_ws (c : ascii) : bool :=
  let n := nat_of_ascii c in (n =? 32) || (n =? 9) || (n =? 10) || (n =? 13).

Fixpoint skip_ws (s : string) : string :=
  match s with
  | String c r => if is_ws c then skip_ws r else s
  | EmptyString => s
  end.

Definition hex_val (c : ascii) : option nat :=
  let n := nat_of_ascii c in
  if (48 <=? n) && (n <=? 57) then Some (n - 48)
  else if (97 <=? n) && (n <=? 102) then Some (n - 87)
  else if (65 <=? n) && (n <=? 70) then Some (n - 55)
  else None.

(** The UTF-8 bytes of a [\uXXXX] code unit. *)
Definition utf8 (n : nat) : string :=
  if n <? 128 then String (ascii_of_nat n) EmptyString
  else if n <? 2048 then
    String (ascii_of_nat (192 + n / 64))
      (String (ascii_of_nat (128 + n mod 64)) EmptyString)
  else
    String (ascii_of_nat (224 + n / 4096))
      (String (ascii_of_nat (128 + (n / 64) mod 64))
        (String (ascii_of_nat (128 + n mod 64)) EmptyString)).

Definition prepend (p : string) (r : option (string * string)) : option (string * string) :=
  match r with
  | Some (s, rest) => Some (p +:+ s, rest)
  | None => None
  end.

(** The characters of a string literal after its opening quote, up to and
    including the closing quote; returns the decoded string and the rest
    of the input. *)
Fixpoint parse_string (s : string) : option (string * string) :=
  match s with
  | EmptyString => None
  | String c r =>
      if Ascii.eqb c dquote then Some (EmptyString, r)
      else if Ascii.eqb c backslash then
        match r with
        | EmptyString => None
        | String e r' =>
            if Ascii.eqb e dquote then prepend (String dquote EmptyString) (parse_string r')
            else if Ascii.eqb e backslash then prepend (String backslash EmptyString) (parse_string r')
            else if Ascii.eqb e "/" then prepend "/" (parse_string r')
            else if Ascii.eqb e "b" then prepend (String (ascii_of_nat 8) EmptyString) (parse_string r')
            else if Ascii.eqb e "f" then prepend (String (ascii_of_nat 12) EmptyString) (parse_string r')
            else if Ascii.eqb e "n" then prepend (String (ascii_of_nat 10) EmptyString) (parse_string r')
            else if Ascii.eqb e "r" then prepend (String (ascii_of_nat 13) EmptyString) (parse_string r')
            else if Ascii.eqb e "t" then prepend (String (ascii_of_nat 9) EmptyString) (parse_string r')
            else if Ascii.eqb e "u" then
              match r' with
              | String h1 (String h2 (String h3 (String h4 r''))) =>
                  match hex_val h1, hex_val h2, hex_val h3, hex_val h4 with
                  | Some a, Some b, Some c', Some d =>
                      prepend (utf8 (a * 4096 + b * 256 + c' * 16 + d)) (parse_string r'')
                  | _, _, _, _ => None
                  end
              | _ => None
              end
            else None
        end
      else if nat_of_ascii c <? 32 then None
      else prepend (String c EmptyString) (parse_string r)
  end.

Fixpoint span_digits (s : string) : string * string :=
  match s with
  | String c r =>
      if is_digit c then let '(ds, rest) := span_digits r in (String c ds, rest)
      else (EmptyString, s)
  | EmptyString => (EmptyString, s)
  end.

(** A number: an optional minus sign; a single 0 or a digit sequence not
    starting with 0; optionally a dot and digits; optionally an exponent
    marker, a sign and digits. *)
Definition parse_number (s : string) : option (string * string) :=
  let '(sign, s1) :=
    match s with
    | String c r => if Ascii.eqb c "-" then ("-", r) else ("", s)
    | EmptyString => ("", s)
    end in
  let '(int, s2) := span_digits s1 in
  match int with
  | EmptyString => None
  | String d more =>
      if Ascii.eqb d "0" && negb (String.eqb more "") then None else
      let frac :=
        match s2 with
        | String c r =>
            if Ascii.eqb c "." then
              let '(fd, s3) := span_digits r in
              if String.eqb fd "" then None else Some ("." +:+ fd, s3)
            else Some ("", s2)
        | EmptyString => Some ("", s2)
        end in
      match frac with
      | None => None
      | Some (fr, s3) =>
          let exp :=
            match s3 with
            | String e r =>
                if Ascii.eqb e "e" || Ascii.eqb e "E" then
                  let '(sg, r1) :=
                    match r with
                    | String g r0 =>
                        if Ascii.eqb g "+" || Ascii.eqb g "-"
                        then (String g EmptyString, r0) else ("", r)
                    | EmptyString => ("", r)
                    end in
                  let '(ed, s4) := span_digits r1 in
                  if String.eqb ed "" then None
                  else Some (String e (sg +:+ ed), s4)
                else Some ("", s3)
            | EmptyString => Some ("", s3)
            end in
          match exp with
          | None => None
          | Some (ex, s4) => Some (sign +:+ int +:+ fr +:+ ex, s4)
          end
      end
  end.

Fixpoint expect (lit : string) (s : string) : option string :=
  match lit, s with
  | EmptyString, _ => Some s
  | String a l, String b r => if Ascii.eqb a b then expect l r else None
  | String _ _, EmptyString => None
  end.

(** A later member with the same key replaces the earlier value. *)
Fixpoint set_field (k : string) (v : JsValue) (fields : list (string * JsValue)) :=
  match fields with
  | [] => [(k, v)]
  | (k', v') :: rest =>
      if String.eqb k k' then (k, v) :: rest else (k', v') :: set_field k v rest
  end.

Fixpoint parse_value (fuel : nat) (s : string) : option (JsValue * string) :=
  match fuel with
  | 0 => None
  | S fuel' =>
      match skip_ws s with
      | EmptyString => None
      | String c r =>
          if Ascii.eqb c "n" then (fun rest => (JNull, rest)) <$> expect "ull" r
          else if Ascii.eqb c "t" then (fun rest => (JBool true, rest)) <$> expect "rue" r
          else if Ascii.eqb c "f" then (fun rest => (JBool false, rest)) <$> expect "alse" r
          else if Ascii.eqb c dquote then
            match parse_string r with
            | Some (str, rest) => Some (JStr str, rest)
            | None => None
            end
          else if Ascii.eqb c "[" then
            match skip_ws r with
            | String c1 rest =>
                if Ascii.eqb c1 "]" then Some (JArr [], rest)
                else parse_elements fuel' r []
            | EmptyString => parse_elements fuel' r []
            end
          else if Ascii.eqb c "{" then
            match skip_ws r with
            | String c1 rest =>
                if Ascii.eqb c1 "}" then Some (JObj [], rest)
                else parse_members fuel' r []
            | EmptyString => parse_members fuel' r []
            end
          else
            match parse_number (String c r) with
            | Some (lit, rest) => Some (JNum lit, rest)
            | None => None
            end
      end
  end
with parse_elements (fuel : nat) (s : string) (acc : list JsValue)
  : option (JsValue * string) :=
  match fuel with
  | 0 => None
  | S fuel' =>
      match parse_value fuel' s with
      | None => None
      | Some (v, r) =>
          match skip_ws r with
          | String c rest =>
              if Ascii.eqb c "," then parse_elements fuel' rest (acc ++ [v])
              else if Ascii.eqb c "]" then Some (JArr (acc ++ [v]), rest)
              else None
          | EmptyString => None
          end
      end
  end
with parse_members (fuel : nat) (s : string) (acc : list (string * JsValue))
  : option (JsValue * string) :=
  match fuel with
  | 0 => None
  | S fuel' =>
      match skip_ws s with
      | String c r =>
          if Ascii.eqb c dquote then
            match parse_string r with
            | None => None
            | Some (k, r1) =>
                match skip_ws r1 with
                | String colon r2 =>
                    if Ascii.eqb colon ":" then
                      match parse_value fuel' r2 with
                      | None => None
                      | Some (v, r3) =>
                          match skip_ws r3 with
                          | String d rest =>
                              if Ascii.eqb d "," then
                                parse_members fuel' rest (set_field k v acc)
                              else if Ascii.eqb d "}" then
                                Some (JObj (set_field k v acc), rest)
                              else None
                          | EmptyString => None
                          end
                      end
                    else None
                | EmptyString => None
                end
            end
          else None
      | EmptyString => None
      end
  end.

(** [JSON.parse(text)]; [None] when it throws a [SyntaxError].  Every
    recursive call happens after at least one character was consumed or
    directly below a call that did, so twice the length bounds the depth. *)
Definition parse (text : string) : option JsValue :=
  match parse_value (2 * String.length text + 2) text with
  | Some (v, rest) =>
      match skip_ws rest with
      | EmptyString => Some v
      | String _ _ => None
      end
  | None => None
  end.

End JSON.

(** ** Server state *)

Abbreviation Sid := nat (only parsing).

(** A row of [users]. *)
Record User := {
  u_id : nat;
  u_username : string;
  u_password_hash : string;
}.

(** A row of [games]; [pgn] and [fens] are nullable [TEXT] columns. *)
Record Game := {
  g_id : nat;
  g_user_id : nat;
  g_pgn : option string;
  g_fens : option string;
  g_created_at : nat;
}.

(** The data of a session ([req.session] without its cookie). *)
Record Session := {
  userId : option nat;
  username : JsValue;
}.

(** A session as [store.generate] makes it. *)
Definition empty_session : Session := {| userId := None; username := JUndefined |}.

(** The session identifier is drawn by [uid-safe]; the model draws from a
    counter, an idealised generator that never repeats an identifier. *)
Record State := {
  users : list User;
  next_user_id : nat;
  games : list Game;
  next_game_id : nat;
  sessions : gmap Sid Session;
  next_sid : Sid;
}.

(** The server after [ensureTables] on an empty database. *)
Definition initial_state : State := {|
  users := []; next_user_id := 1;
  games := []; next_game_id := 1;
  sessions := ∅; next_sid := 0;
|}.

(** ** The environment of a request *)

(** The statements of the import transaction. *)
Inductive Stmt : Type :=
| BEGIN
| INSERT_GAME (user_id : nat) (pgn : option string) (fens : option string) (created_at : nat)
| COMMIT
| ROLLBACK.

(** What the outside world decides during one request: the clock, the salt
    drawn by bcrypt, and which calls to the database and to the session
    store report an error.  The clock is read again at each statement of the
    import transaction: [now e 0] is the time of its [BEGIN], [now e k] the
    time at which the loop handles the [k]-th record of the batch, counted
    from 1. *)
Record Env := {
  now : nat → nat;
  salt : nat;
  fail_find_user : bool;
  fail_insert_user : bool;
  fail_select_games : bool;
  rejects : Stmt → bool;
  fail_destroy : bool;
}.

(** The libraries behind the handlers. [bcrypt_hash salt password] and
    [bcrypt_compare password hash] are bcrypt on strings; [bind_text] is the
    text the database driver sends for a parameter that is not a string
    ([None] when the driver or the column refuses it); [to_timestamptz] is
    the conversion of a [created_at] parameter by the database. *)
Record Lib := {
  bcrypt_hash : nat → string → string;
  bcrypt_compare : string → string → bool;
  bind_text : JsValue → option string;
  to_timestamptz : JsValue → option nat;
}.

(** ** Requests and responses *)

(** The routes of both servers. *)
Inductive Route : Type :=
| GET_status | GET_me | POST_register | POST_login | POST_logout
| POST_import | GET_games.

(** A request: the session identifier of its [hacker_sid] cookie, when it
    has one with a valid signature, and the parsed JSON body ([JUndefined]
    when there is none). *)
Record Request := {
  cookie : option Sid;
  body : JsValue;
}.

(** An element of the [games] array of [GET /api/games]. *)
Record GameView := {
  v_id : nat;
  v_pgn : option string;
  v_fens : JsValue;
  v_date : nat;
}.

(** The JSON bodies the handlers send. *)
Inductive Body : Type :=
| body_error (code : string)
| body_username (name : JsValue)
| body_ok
| body_status (mode : string)
| body_imported (n : nat)
| body_games (gs : list GameView).

(** What a handler passes to [res]: the status, the body, and whether it
    called [res.clearCookie]. *)
Record Reply := {
  r_status : nat;
  r_body : Body;
  r_clear_cookie : bool;
}.

(** [res.status(status).json(b)] *)
Definition reply (status : nat) (b : Body) : Reply :=
  {| r_status := status; r_body := b; r_clear_cookie := false |}.

(** The answer of every [catch]. *)
Definition internal : Reply := reply 500 (body_error "internal").

(** What the client receives; [set_cookie] is the session identifier of the
    [Set-Cookie] header express-session writes. *)
Record Response := {
  status : nat;
  resp_body : Body;
  set_cookie : option Sid;
  clear_cookie : bool;
}.

(** ** express-session *)

(** [req.sessionID] and [req.session]; the latter is [None] once the handler
    has destroyed it. *)
Record Ctx := {
  sessionID : Sid;
  session : option Session;
}.

Module ExpressSession.

(** [store.generate(req)]: a new identifier and an empty session. *)
Definition generate (st : State) : State * Ctx :=
  ({| users := users st; next_user_id := next_user_id st;
      games := games st; next_game_id := next_game_id st;
      sessions := sessions st; next_sid := S (next_sid st) |},
   {| sessionID := next_sid st; session := Some empty_session |}).

(** The middleware before the handler: the session of the cookie when the
    store has it, a generated one otherwise. *)
Definition load (st : State) (c : option Sid) : State * Ctx :=
  match c with
  | Some sid =>
      match sessions st !! sid with
      | Some s => (st, {| sessionID := sid; session := Some s |})
      | None => generate st
      end
  | None => generate st
  end.

(** [store.destroy(sid, cb)]; the boolean is [err]. *)
Definition store_destroy (e : Env) (st : State) (sid : Sid) : State * bool :=
  if fail_destroy e then (st, true)
  else ({| users := users st; next_user_id := next_user_id st;
           games := games st; next_game_id := next_game_id st;
           sessions := delete sid (sessions st); next_sid := next_sid st |}, false).

(** [store.set(sid, sess)] *)
Definition store_set (st : State) (sid : Sid) (s : Session) : State :=
  {| users := users st; next_user_id := next_user_id st;
     games := games st; next_game_id := next_game_id st;
     sessions := <[sid := s]> (sessions st); next_sid := next_sid st |}.

(** [req.session.regenerate(cb)]: the store destroys the current session,
    then generates a new one whether or not destroying failed, and hands
    the error to the callback. *)
Definition regenerate (e : Env) (st : State) (c : Ctx) : State * Ctx * bool :=
  let '(st1, err) := store_destroy e st (sessionID c) in
  let '(st2, c2) := generate st1 in
  (st2, c2, err).

(** [req.session.destroy(cb)] *)
Definition destroy (e : Env) (st : State) (c : Ctx) : State * Ctx * bool :=
  let '(st1, err) := store_destroy e st (sessionID c) in
  (st1, {| sessionID := sessionID c; session := None |}, err).

(** What [hash(sess)] digests: the session data as JSON. *)
Definition hash (s : Session) : option nat * option string :=
  (userId s, JSON.stringify (username s)).

(** [originalHash === hash(req.session)] *)
Definition hash_eqb (a b : option nat * option string) : bool :=
  bool_decide (a = b).

(** [isModified(req.session)] *)
Definition isModified (original : Ctx) (c : Ctx) : bool :=
  negb (sessionID c =? sessionID original) ||
  match session original, session c with
  | Some s0, Some s => negb (hash_eqb (hash s0) (hash s))
  | _, _ => true
  end.

(** The end of the response: a destroyed session is removed from the
    store; a modified one is saved and its identifier sent as the cookie;
    an unmodified one is neither saved nor sent. *)
Definition finish (e : Env) (st : State) (original c : Ctx) (r : Reply)
  : State * Response :=
  match session c with
  | None =>
      (fst (store_destroy e st (sessionID c)),
       {| status := r_status r; resp_body := r_body r;
          set_cookie := None; clear_cookie := r_clear_cookie r |})
  | Some s =>
      if isModified original c then
        (store_set st (sessionID c) s,
         {| status := r_status r; resp_body := r_body r;
            set_cookie := Some (sessionID c); clear_cookie := r_clear_cookie r |})
      else
        (st,
         {| status := r_status r; resp_body := r_body r;
            set_cookie := None; clear_cookie := r_clear_cookie r |})
  end.

End ExpressSession.

(** ** The database wrappers *)

Module Db.
Section with_lib.
Context (L : Lib).

(** The text the driver sends for a [TEXT] parameter; [None] when binding
    the value throws. *)
Definition text_param (v : JsValue) : option string :=
  match v with
  | JStr s => Some s
  | _ => bind_text L v
  end.

(** [findUserByName]: [rows[0] || null] of the [SELECT] by user name; the
    outer [None] is a rejected query. *)
Definition findUserByName (e : Env) (st : State) (name : JsValue)
  : option (option User) :=
  if fail_find_user e then None
  else
    match text_param name with
    | None => None
    | Some n => Some (List.find (λ u, String.eqb (u_username u) n) (users st))
    end.

(** [insertUser]: the [INSERT] returning the new id; the [UNIQUE]
    constraint on [username] rejects a second row with the same name. *)
Definition insertUser (e : Env) (st : State) (name : JsValue) (password_hash : string)
  : option (State * nat) :=
  if fail_insert_user e then None
  else
    match text_param name with
    | None => None
    | Some n =>
        if existsb (λ u, String.eqb (u_username u) n) (users st) then None
        else
          Some ({| users := users st ++
                      [{| u_id := next_user_id st; u_username := n;
                          u_password_hash := password_hash |}];
                   next_user_id := S (next_user_id st);
                   games := games st; next_game_id := next_game_id st;
                   sessions := sessions st; next_sid := next_sid st |},
                next_user_id st)
    end.

(** *** The connection of the bulk import *)

(** The [games] table as one connection sees it: the committed rows, the
    id sequence, and the rows written inside the open transaction. Other
    connections read [committed] only. *)
Record Conn := {
  committed : list Game;
  seq : nat;
  tx : option (list Game);
}.

Definition connect (st : State) : Conn :=
  {| committed := games st; seq := next_game_id st; tx := None |}.

(** [client.release()] hands the table back. *)
Definition release (st : State) (c : Conn) : State :=
  {| users := users st; next_user_id := next_user_id st;
     games := committed c; next_game_id := seq c;
     sessions := sessions st; next_sid := next_sid st |}.

(** [client.query(stmt)]; the boolean tells whether the statement
    succeeded. A rejected statement changes nothing; [ROLLBACK] always
    ends the transaction (a connection that cannot carry it out has lost
    the transaction anyway).  The id sequence is not part of the
    transaction in Postgres and is in SQLite. *)
Definition query (usePostgres : bool) (e : Env) (c : Conn) (q : Stmt) : Conn * bool :=
  match q with
  | BEGIN =>
      if rejects e q then (c, false)
      else ({| committed := committed c; seq := seq c; tx := Some [] |}, true)
  | INSERT_GAME uid pgn fens created_at =>
      if rejects e q then (c, false)
      else
        let row := {| g_id := seq c; g_user_id := uid; g_pgn := pgn;
                      g_fens := fens; g_created_at := created_at |} in
        match tx c with
        | Some pending =>
            ({| committed := committed c; seq := S (seq c);
                tx := Some (pending ++ [row]) |}, true)
        | None =>
            ({| committed := committed c ++ [row]; seq := S (seq c);
                tx := None |}, true)
        end
  | COMMIT =>
      if rejects e q then (c, false)
      else
        match tx c with
        | Some pending =>
            ({| committed := committed c ++ pending; seq := seq c; tx := None |}, true)
        | None => (c, true)
        end
  | ROLLBACK =>
      ({| committed := committed c;
          seq := if usePostgres then seq c
                 else match tx c with
                      | Some pending => seq c - length pending
                      | None => seq c
                      end;
          tx := None |}, true)
  end.

(** [ORDER BY created_at DESC] *)
Definition newer_first (a b : Game) : Prop := g_created_at b ≤ g_created_at a.

#[global] Instance newer_first_dec a b : Decision (newer_first a b).
Proof. unfold newer_first. apply _. Defined.

(** [JSON.parse(r.fens || '[]')] *)
Definition stored_fens (fens : option string) : option JsValue :=
  match fens with
  | None | Some EmptyString => JSON.parse "[]"
  | Some t => JSON.parse t
  end.

(** A row as the [map] of [getGamesByUser] shows it; [None] when
    [JSON.parse] throws. *)
Definition view (r : Game) : option GameView :=
  match stored_fens (g_fens r) with
  | Some f => Some {| v_id := g_id r; v_pgn := g_pgn r; v_fens := f;
                      v_date := g_created_at r |}
  | None => None
  end.

(** [getGamesByUser]: the rows of the user, newest first, each with its
    [fens] parsed; [None] when the query is rejected or a [fens] text does
    not parse. *)
Definition getGamesByUser (e : Env) (st : State) (uid : nat) : option (list GameView) :=
  if fail_select_games e then None
  else
    mapM view
      (merge_sort newer_first
        (List.filter (λ r, g_user_id r =? uid) (games st))).

End with_lib.
End Db.

(** ** The handlers both servers share *)

(** What a handler leaves: the state, the session of the request, and its
    answer. *)
Definition Outcome : Type := State * Ctx * Reply.

Module Handlers.
Import ExpressSession.
Section with_lib.
Context (L : Lib).

(** [req.session && req.session.userId]: the user id when it is truthy. *)
Definition session_user (c : Ctx) : option nat :=
  match session c with
  | Some s =>
      match userId s with
      | Some (S n) => Some (S n)
      | _ => None
      end
  | None => None
  end.

(** The answers the handlers share. *)
Definition not_authenticated : Reply := reply 401 (body_error "not_authenticated").

(** [requireAuth] in front of a handler. *)
Definition requireAuth (st : State) (c : Ctx) (next : nat → Outcome) : Outcome :=
  match session_user c with
  | Some uid => next uid
  | None => (st, c, not_authenticated)
  end.

(** [GET /api/me] *)
Definition me (st : State) (c : Ctx) : Outcome :=
  match session_user c, session c with
  | Some _, Some s => (st, c, reply 200 (body_username (username s)))
  | _, _ => (st, c, not_authenticated)
  end.

(** [const { username, password } = req.body || {}] *)
Definition credentials (b : JsValue) : option (JsValue * JsValue) :=
  let b' := Js.or b (JObj []) in
  match Js.get b' "username", Js.get b' "password" with
  | Some u, Some p => Some (u, p)
  | _, _ => None
  end.

(** [req.session.userId = id; req.session.username = name] *)
Definition bind (c : Ctx) (id : nat) (name : JsValue) : Ctx :=
  {| sessionID := sessionID c;
     session := Some {| userId := Some id; username := name |} |}.

(** More answers the handlers share. *)
Definition required : Reply := reply 400 (body_error "username_and_password_required").
Definition invalid_credentials : Reply := reply 401 (body_error "invalid_credentials").
Definition session_error : Reply := reply 500 (body_error "session_error").

(** [bcrypt.compare(data, hash)] rejects data that is not a string. *)
Definition compare (password : JsValue) (h : string) : option bool :=
  match password with
  | JStr pw => Some (bcrypt_compare L pw h)
  | _ => None
  end.

(** [bcrypt.hash(data, SALT_ROUNDS)] rejects data that is not a string. *)
Definition hash_password (e : Env) (password : JsValue) : option string :=
  match password with
  | JStr pw => Some (bcrypt_hash L (salt e) pw)
  | _ => None
  end.

(** [POST /api/login] *)
Definition login (e : Env) (st : State) (c : Ctx) (b : JsValue) : Outcome :=
  match credentials b with
  | None => (st, c, internal)
  | Some (username, password) =>
      if negb (Js.truthy username) || negb (Js.truthy password) then (st, c, required)
      else
        match Db.findUserByName L e st username with
        | None => (st, c, internal)
        | Some None => (st, c, invalid_credentials)
        | Some (Some user) =>
            match compare password (u_password_hash user) with
            | None => (st, c, internal)
            | Some false => (st, c, invalid_credentials)
            | Some true =>
                let '(st1, c1, err) := regenerate e st c in
                if err then (st1, c1, session_error)
                else (st1, bind c1 (u_id user) (JStr (u_username user)),
                      reply 200 (body_username (JStr (u_username user))))
            end
        end
  end.

(** The part of [POST /api/register] after the input check. *)
Definition create_user (e : Env) (st : State) (c : Ctx) (username password : JsValue)
  : Outcome :=
  match Db.findUserByName L e st username with
  | None => (st, c, internal)
  | Some (Some _) => (st, c, reply 409 (body_error "username_taken"))
  | Some None =>
      match hash_password e password with
      | None => (st, c, internal)
      | Some password_hash =>
          match Db.insertUser L e st username password_hash with
          | None => (st, c, internal)
          | Some (st1, newId) =>
              let '(st2, c2, err) := regenerate e st1 c in
              if err then (st2, c2, session_error)
              else (st2, bind c2 newId username, reply 201 (body_username username))
          end
      end
  end.

(** [POST /api/logout] *)
Definition logout (e : Env) (st : State) (c : Ctx) : Outcome :=
  let '(st1, c1, err) := destroy e st c in
  if err then (st1, c1, reply 500 (body_error "logout_failed"))
  else (st1, c1, {| r_status := 200; r_body := body_ok; r_clear_cookie := true |}).

(** [POST /api/import], over the [insertGamesBulk] of the server; the
    boolean it returns is false when it threw. *)
Definition import (insertGamesBulk : Env → State → nat → list JsValue → State * bool)
    (e : Env) (st : State) (c : Ctx) (b : JsValue) : Outcome :=
  requireAuth st c (λ uid,
    let payload := Js.or b (JObj []) in
    if negb (Js.truthy payload) then (st, c, reply 400 (body_error "invalid_payload"))
    else
      match Js.get payload "games" with
      | None => (st, c, internal)
      | Some (JArr gs) =>
          let '(st1, ok) := insertGamesBulk e st uid gs in
          if ok then (st1, c, reply 200 (body_imported (length gs)))
          else (st1, c, internal)
      | Some _ => (st, c, reply 400 (body_error "invalid_payload"))
      end).

(** [GET /api/games] *)
Definition list_games (e : Env) (st : State) (c : Ctx) : Outcome :=
  requireAuth st c (λ uid,
    match Db.getGamesByUser e st uid with
    | Some gs => (st, c, reply 200 (body_games gs))
    | None => (st, c, internal)
    end).

(** [for (const g of games)]: the loop ends at the first record whose
    insert throws.  [k] numbers the records, so that the body can read the
    clock of its turn. *)
Fixpoint insert_all (insert_one : nat → Db.Conn → JsValue → Db.Conn * bool)
    (k : nat) (c : Db.Conn) (gs : list JsValue) : Db.Conn * bool :=
  match gs with
  | [] => (c, true)
  | g :: rest =>
      let '(c1, ok) := insert_one k c g in
      if ok then insert_all insert_one (S k) c1 rest else (c1, false)
  end.

(** What every [insertGamesBulk] does around its loop: [BEGIN], the loop,
    [COMMIT], and [ROLLBACK] in the [catch] (for SQLite, inside
    [db.transaction]).  The result is the connection as the [try]/[catch]
    leaves it, and whether the [try] block completed. *)
Definition run_transaction (usePostgres : bool) (e : Env)
    (insert_one : nat → Db.Conn → JsValue → Db.Conn * bool)
    (c0 : Db.Conn) (gs : list JsValue) : Db.Conn * bool :=
  let '(c3, ok) :=
    let '(c1, began) := Db.query usePostgres e c0 BEGIN in
    if began then
      let '(c2, inserted) := insert_all insert_one 1 c1 gs in
      if inserted then Db.query usePostgres e c2 COMMIT else (c2, false)
    else (c1, false) in
  if ok then (c3, true)
  else (fst (Db.query usePostgres e c3 ROLLBACK), false).

(** The transaction on a connection of the pool, released at the end. *)
Definition transaction (usePostgres : bool) (e : Env)
    (insert_one : nat → Db.Conn → JsValue → Db.Conn * bool)
    (st : State) (gs : list JsValue) : State * bool :=
  let '(c, ok) := run_transaction usePostgres e insert_one (Db.connect st) gs in
  (Db.release st c, ok).

End with_lib.
End Handlers.

(** ** [src/server.js]: the Postgres-only server *)

Module PgOnly.
Import ExpressSession Handlers.
Section with_lib.
Context (L : Lib).

(** The [fens] parameter of the insert. *)
Definition fens_param (fens : JsValue) : option string :=
  if Js.is_nullish fens then Some "[]"
  else
    match fens with
    | JStr s =>
        match JSON.parse s with
        | Some _ => Some s
        | None => JSON.stringify (JArr [fens])
        end
    | _ => JSON.stringify fens
    end.

(** [g.date || g.created_at || new Date().toISOString()] for the [k]-th
    record, as the database reads it; [None] when it is not a timestamp.
    [new Date()] is evaluated in the loop, once for each record that has
    neither property. *)
Definition created_at_param (e : Env) (k : nat) (date created_at : JsValue)
  : option nat :=
  if Js.truthy date then to_timestamptz L date
  else if Js.truthy created_at then to_timestamptz L created_at
  else Some (now e k).

(** The [INSERT] of the loop for the [k]-th record, with its four
    parameters; [None] when reading the record throws or a parameter
    cannot be sent. *)
Definition insert_stmt (e : Env) (userId k : nat) (g : JsValue) : option Stmt :=
  match Js.get g "pgn", Js.get g "fens", Js.get g "date", Js.get g "created_at" with
  | Some pgn, Some fens, Some date, Some created_at =>
      match Db.text_param L (Js.or pgn (JStr "")), created_at_param e k date created_at with
      | Some p, Some t => Some (INSERT_GAME userId (Some p) (fens_param fens) t)
      | _, _ => None
      end
  | _, _, _, _ => None
  end.

(** The body of the loop of [insertGamesBulk]. *)
Definition insert_one (e : Env) (userId k : nat) (c : Db.Conn) (g : JsValue)
  : Db.Conn * bool :=
  match insert_stmt e userId k g with
  | Some q => Db.query true e c q
  | None => (c, false)
  end.

Definition insertGamesBulk (e : Env) (st : State) (userId : nat) (gs : list JsValue)
  : State * bool :=
  transaction true e (insert_one e userId) st gs.

(** [POST /api/register] *)
Definition register (e : Env) (st : State) (c : Ctx) (b : JsValue) : Outcome :=
  match credentials b with
  | None => (st, c, internal)
  | Some (username, password) =>
      if negb (Js.truthy username) || negb (Js.truthy password)
         || negb (Js.is_string username) || negb (Js.is_string password)
      then (st, c, required)
      else create_user L e st c username password
  end.

Definition handle (r : Route) (e : Env) (st : State) (c : Ctx) (b : JsValue) : Outcome :=
  match r with
  | GET_status => (st, c, reply 200 (body_status "postgres"))
  | GET_me => me st c
  | POST_register => register e st c b
  | POST_login => login L e st c b
  | POST_logout => logout e st c
  | POST_import => import insertGamesBulk e st c b
  | GET_games => list_games e st c
  end.

End with_lib.
End PgOnly.

(** ** [src/unnamed/part_000]: the dual-mode server *)

Module Dual.
Import ExpressSession Handlers.
Section with_lib.
Context (L : Lib) (usePostgres : bool).

(** The default of the [created_at] column for the [k]-th record:
    [NOW()] of Postgres is the time at which the transaction began,
    [CURRENT_TIMESTAMP] of SQLite the time of the statement. *)
Definition default_created_at (e : Env) (k : nat) : nat :=
  if usePostgres then now e 0 else now e k.

(** [insert.run(userId, g.pgn || '', JSON.stringify(g.fens || []))], the
    same parameters in both modes, for the [k]-th record; [None] when
    reading the record throws or a parameter cannot be sent. *)
Definition insert_stmt (e : Env) (userId k : nat) (g : JsValue) : option Stmt :=
  match Js.get g "pgn", Js.get g "fens" with
  | Some pgn, Some fens =>
      match Db.text_param L (Js.or pgn (JStr "")) with
      | Some p =>
          Some (INSERT_GAME userId (Some p) (JSON.stringify (Js.or fens (JArr [])))
                  (default_created_at e k))
      | None => None
      end
  | _, _ => None
  end.

(** The body of the loop of [insertGamesBulk]. *)
Definition insert_one (e : Env) (userId k : nat) (c : Db.Conn) (g : JsValue)
  : Db.Conn * bool :=
  match insert_stmt e userId k g with
  | Some q => Db.query usePostgres e c q
  | None => (c, false)
  end.

Definition insertGamesBulk (e : Env) (st : State) (userId : nat) (gs : list JsValue)
  : State * bool :=
  transaction usePostgres e (insert_one e userId) st gs.

(** [POST /api/register] *)
Definition register (e : Env) (st : State) (c : Ctx) (b : JsValue) : Outcome :=
  match credentials b with
  | None => (st, c, internal)
  | Some (username, password) =>
      if negb (Js.truthy username) || negb (Js.truthy password)
      then (st, c, required)
      else create_user L e st c username password
  end.

Definition handle (r : Route) (e : Env) (st : State) (c : Ctx) (b : JsValue) : Outcome :=
  match r with
  | GET_status => (st, c, reply 200 (body_status (if usePostgres then "postgres" else "sqlite")))
  | GET_me => me st c
  | POST_register => register e st c b
  | POST_login => login L e st c b
  | POST_logout => logout e st c
  | POST_import => import insertGamesBulk e st c b
  | GET_games => list_games e st c
  end.

End with_lib.
End Dual.

(** ** A request from the cookie to the response *)

(** The two servers; the dual-mode one with its [usePostgres]. *)
Inductive Server : Type :=
| ServerPg
| ServerDual (usePostgres : bool).

(** The routes of a server. *)
Definition handle (L : Lib) (srv : Server) : Route → Env → State → Ctx → JsValue → Outcome :=
  match srv with
  | ServerPg => PgOnly.handle L
  | ServerDual usePostgres => Dual.handle L usePostgres
  end.

(** The session middleware, the handler of the route, and the end of the
    response. *)
Definition serve (L : Lib) (srv : Server) (r : Route) (e : Env) (st : State) (req : Request)
  : State * Response :=
  let '(st0, c0) := ExpressSession.load st (cookie req) in
  let '(st1, c1, rep) := handle L srv r e st0 c0 (body req) in
  ExpressSession.finish e st1 c0 c1 rep.

(** A sequence of requests, one after the other. *)
Definition run (L : Lib) (srv : Server) (trace : list (Route * Env * Request)) (st : State)
  : State :=
  fold_left (λ st step, fst (serve L srv step.1.1 step.1.2 st step.2)) trace st.

(** The [insertGamesBulk] of a server. *)
Definition insertGamesBulk (L : Lib) (srv : Server) : Env → State → nat → list JsValue → State * bool :=
  match srv with
  | ServerPg => PgOnly.insertGamesBulk L
  | ServerDual usePostgres => Dual.insertGamesBulk L usePostgres
  end.

(** ** Sample inputs *)

(** An environment in which nothing fails. *)
Definition calm : Env := {|
  now := λ _, 1000; salt := 7;
  fail_find_user := false; fail_insert_user := false; fail_select_games := false;
  rejects := λ _, false; fail_destroy := false;
|}.

(** Libraries to run the examples with: a stand-in for bcrypt whose
    [compare] accepts a password against its hash, and the parameter
    conversion of node-postgres for booleans and numbers ([val.toString()]);
    other values and all timestamps are refused. *)
Definition sample_lib : Lib := {|
  bcrypt_hash := λ salt pw, "$2b$10$" +:+ pw;
  bcrypt_compare := λ pw h, String.eqb h ("$2b$10$" +:+ pw);
  bind_text := λ v,
    match v with
    | JBool true => Some "true"
    | JBool false => Some "false"
    | JNum lit => Some lit
    | _ => None
    end;
  to_timestamptz := λ _, None;
|}.

(** [{username: u, password: p}] *)
Definition credentials_body (u p : JsValue) : JsValue :=
  JObj [("username", u); ("password", p)].

(** ** The vocabulary of the properties *)

(** Every identifier in the store was generated earlier. *)
Definition wf (st : State) : Prop :=
  ∀ sid, is_Some (sessions st !! sid) → sid < next_sid st.

(** [st] is a later state of [st0] within one request or a sequence of
    them: identifiers only come from the generator. *)
Definition grows (st0 st : State) : Prop :=
  next_sid st0 ≤ next_sid st ∧
  ∀ sid, is_Some (sessions st !! sid) →
         is_Some (sessions st0 !! sid) ∨ (next_sid st0 ≤ sid ∧ sid < next_sid st).

(** The identifier of the request is one of the store of [st0] or a
    generated one. *)
Definition ctx_ok (st0 st : State) (c : Ctx) : Prop :=
  is_Some (sessions st0 !! sessionID c) ∨
  (next_sid st0 ≤ sessionID c ∧ sessionID c < next_sid st).

(** The store of [st'] holds, under each identifier, what the store of [st]
    holds there, or nothing. *)
Definition shrinks (st st' : State) : Prop :=
  ∀ sid, sessions st' !! sid = sessions st !! sid ∨ sessions st' !! sid = None.

(** What a handler can do to the session of a request: leave it, destroy
    it, or replace it by one under a newly generated identifier. *)
Definition ctx_step (st : State) (c c' : Ctx) : Prop :=
  c' = c ∨ (session c' = None ∧ sessionID c' = sessionID c) ∨
  next_sid st ≤ sessionID c'.

(** Two states with the same session store and generator. *)
Definition same_sessions (st st' : State) : Prop :=
  sessions st' = sessions st ∧ next_sid st' = next_sid st.

(** The identifiers the server has sent in a [Set-Cookie] header over a
    sequence of requests.  The cookie is signed with the secret of the
    server, so these are the identifiers a client can hold and present. *)
Fixpoint cookies_sent (L : Lib) (srv : Server) (trace : list (Route * Env * Request))
    (st : State) : list Sid :=
  match trace with
  | [] => []
  | (r, e, req) :: rest =>
      let '(st1, resp) := serve L srv r e st req in
      option_list (set_cookie resp) ++ cookies_sent L srv rest st1
  end.

(** The sentence "whenever register fails, the session is as it was before
    the call": the handler hands back the session it was given, the store is
    unchanged and no cookie is sent. *)
Definition register_failure_keeps_session (L : Lib) (srv : Server) : Prop :=
  ∀ e st req st' resp,
    serve L srv POST_register e st req = (st', resp) →
    status resp ≠ 201 →
    sessions st' = sessions st ∧ set_cookie resp = None.

(** The session store reports an error; everything else works. *)
Definition store_down : Env := {|
  now := λ _, 1000; salt := 7;
  fail_find_user := false; fail_insert_user := false; fail_select_games := false;
  rejects := λ _, false; fail_destroy := true;
|}.

(** A request with a cookie and a body. *)
Definition request (ck : option Sid) (b : JsValue) : Request :=
  {| cookie := ck; body := b |}.

(** The answer to a login that is refused. *)
Definition refused : Response :=
  {| status := 401; resp_body := body_error "invalid_credentials";
     set_cookie := None; clear_cookie := false |}.

(** A non-empty string. *)
Definition nonempty_string (v : JsValue) : bool := Js.is_string v && Js.truthy v.

(** The row is the one of user name [n]. *)
Definition named (n : string) (u : User) : bool := String.eqb (u_username u) n.

(** One request adds at most one user, under a name no row had. *)
Definition users_step (st st' : State) : Prop :=
  users st' = users st ∨
  ∃ u, users st' = users st ++ [u] ∧ existsb (named (u_username u)) (users st) = false.

(** [bcrypt.compare] accepts a password against each of its hashes. *)
Definition bcrypt_sound (L : Lib) : Prop :=
  ∀ salt pw, bcrypt_compare L pw (bcrypt_hash L salt pw) = true.

(** The loop body and the mode of a server. *)
Definition insert_one (L : Lib) (srv : Server)
  : Env → nat → nat → Db.Conn → JsValue → Db.Conn * bool :=
  match srv with
  | ServerPg => PgOnly.insert_one L
  | ServerDual usePostgres => Dual.insert_one L usePostgres
  end.

(** The [INSERT] a server issues for the [k]-th record of a batch. *)
Definition insert_stmt (L : Lib) (srv : Server)
  : Env → nat → nat → JsValue → option Stmt :=
  match srv with
  | ServerPg => PgOnly.insert_stmt L
  | ServerDual usePostgres => Dual.insert_stmt L usePostgres
  end.

(** Inserting the [k]-th record fails: reading it throws, a parameter
    cannot be sent, or the database rejects the [INSERT]. *)
Definition record_fails (L : Lib) (srv : Server) (e : Env) (uid k : nat) (g : JsValue)
  : bool :=
  match insert_stmt L srv e uid k g with
  | Some q => rejects e q
  | None => true
  end.

(** The row an [INSERT] that is accepted writes under the id [id]. *)
Definition row_written (q : Stmt) (id : nat) : option Game :=
  match q with
  | INSERT_GAME uid pgn fens t =>
      Some {| g_id := id; g_user_id := uid; g_pgn := pgn; g_fens := fens;
              g_created_at := t |}
  | _ => None
  end.

(** Whether the server runs on Postgres. *)
Definition usesPostgres (srv : Server) : bool :=
  match srv with
  | ServerPg => true
  | ServerDual usePostgres => usePostgres
  end.

(** The row of a record of user [uid] as [src/server.js] is to write it:
    when the [fens] of the record is a string that does not parse, the row
    is shown with the one-element array that holds the string. *)
Definition wrapped_row (uid : nat) (g : JsValue) (row : Game) : Prop :=
  g_user_id row = uid ∧
  ∀ s, Js.get g "fens" = Some (JStr s) → JSON.parse s = None →
       v_fens <$> Db.view row = Some (JArr [JStr s]).

(** The scenario of the specification: register alice, import one game
    whose [fens] is the string [not-json], list the games. *)
Definition alice : JsValue := credentials_body (JStr "alice") (JStr "secret123").

(** [{games: [{pgn: 1.e4 e5, fens: not-json}]}] *)
Definition one_game : JsValue :=
  JObj [("games", JArr [JObj [("pgn", JStr "1.e4 e5"); ("fens", JStr "not-json")]])].

(** The three responses of the scenario and the table at its end. *)
Definition scenario (srv : Server) : Response * Response * Response * list Game :=
  let '(st1, r1) := serve sample_lib srv POST_register calm initial_state (request None alice) in
  let '(st2, r2) := serve sample_lib srv POST_import calm st1 (request (set_cookie r1) one_game) in
  let '(st3, r3) := serve sample_lib srv GET_games calm st2 (request (set_cookie r1) JUndefined) in
  (r1, r2, r3, games st3).

(** A response that does not clear the cookie. *)
Definition answer (st : nat) (b : Body) (ck : option Sid) : Response :=
  {| status := st; resp_body := b; set_cookie := ck; clear_cookie := false |}.

(** The state after alice registered on [src/server.js]; her cookie is 1. *)
Definition alice_registered : State :=
  fst (serve sample_lib ServerPg POST_register calm initial_state (request None alice)).

(** Her user name with another password. *)
Definition wrong_password : JsValue := credentials_body (JStr "alice") (JStr "letmein").

(** ** JSON values and their text *)

(** A numeric literal of JSON: [parse_number] reads all of it. *)
Definition number_literal (lit : string) : bool :=
  match JSON.parse_number lit with
  | Some (l, EmptyString) => String.eqb l lit
  | _ => false
  end.

(** No key occurs twice. *)
Fixpoint distinct_keys (ks : list string) : bool :=
  match ks with
  | [] => true
  | k :: rest => negb (existsb (String.eqb k) rest) && distinct_keys rest
  end.

(** The values [JSON.parse] produces. *)
Fixpoint is_json (v : JsValue) : bool :=
  match v with
  | JUndefined => false
  | JNull | JBool _ | JStr _ => true
  | JNum lit => number_literal lit
  | JArr xs => forallb is_json xs
  | JObj fields =>
      forallb (λ kv, is_json (snd kv)) fields && distinct_keys (List.map fst fields)
  end.

(** [JSON.stringify(v)] for a value that has a text. *)
Definition json_text (v : JsValue) : string := default "null" (JSON.stringify v).

(** The input after a value ends here or goes on with [,], []] or [}]. *)
Definition delimited (rest : string) : bool :=
  match rest with
  | EmptyString => true
  | String c _ => Ascii.eqb c "," || Ascii.eqb c "]" || Ascii.eqb c "}"
  end.

(** [v] is read back from its text, whatever follows, with fuel [f0] or
    more. *)
Definition parses (v : JsValue) (f0 : nat) : Prop :=
  ∀ f rest, f0 ≤ f → delimited rest = true →
            JSON.parse_value f (json_text v +:+ rest) = Some (v, rest).

(** The first character of a value tells it from white space and from the
    end of an array or object. *)
Definition opens_value (c : ascii) : Prop :=
  JSON.is_ws c = false ∧ Ascii.eqb c "]" = false ∧ Ascii.eqb c "}" = false.

(** The text of a member of an object. *)
Definition member_text (kv : string * JsValue) : string :=
  JSON.quote (fst kv) +:+ ":" +:+ json_text (snd kv).

(** ** Who a request comes from *)

#[global] Instance Route_eq_dec : EqDecision Route.
Proof. solve_decision. Defined.

(** The user a cookie stands for: the truthy [userId] of the session the
    store holds under it. *)
Definition identity (st : State) (ck : option Sid) : option nat :=
  sid ← ck; s ← sessions st !! sid;
  Handlers.session_user {| sessionID := sid; session := Some s |}.

(** The routes that ask for a logged-in user: the two behind [requireAuth],
    and [GET /api/me], which makes the same test itself. *)
Definition needs_login (r : Route) : bool :=
  match r with
  | GET_me | POST_import | GET_games => true
  | _ => false
  end.

(** The [GET] routes. *)
Definition is_get (r : Route) : bool :=
  match r with
  | GET_status | GET_me | GET_games => true
  | _ => false
  end.

(** The routes whose handler calls [regenerate] or [destroy]. *)
Definition replaces_session (r : Route) : bool :=
  match r with
  | POST_register | POST_login | POST_logout => true
  | _ => false
  end.

(** A request of a trace that can end the session [sid]: it carries that
    cookie to one of the routes above. *)
Definition ends_session (sid : Sid) (step : Route * Env * Request) : bool :=
  bool_decide (cookie step.2 = Some sid) && replaces_session step.1.1.

(** The [games] property of the payload of an import. *)
Definition payload_games (b : JsValue) : option JsValue :=
  Js.get (Js.or b (JObj [])) "games".

(** The rows of a user, as the [WHERE] of [getGamesByUser] selects them. *)
Definition owned_by (uid : nat) (r : Game) : bool := g_user_id r =? uid.

(** The answer to a logout that went through. *)
Definition logged_out : Response :=
  {| status := 200; resp_body := body_ok; set_cookie := None; clear_cookie := true |}.

(** The routes both servers implement with the same code, for a body on
    which [register] makes the same decision in both: when the user name
    and the password are truthy they are strings. *)
Definition shared_route (r : Route) (b : JsValue) : bool :=
  match r with
  | GET_status | POST_import => false
  | POST_register =>
      match Handlers.credentials b with
      | Some (u, p) =>
          negb (Js.truthy u && Js.truthy p) || (Js.is_string u && Js.is_string p)
      | None => true
      end
  | GET_me | POST_login | POST_logout | GET_games => true
  end.

(** The user name of a body, when it is truthy, is a string. *)
Definition string_name (b : JsValue) : bool :=
  match Handlers.credentials b with
  | Some (u, _) => negb (Js.truthy u) || Js.is_string u
  | None => true
  end.

(** Two sets of libraries with the same bcrypt: both servers load the
    [bcrypt] package. *)
Definition same_bcrypt (L L' : Lib) : Prop :=
  (∀ salt pw, bcrypt_hash L' salt pw = bcrypt_hash L salt pw) ∧
  (∀ pw h, bcrypt_compare L' pw h = bcrypt_compare L pw h).

(** Libraries to run [src/unnamed/part_000] on SQLite with: the bcrypt of
    [sample_lib], and a driver that, like better-sqlite3, sends a number
    and throws on a boolean, an array or an object. *)
Definition sqlite_lib : Lib := {|
  bcrypt_hash := bcrypt_hash sample_lib;
  bcrypt_compare := bcrypt_compare sample_lib;
  bind_text := λ v, match v with JNum lit => Some lit | _ => None end;
  to_timestamptz := λ _, None;
|}.

(** ** What holds of every state the server reaches *)

(** The tables and the session store fit together: user ids are positive,
    below the next id and distinct, user names are distinct; a session that
    holds a user id, and a game, belong to a user of the table. *)
Record fits (st : State) : Prop := {
  next_id_positive : 0 < next_user_id st;
  user_ids : Forall (λ u, 0 < u_id u ∧ u_id u < next_user_id st) (users st);
  ids_distinct : NoDup (List.map u_id (users st));
  names_distinct : NoDup (List.map u_username (users st));
  session_owners :
    ∀ sid s id, sessions st !! sid = Some s → userId s = Some id →
                ∃ u, u ∈ users st ∧ u_id u = id;
  game_owners : Forall (λ g, ∃ u, u ∈ users st ∧ u_id u = g_user_id g) (games st);
}.

(** ... and the identifiers in the store were generated. *)
Definition consistent (st : State) : Prop := wf st ∧ fits st.

(** The session of a request belongs to a user of the table. *)
Definition owned (st : State) (c : Ctx) : Prop :=
  ∀ s id, session c = Some s → userId s = Some id → ∃ u, u ∈ users st ∧ u_id u = id.

(** ** What a listing shows for an imported record *)

(** A JSON value, or [undefined] for a property that is absent. *)
Definition json_or_absent (v : JsValue) : bool :=
  match v with
  | JUndefined => true
  | _ => is_json v
  end.

(** A request of a trace whose body is a JSON value, as [express.json()]
    leaves it, or absent. *)
Definition json_request (step : Route * Env * Request) : bool :=
  json_or_absent (body step.2).

(** Strings, booleans, [null] and arrays of these: the values that the
    model and JavaScript print and read alike.  (A number is a double
    there and its literal here; the keys of an object are kept in the order
    of the text here.) *)
Fixpoint plain (v : JsValue) : bool :=
  match v with
  | JNull | JBool _ | JStr _ => true
  | JArr xs => forallb plain xs
  | JUndefined | JNum _ | JObj _ => false
  end.

(** A value that holds no number, at any depth. *)
Fixpoint numberless (v : JsValue) : bool :=
  match v with
  | JNum _ => false
  | JArr xs => forallb numberless xs
  | JObj fields => forallb (λ kv, numberless (snd kv)) fields
  | JUndefined | JNull | JBool _ | JStr _ => true
  end.

(** The [fens] parameter a server binds for a record with [fens]. *)
Definition fens_text (srv : Server) (fens : JsValue) : option string :=
  match srv with
  | ServerPg => PgOnly.fens_param fens
  | ServerDual _ => JSON.stringify (Js.or fens (JArr []))
  end.

(** The [fens] that [GET /api/games] shows for a record imported with
    [fens]. *)
Definition shown_fens (srv : Server) (fens : JsValue) : JsValue :=
  match srv with
  | ServerPg =>
      match fens with
      | JUndefined | JNull => JArr []
      | JStr s =>
          match JSON.parse s with
          | Some v => v
          | None => JArr [JStr s]
          end
      | _ => fens
      end
  | ServerDual _ => Js.or fens (JArr [])
  end.

(** The [created_at] of the row of the [k]-th record of a batch:
    [src/server.js] takes the [date] of the record, else its [created_at],
    else the time at which the loop handles the record;
    [src/unnamed/part_000] leaves the column to its default, which is the
    time at which the transaction began in Postgres and the time of the
    insert in SQLite. *)
Definition stamp (L : Lib) (srv : Server) (e : Env) (k : nat) (g : JsValue)
  : option nat :=
  match srv with
  | ServerPg =>
      date ← Js.get g "date"; created_at ← Js.get g "created_at";
      PgOnly.created_at_param L e k date created_at
  | ServerDual usePostgres => Some (Dual.default_created_at usePostgres e k)
  end.

(** The row a server writes for the [k]-th record [g] of a batch of user
    [uid]. *)
Definition row_of (L : Lib) (srv : Server) (e : Env) (uid k : nat) (g : JsValue)
    (row : Game) : Prop :=
  g_user_id row = uid ∧
  stamp L srv e k g = Some (g_created_at row) ∧
  ∃ pgn fens, Js.get g "pgn" = Some pgn ∧ Js.get g "fens" = Some fens ∧
              g_pgn row = Db.text_param L (Js.or pgn (JStr "")) ∧
              g_fens row = fens_text srv fens.

(** Every row of the table can be shown: its [fens] parses. *)
Definition viewable (st : State) : Prop :=
  Forall (λ r, is_Some (Db.view r)) (games st).

(** [ORDER BY created_at DESC], on what is shown. *)
Definition newer_view_first (a b : GameView) : Prop := v_date b ≤ v_date a.

(** ** [src/migrate_sqlite_to_postgres.js] *)

(** The script copies the users and games of the SQLite file into the
    Postgres database of [src/server.js]: it creates the two tables when
    they do not exist, then copies the rows inside one transaction.  The
    backup of the SQLite file, which comes first, is outside the model. *)
Module Migrate.

(** A row of [users] and of [games] in the SQLite file, as the schema of
    [initSqlite] declares them; the columns the script guards with [||] or
    tests for [null] are options.  The columns are [INTEGER] and [TEXT]: of
    the three branches of the [fens] normalisation, the one for a value
    that is neither [null] nor a string is not reached. *)
Record SqliteUser := {
  su_id : nat;
  su_username : string;
  su_password_hash : option string;
  su_created_at : option string;
}.

Record SqliteGame := {
  sg_id : nat;
  sg_user_id : nat;
  sg_pgn : option string;
  sg_fens : option string;
  sg_created_at : option string;
}.

(** The Postgres database the script connects to: which of the two tables
    exist, and the state that holds their rows. *)
Record Database := {
  has_users : bool;
  has_games : bool;
  content : State;
}.

(** What the database holds: a table that does not exist has no row, and
    the sequence of its [SERIAL] column, created with the table, starts
    at 1. *)
Definition rows (d : Database) : State :=
  {| users := if has_users d then users (content d) else [];
     next_user_id := if has_users d then next_user_id (content d) else 1;
     games := if has_games d then games (content d) else [];
     next_game_id := if has_games d then next_game_id (content d) else 1;
     sessions := sessions (content d); next_sid := next_sid (content d) |}.

(** A database in which both tables exist. *)
Definition with_tables (st : State) : Database :=
  {| has_users := true; has_games := true; content := st |}.

(** [CREATE TABLE IF NOT EXISTS users] *)
Definition create_users (d : Database) : Database :=
  if has_users d then d
  else {| has_users := true; has_games := has_games d;
          content := {| users := []; next_user_id := 1;
                        games := games (content d);
                        next_game_id := next_game_id (content d);
                        sessions := sessions (content d);
                        next_sid := next_sid (content d) |} |}.

(** [CREATE TABLE IF NOT EXISTS games] *)
Definition create_games (d : Database) : Database :=
  if has_games d then d
  else {| has_users := has_users d; has_games := true;
          content := {| users := users (content d);
                        next_user_id := next_user_id (content d);
                        games := []; next_game_id := 1;
                        sessions := sessions (content d);
                        next_sid := next_sid (content d) |} |}.

(** What the outside world decides during a run: whether it is a dry run
    ([--dry] or [DRY_RUN=1]), the clock at the turn of the loop for each row
    of the SQLite file (the rows of a table differ in their [id]), and which
    statements Postgres rejects. *)
Record World := {
  dry_run : bool;
  now_user : SqliteUser → nat;
  now_game : SqliteGame → nat;
  rejects_create_users : bool;
  rejects_create_games : bool;
  rejects_begin : bool;
  rejects_select : SqliteUser → bool;
  rejects_insert_user : SqliteUser → bool;
  rejects_insert_game : SqliteGame → bool;
  rejects_commit : bool;
}.

(** The variables of [main] inside the transaction: the tables as the
    connection sees them, [userMap] and the two counters. *)
Record Progress := {
  pg : State;
  userMap : gmap nat nat;
  insertedUsers : nat;
  insertedGames : nat;
}.

(** [userMap.set(old, new)] *)
Definition remember (p : Progress) (old new : nat) : Progress :=
  {| pg := pg p; userMap := <[old := new]> (userMap p);
     insertedUsers := insertedUsers p; insertedGames := insertedGames p |}.

(** The [INSERT INTO users]; the id is drawn from the sequence. *)
Definition insert_user_row (st : State) (name password_hash : string) : State :=
  {| users := users st ++ [{| u_id := next_user_id st; u_username := name;
                              u_password_hash := password_hash |}];
     next_user_id := S (next_user_id st);
     games := games st; next_game_id := next_game_id st;
     sessions := sessions st; next_sid := next_sid st |}.

(** The [INSERT INTO games]. *)
Definition insert_game_row (st : State) (user_id : nat) (pgn fens : option string)
    (created_at : nat) : State :=
  {| users := users st; next_user_id := next_user_id st;
     games := games st ++ [{| g_id := next_game_id st; g_user_id := user_id;
                              g_pgn := pgn; g_fens := fens;
                              g_created_at := created_at |}];
     next_game_id := S (next_game_id st);
     sessions := sessions st; next_sid := next_sid st |}.

Section with_lib.
Context (L : Lib).

(** [row.created_at || new Date().toISOString()] as Postgres reads it into
    a [TIMESTAMPTZ] column, [today] being the clock at this turn of the
    loop; [None] when it is not a timestamp. *)
Definition created_at_param (today : nat) (created_at : option string) : option nat :=
  match created_at with
  | None | Some EmptyString => Some today
  | Some s => to_timestamptz L (JStr s)
  end.

(** The body of the loop over the users; the boolean is false when a
    statement threw. *)
Definition migrate_user (w : World) (p : Progress) (u : SqliteUser) : Progress * bool :=
  if rejects_select w u then (p, false)
  else
    match List.find (named (su_username u)) (users (pg p)) with
    | Some existing => (remember p (su_id u) (u_id existing), true)
    | None =>
        if dry_run w then (p, true)
        else if rejects_insert_user w u then (p, false)
        else
          match created_at_param (now_user w u) (su_created_at u) with
          | None => (p, false)
          | Some _ =>
              ({| pg := insert_user_row (pg p) (su_username u)
                          (default "" (su_password_hash u));
                  userMap := <[su_id u := next_user_id (pg p)]> (userMap p);
                  insertedUsers := S (insertedUsers p);
                  insertedGames := insertedGames p |}, true)
          end
    end.

(** The body of the loop over the games.  A game whose owner is not in
    [userMap] is skipped; the [fens] is normalised as in [insertGamesBulk]
    of [src/server.js]; the insert fails when [user_id] refers to no row
    of [users]. *)
Definition migrate_game (w : World) (p : Progress) (g : SqliteGame) : Progress * bool :=
  match userMap p !! sg_user_id g with
  | None | Some 0 => (p, true)
  | Some pgUid =>
      let fensStr := PgOnly.fens_param (from_option JStr JNull (sg_fens g)) in
      if dry_run w then
        ({| pg := pg p; userMap := userMap p; insertedUsers := insertedUsers p;
            insertedGames := S (insertedGames p) |}, true)
      else if rejects_insert_game w g then (p, false)
      else if negb (existsb (λ u, u_id u =? pgUid) (users (pg p))) then (p, false)
      else
        match created_at_param (now_game w g) (sg_created_at g) with
        | None => (p, false)
        | Some t =>
            ({| pg := insert_game_row (pg p) pgUid (Some (default "" (sg_pgn g)))
                        fensStr t;
                userMap := userMap p; insertedUsers := insertedUsers p;
                insertedGames := S (insertedGames p) |}, true)
        end
  end.

(** [for (const r of rows)]: the loop ends at the first row whose body
    throws. *)
Fixpoint each {A} (body : Progress → A → Progress * bool) (p : Progress) (rows : list A)
  : Progress * bool :=
  match rows with
  | [] => (p, true)
  | r :: rest =>
      let '(p1, ok) := body p r in
      if ok then each body p1 rest else (p1, false)
  end.

(** [ROLLBACK]: the tables are as before the transaction; the sequences
    stay where the transaction left them. *)
Definition rolled_back (st : State) (p : Progress) : State :=
  {| users := users st; next_user_id := next_user_id (pg p);
     games := games st; next_game_id := next_game_id (pg p);
     sessions := sessions st; next_sid := next_sid st |}.

(** The transaction of [main], from its [BEGIN]: the tables it leaves and
    the two numbers of its last log line, or [None] when it threw. *)
Definition transaction (w : World) (sqliteUsers : list SqliteUser)
    (sqliteGames : list SqliteGame) (st : State) : State * option (nat * nat) :=
  if rejects_begin w then (st, None)
  else
    let start := {| pg := st; userMap := ∅; insertedUsers := 0; insertedGames := 0 |} in
    let '(p1, ok1) := each (migrate_user w) start sqliteUsers in
    if ok1 then
      let '(p2, ok2) := each (migrate_game w) p1 sqliteGames in
      if ok2 then
        if dry_run w then
          (rolled_back st p2, Some (insertedUsers p2, insertedGames p2))
        else if rejects_commit w then (rolled_back st p2, None)
        else (pg p2, Some (insertedUsers p2, insertedGames p2))
      else (rolled_back st p2, None)
    else (rolled_back st p1, None).

(** The two [CREATE TABLE IF NOT EXISTS] that [main] issues on its
    connection before the transaction, in a dry run as in any other; the
    boolean is false when one of them threw. *)
Definition ensure_tables (w : World) (d : Database) : Database * bool :=
  if rejects_create_users w then (d, false)
  else if rejects_create_games w then (create_users d, false)
  else (create_games (create_users d), true).

(** [main] on its connection to Postgres: the database it leaves and the
    two numbers of its last log line, or [None] when the migration failed
    (exit code 2). *)
Definition migrate (w : World) (sqliteUsers : list SqliteUser)
    (sqliteGames : list SqliteGame) (d : Database) : Database * option (nat * nat) :=
  let '(d1, ok) := ensure_tables w d in
  if ok then
    let '(st, out) := transaction w sqliteUsers sqliteGames (content d1) in
    (with_tables st, out)
  else (d1, None).

End with_lib.
End Migrate.

(** [userMap] sends ids of SQLite users to ids of Postgres users of the
    same name. *)
Definition maps_by_name (sqliteUsers : list Migrate.SqliteUser) (p : Migrate.Progress)
  : Prop :=
  ∀ old new, Migrate.userMap p !! old = Some new →
    ∃ su row, su ∈ sqliteUsers ∧ Migrate.su_id su = old ∧
              row ∈ users (Migrate.pg p) ∧ u_id row = new ∧
              u_username row = Migrate.su_username su.

(** The variables of the migration when its transaction begins. *)
Definition start (st : State) : Migrate.Progress :=
  {| Migrate.pg := st; Migrate.userMap := ∅;
     Migrate.insertedUsers := 0; Migrate.insertedGames := 0 |}.

(** Inside the transaction the tables have grown at their ends by [newu]
    and [newg], the sequences with them; the counters count the rows, and
    a dry run adds none. *)
Definition grown (w : Migrate.World) (st : State) (newu : list User) (newg : list Game)
    (p : Migrate.Progress) : Prop :=
  sessions (Migrate.pg p) = sessions st ∧ next_sid (Migrate.pg p) = next_sid st ∧
  users (Migrate.pg p) = users st ++ newu ∧
  games (Migrate.pg p) = games st ++ newg ∧
  next_user_id (Migrate.pg p) = next_user_id st + length newu ∧
  next_game_id (Migrate.pg p) = next_game_id st + length newg ∧
  Migrate.insertedUsers p = length newu ∧
  (Migrate.dry_run w = false → Migrate.insertedGames p = length newg) ∧
  (Migrate.dry_run w = true → newu = [] ∧ newg = []).

(** A row of [games] that the migration wrote for a game of the SQLite
    file: its owner is a Postgres user with the name of the SQLite owner of
    the game, its [pgn] is that of the game or empty, its [fens] is the
    normalised [fens] of the game. *)
Definition migrated_game (sqliteUsers : list Migrate.SqliteUser)
    (sqliteGames : list Migrate.SqliteGame) (pgUsers : list User) (row : Game) : Prop :=
  ∃ sg su owner,
    sg ∈ sqliteGames ∧ su ∈ sqliteUsers ∧ Migrate.su_id su = Migrate.sg_user_id sg ∧
    owner ∈ pgUsers ∧ u_id owner = g_user_id row ∧
    u_username owner = Migrate.su_username su ∧
    g_pgn row = Some (default "" (Migrate.sg_pgn sg)) ∧
    g_fens row = PgOnly.fens_param (from_option JStr JNull (Migrate.sg_fens sg)).

(** Postgres rejects no statement of the run and reads every [created_at]
    of the file as a timestamp: whatever stops the run then is the script's
    own doing. *)
Definition accepting (L : Lib) (w : Migrate.World)
    (sqliteUsers : list Migrate.SqliteUser) (sqliteGames : list Migrate.SqliteGame)
  : Prop :=
  Migrate.rejects_create_users w = false ∧ Migrate.rejects_create_games w = false ∧
  Migrate.rejects_begin w = false ∧ Migrate.rejects_commit w = false ∧
  (∀ su, su ∈ sqliteUsers →
     Migrate.rejects_select w su = false ∧ Migrate.rejects_insert_user w su = false ∧
     is_Some (Migrate.created_at_param L (Migrate.now_user w su)
                (Migrate.su_created_at su))) ∧
  (∀ sg, sg ∈ sqliteGames →
     Migrate.rejects_insert_game w sg = false ∧
     is_Some (Migrate.created_at_param L (Migrate.now_game w sg)
                (Migrate.sg_created_at sg))).

(** A world in which Postgres rejects nothing and the run is not a dry
    run. *)
Definition quiet : Migrate.World := {|
  Migrate.dry_run := false;
  Migrate.now_user := λ _, 2000; Migrate.now_game := λ g, 2000 + Migrate.sg_id g;
  Migrate.rejects_create_users := false; Migrate.rejects_create_games := false;
  Migrate.rejects_begin := false; Migrate.rejects_select := λ _, false;
  Migrate.rejects_insert_user := λ _, false;
  Migrate.rejects_insert_game := λ _, false; Migrate.rejects_commit := false;
|}.

(** ** More sample inputs *)

(** [{games: [{pgn: 1.e4, fens: [startpos]}, {pgn: 1.d4}]}] *)
Definition two_games : JsValue :=
  JObj [("games",
         JArr [JObj [("pgn", JStr "1.e4"); ("fens", JArr [JStr "startpos"])];
               JObj [("pgn", JStr "1.d4")]])].

(** The state after alice, registered on [src/server.js], imported them. *)
Definition alice_imported : State :=
  fst (serve sample_lib ServerPg POST_import calm alice_registered
         (request (Some 1) two_games)).

(** The credentials of a second user. *)
Definition bob : JsValue := credentials_body (JStr "bob") (JStr "hunter2").

(** A SQLite file with two users, one of them alice, and three games: one
    of bob with a [fens] that is not JSON, one of alice without [fens], and
    one of a user that is not in the file. *)
Definition sqlite_users : list Migrate.SqliteUser :=
  [{| Migrate.su_id := 7; Migrate.su_username := "alice";
      Migrate.su_password_hash := Some "$2b$10$old"; Migrate.su_created_at := None |};
   {| Migrate.su_id := 9; Migrate.su_username := "bob";
      Migrate.su_password_hash := Some "$2b$10$hunter2";
      Migrate.su_created_at := None |}].

Definition sqlite_games : list Migrate.SqliteGame :=
  [{| Migrate.sg_id := 1; Migrate.sg_user_id := 9; Migrate.sg_pgn := Some "1.e4";
      Migrate.sg_fens := Some "not-json"; Migrate.sg_created_at := None |};
   {| Migrate.sg_id := 2; Migrate.sg_user_id := 7; Migrate.sg_pgn := None;
      Migrate.sg_fens := None; Migrate.sg_created_at := None |};
   {| Migrate.sg_id := 3; Migrate.sg_user_id := 5; Migrate.sg_pgn := Some "1.c4";
      Migrate.sg_fens := Some "[]"; Migrate.sg_created_at := None |}].

(** A dry run in which Postgres rejects nothing. *)
Definition rehearsal : Migrate.World := {|
  Migrate.dry_run := true;
  Migrate.now_user := λ _, 2000; Migrate.now_game := λ g, 2000 + Migrate.sg_id g;
  Migrate.rejects_create_users := false; Migrate.rejects_create_games := false;
  Migrate.rejects_begin := false; Migrate.rejects_select := λ _, false;
  Migrate.rejects_insert_user := λ _, false;
  Migrate.rejects_insert_game := λ _, false; Migrate.rejects_commit := false;
|}.

(** The database of alice after the migration of the file. *)
Definition migrated : Migrate.Database :=
  fst (Migrate.migrate sample_lib quiet sqlite_users sqlite_games
         (Migrate.with_tables alice_registered)).

(** A Postgres database in which nothing was created yet. *)
Definition blank : Migrate.Database :=
  {| Migrate.has_users := false; Migrate.has_games := false;
     Migrate.content := initial_state |}.

(** An environment whose clock ticks between the records of a batch. *)
Definition ticking : Env := {|
  now := λ k, 1000 + k; salt := 7;
  fail_find_user := false; fail_insert_user := false; fail_select_games := false;
  rejects := λ _, false; fail_destroy := false;
|}.

(** * Properties *)

(** ** JSON: what is printed parses back *)

Module JSONFacts.
Import Js JSON.

Lemma app_cons (ch : ascii) (a b : string) : String ch a +:+ b = String ch (a +:+ b).
Proof. reflexivity. Qed.

Lemma app_empty (b : string) : "" +:+ b = b.
Proof. reflexivity. Qed.

Lemma app_empty_r (a : string) : a +:+ "" = a.
Proof. induction a as [|ch a IH]; [reflexivity|]. by rewrite app_cons, IH. Qed.

Lemma append_assoc (a b c : string) : (a +:+ b) +:+ c = a +:+ (b +:+ c).
Proof.
  induction a as [|ch a IH]; [reflexivity|]. by rewrite !app_cons, IH.
Qed.

Lemma parse_string_escape_char (c : ascii) (r : string) :
  parse_string (escape_char c +:+ r) = prepend (String c EmptyString) (parse_string r).
Proof.
  destruct c as [[] [] [] [] [] [] [] []]; reflexivity.
Qed.

(** The escaped text of a string, followed by the closing quote, is read
    back as that string. *)
Lemma parse_string_escape (s rest : string) :
  parse_string (escape s +:+ String dquote rest) = Some (s, rest).
Proof.
  induction s as [|c s IH].
  - reflexivity.
  - cbn [escape]. rewrite append_assoc, parse_string_escape_char, IH. reflexivity.
Qed.

Lemma parse_value_quote (fuel : nat) (s rest : string) :
  parse_value (S fuel) (quote s +:+ rest) = Some (JStr s, rest).
Proof.
  unfold quote. rewrite app_cons, append_assoc, app_cons, app_empty.
  cbn [parse_value skip_ws].
  change (is_ws dquote) with false. cbv iota.
  change (Ascii.eqb dquote "n") with false.
  change (Ascii.eqb dquote "t") with false.
  change (Ascii.eqb dquote "f") with false.
  change (Ascii.eqb dquote dquote) with true. cbv iota.
  rewrite parse_string_escape. reflexivity.
Qed.

Lemma parse_quote (s : string) : parse (quote s) = Some (JStr s).
Proof.
  unfold parse.
  destruct (2 * String.length (quote s) + 2) as [|fuel] eqn:E; [lia|].
  rewrite <- (app_empty_r (quote s)) at 1.
  rewrite parse_value_quote. reflexivity.
Qed.

(** [JSON.parse(JSON.stringify([s]))] is [[s]]. *)
Lemma parse_wrapped (s : string) :
  (JSON.stringify (JArr [JStr s]) ≫= parse) = Some (JArr [JStr s]).
Proof.
  cbn [stringify List.map join default mbind option_bind from_option id].
  unfold parse.
  set (text := "[" +:+ quote s +:+ "]").
  assert (∃ fuel, 2 * String.length text + 2 = S (S (S fuel))) as [fuel ->].
  { subst text. rewrite app_cons. cbn [String.length].
    exists (S (2 * String.length ("" +:+ quote s +:+ "]"))). lia. }
  subst text. rewrite app_cons, app_empty.
  cbn [parse_value skip_ws].
  change (is_ws "[") with false. cbv iota.
  change (Ascii.eqb "[" "n") with false.
  change (Ascii.eqb "[" "t") with false.
  change (Ascii.eqb "[" "f") with false.
  change (Ascii.eqb "[" dquote) with false.
  change (Ascii.eqb "[" "[") with true. cbv iota.
  replace (skip_ws (quote s +:+ "]")) with (quote s +:+ "]") by reflexivity.
  unfold quote at 1. rewrite app_cons.
  cbn [parse_elements].
  rewrite parse_value_quote. reflexivity.
Qed.

End JSONFacts.

(** ** JSON: the fuel of the parser *)

Module JSONFuel.
Import Js JSON.

Lemma skip_ws_length s : String.length (skip_ws s) ≤ String.length s.
Proof.
  induction s as [|c s IH]; simpl; [done|]. destruct (is_ws c); simpl; lia.
Qed.

Lemma expect_length lit : ∀ s r, expect lit s = Some r → String.length r ≤ String.length s.
Proof.
  induction lit as [|a lit IH]; intros [|b s] r H; simpl in *; simplify_eq; try done.
  destruct (Ascii.eqb a b); [|done]. apply IH in H. lia.
Qed.

Lemma prepend_Some p o v r :
  prepend p o = Some (v, r) → ∃ v', o = Some (v', r).
Proof. destruct o as [[v' r']|]; simpl; [|done]. intros [= <- <-]. eauto. Qed.

Lemma parse_string_length n : ∀ s v r,
  String.length s ≤ n → parse_string s = Some (v, r) → String.length r < String.length s.
Proof.
  induction n as [|n IH]; intros [|c s] v r Hn H; simpl in *; try done; try lia.
  destruct (Ascii.eqb c dquote); [injection H as <- <-; lia|].
  destruct (Ascii.eqb c backslash).
  - destruct s as [|e s]; [done|]. simpl in Hn.
    assert (Hrec : ∀ p, prepend p (parse_string s) = Some (v, r) →
                        String.length r < S (S (String.length s))).
    { intros p Hp. apply prepend_Some in Hp as [v' Hp].
      apply IH in Hp; lia. }
    repeat (match type of H with
            | (if ?b then _ else _) = _ => destruct b; [by eapply Hrec|]
            end).
    destruct (Ascii.eqb e "u"); [|done].
    destruct s as [|h1 [|h2 [|h3 [|h4 s]]]]; try done.
    destruct (hex_val h1), (hex_val h2), (hex_val h3), (hex_val h4); try done.
    apply prepend_Some in H as [v' Hp]. simpl in Hn.
    apply IH in Hp; simpl; lia.
  - destruct (nat_of_ascii c <? 32); [done|].
    apply prepend_Some in H as [v' Hp]. apply IH in Hp; lia.
Qed.

Lemma span_digits_length s ds r :
  span_digits s = (ds, r) → String.length s = String.length ds + String.length r.
Proof.
  revert ds r. induction s as [|c s IH]; intros ds r H; simpl in H.
  - by injection H as <- <-.
  - destruct (is_digit c); [|by injection H as <- <-].
    destruct (span_digits s) as [ds' r'] eqn:E. injection H as <- <-.
    simpl. rewrite (IH _ _ eq_refl). lia.
Qed.

Lemma parse_number_length s lit r :
  parse_number s = Some (lit, r) → String.length r < String.length s.
Proof.
  unfold parse_number.
  set (signed := match s with String c r0 => _ | EmptyString => _ end).
  assert (Hsign : String.length signed.2 ≤ String.length s).
  { subst signed. destruct s as [|c s]; simpl; [done|].
    destruct (Ascii.eqb c "-"); simpl; lia. }
  destruct signed as [sign s1]. simpl in Hsign.
  destruct (span_digits s1) as [int s2] eqn:Eint.
  apply span_digits_length in Eint.
  destruct int as [|d more]; [done|]. simpl in Eint.
  destruct (Ascii.eqb d "0" && negb (String.eqb more "")); [done|].
  set (frac := match s2 with String c r0 => _ | EmptyString => _ end).
  assert (Hfrac : ∀ fr s3, frac = Some (fr, s3) → String.length s3 ≤ String.length s2).
  { subst frac. intros fr s3. destruct s2 as [|c s2']; [by intros [= <- <-]|].
    destruct (Ascii.eqb c "."); [|by intros [= <- <-]].
    destruct (span_digits s2') as [fd s3'] eqn:Ef.
    apply span_digits_length in Ef.
    destruct (String.eqb fd ""); [done|]. intros [= <- <-]. simpl. lia. }
  destruct frac as [[fr s3]|]; [|done].
  specialize (Hfrac _ _ eq_refl).
  set (exp := match s3 with String e r0 => _ | EmptyString => _ end).
  assert (Hexp : ∀ ex s4, exp = Some (ex, s4) → String.length s4 ≤ String.length s3).
  { subst exp. intros ex s4. destruct s3 as [|e s3']; [by intros [= <- <-]|].
    destruct (Ascii.eqb e "e" || Ascii.eqb e "E"); [|by intros [= <- <-]].
    set (sg := match s3' with String g r0 => _ | EmptyString => _ end).
    assert (Hsg : String.length sg.2 ≤ String.length s3').
    { subst sg. destruct s3' as [|g r0]; [done|].
      destruct (Ascii.eqb g "+" || Ascii.eqb g "-"); simpl; lia. }
    destruct sg as [sgn r1]. simpl in Hsg.
    destruct (span_digits r1) as [ed s4'] eqn:Ee.
    apply span_digits_length in Ee.
    destruct (String.eqb ed ""); [done|]. intros [= <- <-]. simpl. lia. }
  destruct exp as [[ex s4]|]; [|done].
  specialize (Hexp _ _ eq_refl).
  intros [= <- <-]. lia.
Qed.

(** One step of each parser. *)
Lemma parse_value_S f s :
  parse_value (S f) s =
    match skip_ws s with
    | EmptyString => None
    | String c r =>
        if Ascii.eqb c "n" then (fun rest => (JNull, rest)) <$> expect "ull" r
        else if Ascii.eqb c "t" then (fun rest => (JBool true, rest)) <$> expect "rue" r
        else if Ascii.eqb c "f" then (fun rest => (JBool false, rest)) <$> expect "alse" r
        else if Ascii.eqb c dquote then
          match parse_string r with
          | Some (str, rest) => Some (JStr str, rest)
          | None => None
          end
        else if Ascii.eqb c "[" then
          match skip_ws r with
          | String c1 rest =>
              if Ascii.eqb c1 "]" then Some (JArr [], rest)
              else parse_elements f r []
          | EmptyString => parse_elements f r []
          end
        else if Ascii.eqb c "{" then
          match skip_ws r with
          | String c1 rest =>
              if Ascii.eqb c1 "}" then Some (JObj [], rest)
              else parse_members f r []
          | EmptyString => parse_members f r []
          end
        else
          match parse_number (String c r) with
          | Some (lit, rest) => Some (JNum lit, rest)
          | None => None
          end
    end.
Proof. reflexivity. Qed.

Lemma parse_elements_S f s acc :
  parse_elements (S f) s acc =
    match parse_value f s with
    | None => None
    | Some (v, r) =>
        match skip_ws r with
        | String c rest =>
            if Ascii.eqb c "," then parse_elements f rest (acc ++ [v])
            else if Ascii.eqb c "]" then Some (JArr (acc ++ [v]), rest)
            else None
        | EmptyString => None
        end
    end.
Proof. reflexivity. Qed.

Lemma parse_members_S f s acc :
  parse_members (S f) s acc =
    match skip_ws s with
    | String c r =>
        if Ascii.eqb c dquote then
          match parse_string r with
          | None => None
          | Some (k, r1) =>
              match skip_ws r1 with
              | String colon r2 =>
                  if Ascii.eqb colon ":" then
                    match parse_value f r2 with
                    | None => None
                    | Some (v, r3) =>
                        match skip_ws r3 with
                        | String d rest =>
                            if Ascii.eqb d "," then
                              parse_members f rest (set_field k v acc)
                            else if Ascii.eqb d "}" then
                              Some (JObj (set_field k v acc), rest)
                            else None
                        | EmptyString => None
                        end
                    end
                  else None
              | EmptyString => None
              end
          end
        else None
    | EmptyString => None
    end.
Proof. reflexivity. Qed.

Lemma skip_ws_cons s c r :
  skip_ws s = String c r → String.length r < String.length s.
Proof. intros H. pose proof (skip_ws_length s) as Hl. rewrite H in Hl. simpl in Hl. lia. Qed.

(** Every parser consumes input. *)
Lemma parse_consumes f :
  (∀ s v r, parse_value f s = Some (v, r) → String.length r < String.length s) ∧
  (∀ s acc v r, parse_elements f s acc = Some (v, r) → String.length r < String.length s) ∧
  (∀ s acc v r, parse_members f s acc = Some (v, r) → String.length r < String.length s).
Proof.
  induction f as [|f (IHv & IHe & IHm)]; [by repeat split|].
  repeat split.
  - intros s v r. rewrite parse_value_S.
    destruct (skip_ws s) as [|c r0] eqn:Ews; [done|].
    apply skip_ws_cons in Ews.
    assert (Hlit : ∀ lit (w : JsValue),
      (λ rest, (w, rest)) <$> expect lit r0 = Some (v, r) →
      String.length r < String.length s).
    { intros lit w H. destruct (expect lit r0) as [rest|] eqn:E; [|done].
      injection H as <- <-. apply expect_length in E. lia. }
    repeat (match goal with
            | |- (if ?b then _ else _) = _ → _ => destruct b
            end); eauto.
    + destruct (parse_string r0) as [[str rest]|] eqn:E; [|done].
      intros [= <- <-]. apply (parse_string_length _ _ _ _ (le_n _)) in E. lia.
    + destruct (skip_ws r0) as [|c1 rest] eqn:E1.
      * intros H%IHe. lia.
      * apply skip_ws_cons in E1.
        destruct (Ascii.eqb c1 "]"); [intros [= <- <-]; lia|]. intros H%IHe. lia.
    + destruct (skip_ws r0) as [|c1 rest] eqn:E1.
      * intros H%IHm. lia.
      * apply skip_ws_cons in E1.
        destruct (Ascii.eqb c1 "}"); [intros [= <- <-]; lia|]. intros H%IHm. lia.
    + destruct (parse_number (String c r0)) as [[lit rest]|] eqn:E; [|done].
      intros [= <- <-]. apply parse_number_length in E. simpl in E. lia.
  - intros s acc v r. rewrite parse_elements_S.
    destruct (parse_value f s) as [[v0 r0]|] eqn:Ev; [|done].
    apply IHv in Ev.
    destruct (skip_ws r0) as [|c rest] eqn:E1; [done|].
    apply skip_ws_cons in E1.
    destruct (Ascii.eqb c ","); [intros H%IHe; lia|].
    destruct (Ascii.eqb c "]"); [intros [= <- <-]; lia|done].
  - intros s acc v r. rewrite parse_members_S.
    destruct (skip_ws s) as [|c r0] eqn:Ews; [done|].
    apply skip_ws_cons in Ews.
    destruct (Ascii.eqb c dquote); [|done].
    destruct (parse_string r0) as [[k r1]|] eqn:Ek; [|done].
    apply (parse_string_length _ _ _ _ (le_n _)) in Ek.
    destruct (skip_ws r1) as [|colon r2] eqn:E1; [done|].
    apply skip_ws_cons in E1.
    destruct (Ascii.eqb colon ":"); [|done].
    destruct (parse_value f r2) as [[v0 r3]|] eqn:Ev; [|done].
    apply IHv in Ev.
    destruct (skip_ws r3) as [|d rest] eqn:E3; [done|].
    apply skip_ws_cons in E3.
    destruct (Ascii.eqb d ","); [intros H%IHm; lia|].
    destruct (Ascii.eqb d "}"); [intros [= <- <-]; lia|done].
Qed.

(** With enough fuel one more unit changes nothing. *)
Lemma fuel_step f :
  (∀ s, 2 * String.length s + 1 ≤ f → parse_value (S f) s = parse_value f s) ∧
  (∀ s acc, 2 * String.length s + 2 ≤ f →
            parse_elements (S f) s acc = parse_elements f s acc) ∧
  (∀ s acc, 2 * String.length s + 2 ≤ f →
            parse_members (S f) s acc = parse_members f s acc).
Proof.
  induction f as [|f (IHv & IHe & IHm)]; [repeat split; intros; lia|].
  destruct (parse_consumes f) as (Cv & _ & _).
  repeat split.
  - intros s Hf. rewrite (parse_value_S (S f)), (parse_value_S f).
    destruct (skip_ws s) as [|c r0] eqn:Ews; [done|].
    apply skip_ws_cons in Ews.
    rewrite !IHe, !IHm by lia. done.
  - intros s acc Hf. rewrite (parse_elements_S (S f)), (parse_elements_S f).
    rewrite IHv by lia.
    destruct (parse_value f s) as [[v0 r0]|] eqn:Ev; [|done].
    apply Cv in Ev.
    destruct (skip_ws r0) as [|c rest] eqn:E1; [done|].
    apply skip_ws_cons in E1.
    rewrite IHe by lia. done.
  - intros s acc Hf. rewrite (parse_members_S (S f)), (parse_members_S f).
    destruct (skip_ws s) as [|c r0] eqn:Ews; [done|].
    apply skip_ws_cons in Ews.
    destruct (Ascii.eqb c dquote); [|done].
    destruct (parse_string r0) as [[k r1]|] eqn:Ek; [|done].
    apply (parse_string_length _ _ _ _ (le_n _)) in Ek.
    destruct (skip_ws r1) as [|colon r2] eqn:E1; [done|].
    apply skip_ws_cons in E1.
    destruct (Ascii.eqb colon ":"); [|done].
    rewrite IHv by lia.
    destruct (parse_value f r2) as [[v0 r3]|] eqn:Ev; [|done].
    apply Cv in Ev.
    destruct (skip_ws r3) as [|d rest] eqn:E3; [done|].
    apply skip_ws_cons in E3.
    rewrite IHm by lia. done.
Qed.

(** The fuel [parse] hands to [parse_value] is enough: with any larger
    amount the result is the same, so [None] is a syntax error and never an
    exhausted budget. *)
Lemma parse_fuel_enough text f :
  2 * String.length text + 2 ≤ f →
  parse_value f text = parse_value (2 * String.length text + 2) text.
Proof.
  intros Hf. induction Hf as [|f Hf IH]; [done|].
  rewrite <- IH. apply fuel_step. lia.
Qed.
End JSONFuel.


(** ** Session identifiers *)

Module SessionFacts.
Import ExpressSession.

Lemma grows_refl st : grows st st.
Proof. split; [lia | auto]. Qed.

Lemma grows_trans st0 st1 st2 : grows st0 st1 → grows st1 st2 → grows st0 st2.
Proof.
  intros [Hle1 Hk1] [Hle2 Hk2]. split; [lia|].
  intros sid Hs. destruct (Hk2 sid Hs) as [Hin | [? ?]].
  - destruct (Hk1 sid Hin) as [? | [? ?]]; [by left | right; lia].
  - right. lia.
Qed.

Lemma grows_wf st0 st : wf st0 → grows st0 st → wf st.
Proof.
  intros Hwf [Hle Hk] sid Hs.
  destruct (Hk sid Hs) as [Hin | [? ?]]; [|lia].
  specialize (Hwf sid Hin). lia.
Qed.

Lemma generate_spec st st' c :
  generate st = (st', c) →
  users st' = users st ∧ next_user_id st' = next_user_id st ∧
  games st' = games st ∧ next_game_id st' = next_game_id st ∧
  sessions st' = sessions st ∧ next_sid st' = S (next_sid st) ∧
  sessionID c = next_sid st ∧ session c = Some empty_session.
Proof. unfold generate. intros [= <- <-]. simpl. done. Qed.

Lemma store_destroy_spec e st sid st' err :
  store_destroy e st sid = (st', err) →
  users st' = users st ∧ next_user_id st' = next_user_id st ∧
  games st' = games st ∧ next_game_id st' = next_game_id st ∧
  next_sid st' = next_sid st ∧ err = fail_destroy e ∧
  sessions st' = if err then sessions st else delete sid (sessions st).
Proof.
  unfold store_destroy. destruct (fail_destroy e); intros [= <- <-]; simpl; done.
Qed.

Lemma load_spec st ck st0 c0 :
  load st ck = (st0, c0) →
  users st0 = users st ∧ next_user_id st0 = next_user_id st ∧
  games st0 = games st ∧ next_game_id st0 = next_game_id st ∧
  sessions st0 = sessions st ∧
  ∃ s0, session c0 = Some s0 ∧
    ((ck = Some (sessionID c0) ∧ sessions st !! sessionID c0 = Some s0 ∧
      next_sid st0 = next_sid st) ∨
     (sessionID c0 = next_sid st ∧ s0 = empty_session ∧
      next_sid st0 = S (next_sid st) ∧
      ∀ sid, ck = Some sid → sessions st !! sid = None)).
Proof.
  unfold load. intros H.
  destruct ck as [sid|]; [destruct (sessions st !! sid) as [s|] eqn:E|].
  - injection H as <- <-. simpl. repeat split; try done.
    exists s. split; [done|]. left. done.
  - apply generate_spec in H as (?&?&?&?&?&?&?&?).
    repeat split; try done. exists empty_session. split; [done|]. right.
    repeat split; try done. by intros ? [= <-].
  - apply generate_spec in H as (?&?&?&?&?&?&?&?).
    repeat split; try done. exists empty_session. split; [done|]. right.
    repeat split; try done.
Qed.

Lemma load_grows st ck st0 c0 :
  load st ck = (st0, c0) → grows st st0 ∧ ctx_ok st st0 c0.
Proof.
  intros H. apply load_spec in H as (_&_&_&_&Hs&s0&_&[(?&Hin&Hn)|(Hid&_&Hn&_)]).
  - split; [split; [lia | rewrite Hs; auto] | left; by rewrite Hin].
  - split; [split; [lia | rewrite Hs; auto] | right; lia].
Qed.

Lemma regenerate_spec e st c st' c' err :
  regenerate e st c = (st', c', err) →
  users st' = users st ∧ next_user_id st' = next_user_id st ∧
  games st' = games st ∧ next_game_id st' = next_game_id st ∧
  next_sid st' = S (next_sid st) ∧ err = fail_destroy e ∧
  sessions st' = (if err then sessions st else delete (sessionID c) (sessions st)) ∧
  sessionID c' = next_sid st ∧ session c' = Some empty_session.
Proof.
  unfold regenerate.
  destruct (store_destroy e st (sessionID c)) as [st1 err1] eqn:E1.
  destruct (generate st1) as [st2 c2] eqn:E2.
  intros [= <- <- <-].
  apply store_destroy_spec in E1 as (?&?&?&?&?&?&?).
  apply generate_spec in E2 as (?&?&?&?&?&?&?&?).
  repeat split; congruence.
Qed.

Lemma destroy_spec e st c st' c' err :
  destroy e st c = (st', c', err) →
  users st' = users st ∧ next_user_id st' = next_user_id st ∧
  games st' = games st ∧ next_game_id st' = next_game_id st ∧
  next_sid st' = next_sid st ∧ err = fail_destroy e ∧
  sessions st' = (if err then sessions st else delete (sessionID c) (sessions st)) ∧
  sessionID c' = sessionID c ∧ session c' = None.
Proof.
  unfold destroy.
  destruct (store_destroy e st (sessionID c)) as [st1 err1] eqn:E1.
  intros [= <- <- <-].
  apply store_destroy_spec in E1 as (?&?&?&?&?&?&?).
  repeat split; congruence.
Qed.

(** Deleting from the store keeps [grows]. *)
Lemma grows_shrink st0 st st' :
  grows st0 st → next_sid st ≤ next_sid st' →
  (∀ sid, is_Some (sessions st' !! sid) → is_Some (sessions st !! sid)) →
  grows st0 st'.
Proof.
  intros [Hle Hk] Hn Hsub. split; [lia|].
  intros sid Hs. destruct (Hk sid (Hsub sid Hs)) as [? | [? ?]]; [by left | right; lia].
Qed.

Lemma regenerate_grows e st0 st c st' c' err :
  regenerate e st c = (st', c', err) → grows st0 st →
  grows st0 st' ∧ ctx_ok st0 st' c'.
Proof.
  intros H Hg. apply regenerate_spec in H as (_&_&_&_&Hn&_&Hs&Hid&_).
  split.
  - eapply grows_shrink; [done | lia |]. intros sid. rewrite Hs.
    destruct err; [done|]. intros [x Hx]. apply lookup_delete_Some in Hx as [_ Hx]. eauto.
  - right. destruct Hg as [Hle _]. lia.
Qed.

Lemma destroy_grows e st0 st c st' c' err :
  destroy e st c = (st', c', err) → grows st0 st → ctx_ok st0 st c →
  grows st0 st' ∧ ctx_ok st0 st' c'.
Proof.
  intros H Hg Hc. apply destroy_spec in H as (_&_&_&_&Hn&_&Hs&Hid&_).
  split.
  - eapply grows_shrink; [done | lia |]. intros sid. rewrite Hs.
    destruct err; [done|]. intros [x Hx]. apply lookup_delete_Some in Hx as [_ Hx]. eauto.
  - unfold ctx_ok in *. rewrite Hid, Hn. done.
Qed.

Lemma finish_grows e st0 st c0 c r st' resp :
  finish e st c0 c r = (st', resp) → grows st0 st → ctx_ok st0 st c →
  grows st0 st'.
Proof.
  unfold finish. intros H Hg Hc.
  destruct (session c) as [s|].
  - destruct (isModified c0 c); injection H as <- <-; [|done].
    destruct Hg as [Hle Hk]. split; [done|]. simpl. intros sid [x Hx].
    destruct (decide (sid = sessionID c)) as [->|Hne].
    + destruct Hc as [?|[? ?]]; [by left | right; lia].
    + rewrite lookup_insert_ne in Hx by done. eauto.
  - injection H as <- <-.
    destruct (store_destroy e st (sessionID c)) as [st1 err] eqn:E. simpl.
    apply store_destroy_spec in E as (_&_&_&_&Hn&_&Hs).
    eapply grows_shrink; [done | lia |]. intros sid. rewrite Hs.
    destruct err; [done|]. intros [x Hx]. apply lookup_delete_Some in Hx as [_ Hx]. eauto.
Qed.

End SessionFacts.

(** ** What the wrappers and handlers leave alone *)

Module HandlerFacts.
Import ExpressSession Handlers SessionFacts.
Section with_lib.
Context (L : Lib).

Lemma insertUser_spec e st name h st' id :
  Db.insertUser L e st name h = Some (st', id) →
  ∃ n, Db.text_param L name = Some n ∧
    existsb (λ u, String.eqb (u_username u) n) (users st) = false ∧
    users st' = users st ++ [{| u_id := id; u_username := n; u_password_hash := h |}] ∧
    id = next_user_id st ∧ next_user_id st' = S (next_user_id st) ∧
    games st' = games st ∧ next_game_id st' = next_game_id st ∧
    same_sessions st st'.
Proof.
  unfold Db.insertUser. intros H.
  destruct (fail_insert_user e); [done|].
  destruct (Db.text_param L name) as [n|]; [|done].
  destruct (existsb _ _) eqn:E; [done|].
  injection H as <- <-. exists n. simpl. unfold same_sessions. simpl. done.
Qed.

Lemma transaction_frame p e f st gs st' ok :
  transaction p e f st gs = (st', ok) →
  users st' = users st ∧ next_user_id st' = next_user_id st ∧ same_sessions st st'.
Proof.
  unfold transaction. destruct (run_transaction _ _ _ _ _) as [c ok'].
  intros [= <- <-]. unfold same_sessions. simpl. done.
Qed.

Lemma same_sessions_grows st0 st st' c :
  same_sessions st st' → grows st0 st → ctx_ok st0 st c →
  grows st0 st' ∧ ctx_ok st0 st' c.
Proof.
  intros [Hs Hn] [Hle Hk] Hc. unfold grows, ctx_ok in *. rewrite Hs, Hn. done.
Qed.

Lemma ctx_ok_bind st0 st c id name : ctx_ok st0 st c → ctx_ok st0 st (bind c id name).
Proof. done. Qed.

Lemma create_user_grows e st0 st c u p st' c' r :
  create_user L e st c u p = (st', c', r) → grows st0 st → ctx_ok st0 st c →
  grows st0 st' ∧ ctx_ok st0 st' c'.
Proof.
  unfold create_user. intros H Hg Hc.
  destruct (Db.findUserByName L e st u) as [[user|]|]; try (by simplify_eq).
  destruct (hash_password L e p) as [h|]; try (by simplify_eq).
  destruct (Db.insertUser L e st u h) as [[st1 id]|] eqn:Eins; try (by simplify_eq).
  destruct (regenerate e st1 c) as [[st2 c2] err] eqn:Ereg.
  apply insertUser_spec in Eins as (n&_&_&_&_&_&_&_&Hsame).
  destruct (same_sessions_grows st0 st st1 c Hsame Hg Hc) as [Hg1 Hc1].
  destruct (regenerate_grows _ _ _ _ _ _ _ Ereg Hg1) as [? ?].
  destruct err; by simplify_eq.
Qed.

Lemma login_grows e st0 st c b st' c' r :
  login L e st c b = (st', c', r) → grows st0 st → ctx_ok st0 st c →
  grows st0 st' ∧ ctx_ok st0 st' c'.
Proof.
  unfold login. intros H Hg Hc.
  destruct (credentials b) as [[u p]|]; try (by simplify_eq).
  destruct (negb (Js.truthy u) || negb (Js.truthy p)); try (by simplify_eq).
  destruct (Db.findUserByName L e st u) as [[user|]|]; try (by simplify_eq).
  destruct (compare L p (u_password_hash user)) as [[|]|]; try (by simplify_eq).
  destruct (regenerate e st c) as [[st2 c2] err] eqn:Ereg.
  destruct (regenerate_grows _ _ _ _ _ _ _ Ereg Hg) as [? ?].
  destruct err; by simplify_eq.
Qed.

Lemma import_grows f e st0 st c b st' c' r :
  (∀ e st uid gs st' ok, f e st uid gs = (st', ok) → same_sessions st st') →
  import f e st c b = (st', c', r) → grows st0 st → ctx_ok st0 st c →
  grows st0 st' ∧ ctx_ok st0 st' c'.
Proof.
  unfold import, requireAuth. intros Hf H Hg Hc.
  repeat case_match; simplify_eq; try done.
  all: eapply same_sessions_grows; eauto.
Qed.

Lemma insertGamesBulk_same srv e st uid gs st' ok :
  insertGamesBulk L srv e st uid gs = (st', ok) → same_sessions st st'.
Proof.
  destruct srv; simpl; unfold PgOnly.insertGamesBulk, Dual.insertGamesBulk;
    intros H; by apply transaction_frame in H as (_&_&?).
Qed.

Lemma handle_grows srv route e st0 st c b st' c' r :
  handle L srv route e st c b = (st', c', r) → grows st0 st → ctx_ok st0 st c →
  grows st0 st' ∧ ctx_ok st0 st' c'.
Proof.
  intros H Hg Hc.
  destruct srv as [|p]; destruct route; simpl in H.
  all: try (injection H as <- <- <-; done).
  all: try (unfold me in H; repeat case_match; simplify_eq; done).
  all: try (eapply login_grows; done).
  all: try (unfold list_games, requireAuth in H; repeat case_match; simplify_eq; done).
  - unfold PgOnly.register in H. repeat case_match; simplify_eq; try done.
    eapply create_user_grows; done.
  - unfold logout in H. destruct (destroy e st c) as [[st1 c1] err] eqn:E.
    destruct (destroy_grows _ _ _ _ _ _ _ E Hg Hc).
    destruct err; by simplify_eq.
  - eapply import_grows; [|done..].
    intros ??????. apply (insertGamesBulk_same ServerPg).
  - unfold Dual.register in H. repeat case_match; simplify_eq; try done.
    eapply create_user_grows; done.
  - unfold logout in H. destruct (destroy e st c) as [[st1 c1] err] eqn:E.
    destruct (destroy_grows _ _ _ _ _ _ _ E Hg Hc).
    destruct err; by simplify_eq.
  - eapply import_grows; [|done..].
    intros ??????. apply (insertGamesBulk_same (ServerDual p)).
Qed.

(** Over a whole request the store only gains generated identifiers. *)
Lemma serve_grows srv route e st req st' resp :
  serve L srv route e st req = (st', resp) → grows st st'.
Proof.
  unfold serve. intros H.
  destruct (load st (cookie req)) as [st0 c0] eqn:E0.
  destruct (handle L srv route e st0 c0 (body req)) as [[st1 c1] rep] eqn:E1.
  destruct (load_grows _ _ _ _ E0) as [Hg0 Hc0].
  destruct (handle_grows _ _ _ _ _ _ _ _ _ _ E1 Hg0 Hc0) as [Hg1 Hc1].
  eapply finish_grows; done.
Qed.

Lemma run_grows srv trace st : grows st (run L srv trace st).
Proof.
  revert st. induction trace as [|[[r e] req] trace IH]; intros st.
  - apply grows_refl.
  - simpl. eapply grows_trans; [|apply IH].
    destruct (serve L srv r e st req) as [st1 resp] eqn:E. simpl.
    by eapply serve_grows.
Qed.

End with_lib.
End HandlerFacts.

(** ** Inversion of the handlers *)

Module Inversion.
Import ExpressSession Handlers SessionFacts HandlerFacts.
Section with_lib.
Context (L : Lib).

Lemma create_user_inv e st c u p st' c' r :
  create_user L e st c u p = (st', c', r) →
  (st' = st ∧ c' = c ∧
   ((r = internal ∧
     (Db.findUserByName L e st u = None ∨ hash_password L e p = None ∨
      ∃ h, hash_password L e p = Some h ∧ Db.insertUser L e st u h = None)) ∨
    (r = reply 409 (body_error "username_taken") ∧
     ∃ user, Db.findUserByName L e st u = Some (Some user)))) ∨
  (∃ st1 id h c2 err,
     Db.findUserByName L e st u = Some None ∧
     hash_password L e p = Some h ∧
     Db.insertUser L e st u h = Some (st1, id) ∧
     regenerate e st1 c = (st', c2, err) ∧
     ((err = true ∧ c' = c2 ∧ r = session_error) ∨
      (err = false ∧ c' = bind c2 id u ∧ r = reply 201 (body_username u)))).
Proof.
  unfold create_user. intros H.
  destruct (Db.findUserByName L e st u) as [[user|]|] eqn:Ef.
  - simplify_eq. left. repeat split; try done. right. eauto.
  - destruct (hash_password L e p) as [h|] eqn:Eh.
    + destruct (Db.insertUser L e st u h) as [[st1 id]|] eqn:Ei.
      * destruct (regenerate e st1 c) as [[st2 c2] err] eqn:Er.
        right. exists st1, id, h, c2, err.
        destruct err; simplify_eq; repeat split; auto.
      * simplify_eq. left. repeat split; try done. left. split; [done|].
        right. right. eauto.
    + simplify_eq. left. repeat split; try done. left. auto.
  - simplify_eq. left. repeat split; try done. left. auto.
Qed.

Lemma login_inv e st c b st' c' r :
  login L e st c b = (st', c', r) →
  (st' = st ∧ c' = c ∧ r_status r ≠ 200) ∨
  (∃ u p user c2 err,
     credentials b = Some (u, p) ∧
     Db.findUserByName L e st u = Some (Some user) ∧
     compare L p (u_password_hash user) = Some true ∧
     regenerate e st c = (st', c2, err) ∧
     ((err = true ∧ c' = c2 ∧ r = session_error) ∨
      (err = false ∧ c' = bind c2 (u_id user) (JStr (u_username user)) ∧
       r = reply 200 (body_username (JStr (u_username user)))))).
Proof.
  unfold login. intros H.
  destruct (credentials b) as [[u p]|]; [|simplify_eq; left; by repeat split].
  destruct (negb (Js.truthy u) || negb (Js.truthy p));
    [simplify_eq; left; by repeat split|].
  destruct (Db.findUserByName L e st u) as [[user|]|] eqn:Ef;
    [|simplify_eq; left; by repeat split..].
  destruct (compare L p (u_password_hash user)) as [[|]|] eqn:Ec;
    [|simplify_eq; left; by repeat split..].
  destruct (regenerate e st c) as [[st2 c2] err] eqn:Er.
  right. exists u, p, user, c2, err.
  destruct err; simplify_eq; repeat split; auto.
Qed.

(** Both [register] handlers reach [create_user] or answer 400 (or 500 for
    a body that cannot be destructured). *)
Lemma register_inv srv e st c b st' c' r :
  handle L srv POST_register e st c b = (st', c', r) →
  (st' = st ∧ c' = c ∧ (r = required ∨ r = internal)) ∨
  (∃ u p, credentials b = Some (u, p) ∧ Js.truthy u = true ∧ Js.truthy p = true ∧
          create_user L e st c u p = (st', c', r)).
Proof.
  destruct srv as [|usePostgres]; simpl;
    unfold PgOnly.register, Dual.register; intros H.
  - destruct (credentials b) as [[u p]|]; [|simplify_eq; left; auto].
    destruct (Js.truthy u) eqn:Eu; [|simpl in H; simplify_eq; left; auto].
    destruct (Js.truthy p) eqn:Ep; [|simpl in H; simplify_eq; left; auto].
    destruct (Js.is_string u); [|simpl in H; simplify_eq; left; auto].
    destruct (Js.is_string p); [|simpl in H; simplify_eq; left; auto].
    simpl in H. right. exists u, p. done.
  - destruct (credentials b) as [[u p]|]; [|simplify_eq; left; auto].
    destruct (Js.truthy u) eqn:Eu; [|simpl in H; simplify_eq; left; auto].
    destruct (Js.truthy p) eqn:Ep; [|simpl in H; simplify_eq; left; auto].
    simpl in H. right. exists u, p. done.
Qed.

Lemma handle_login srv : handle L srv POST_login = login L.
Proof. by destruct srv. Qed.

Lemma handle_logout srv e st c b : handle L srv POST_logout e st c b = logout e st c.
Proof. by destruct srv. Qed.

Lemma handle_me srv e st c b : handle L srv GET_me e st c b = me st c.
Proof. by destruct srv. Qed.

Lemma handle_games srv e st c b : handle L srv GET_games e st c b = list_games e st c.
Proof. by destruct srv. Qed.

Lemma handle_import srv :
  handle L srv POST_import = import (insertGamesBulk L srv).
Proof. by destruct srv. Qed.

(** The end of a response whose session the handler regenerated and
    bound. *)
Lemma finish_saved e st c0 c s r :
  session c = Some s → sessionID c ≠ sessionID c0 →
  finish e st c0 c r =
    (store_set st (sessionID c) s,
     {| status := r_status r; resp_body := r_body r;
        set_cookie := Some (sessionID c); clear_cookie := r_clear_cookie r |}).
Proof.
  intros Hs Hne. unfold finish, isModified. rewrite Hs.
  destruct (Nat.eqb_spec (sessionID c) (sessionID c0)); [done|]. reflexivity.
Qed.

(** The end of a response whose handler left the session alone. *)
Lemma finish_untouched e st c0 r s0 :
  session c0 = Some s0 →
  finish e st c0 c0 r =
    (st, {| status := r_status r; resp_body := r_body r;
            set_cookie := None; clear_cookie := r_clear_cookie r |}).
Proof.
  intros Hs. unfold finish, isModified, hash_eqb. rewrite Hs.
  rewrite Nat.eqb_refl. rewrite bool_decide_eq_true_2 by done. reflexivity.
Qed.

End with_lib.
End Inversion.

(** ** Registering and logging in regenerate the session *)

Module Regeneration.
Import ExpressSession Handlers SessionFacts HandlerFacts Inversion.
Section with_lib.
Context (L : Lib).

Lemma finish_reply e st c0 c r st' resp :
  finish e st c0 c r = (st', resp) →
  status resp = r_status r ∧ resp_body resp = r_body r ∧
  clear_cookie resp = r_clear_cookie r.
Proof.
  unfold finish. intros H.
  destruct (session c); [destruct (isModified c0 c)|]; by simplify_eq.
Qed.

Lemma finish_users e st c0 c r st' resp :
  finish e st c0 c r = (st', resp) → users st' = users st.
Proof.
  unfold finish, store_destroy. intros H.
  destruct (session c); [destruct (isModified c0 c)|destruct (fail_destroy e)];
    by simplify_eq.
Qed.

(** A handler that regenerated and bound: what the request leaves. *)
Lemma bound_after_regenerate e st st0 c0 stA stB c2 id name r ck st' resp :
  wf st →
  load st ck = (st0, c0) →
  same_sessions st0 stA →
  regenerate e stA c0 = (stB, c2, false) →
  finish e stB c0 (bind c2 id name) r = (st', resp) →
  set_cookie resp = Some (sessionID c2) ∧
  sessions st' !! sessionID c2 = Some {| userId := Some id; username := name |} ∧
  sessions st !! sessionID c2 = None ∧
  (∀ old, old < next_sid st → sessionID c2 ≠ old) ∧
  (∀ other, other ≠ sessionID c2 →
     sessions st' !! other = sessions st !! other ∨ sessions st' !! other = None).
Proof.
  intros Hwf Hload [Hs Hn] Hreg Hfin.
  apply load_spec in Hload as (_&_&_&_&Hs0&s&Hc0&Hcase).
  apply regenerate_spec in Hreg as (_&_&_&_&HnB&_&HsB&Hid&_).
  assert (Hge : next_sid st ≤ sessionID c2).
  { rewrite Hid, Hn. destruct Hcase as [(_&_&->)|(_&_&->&_)]; lia. }
  assert (Hne : sessionID (bind c2 id name) ≠ sessionID c0).
  { simpl. destruct Hcase as [(_&Hin&Hn0)|(Hc&_&Hn0&_)].
    - assert (sessionID c0 < next_sid st) by (apply Hwf; by rewrite Hin). lia.
    - rewrite Hid, Hn, Hn0, Hc. lia. }
  rewrite (finish_saved e stB c0 (bind c2 id name) _ r eq_refl Hne) in Hfin.
  injection Hfin as <- <-. simpl.
  assert (Hfresh : sessions st !! sessionID c2 = None).
  { destruct (sessions st !! sessionID c2) eqn:E; [|done].
    assert (sessionID c2 < next_sid st) by (apply Hwf; by rewrite E). lia. }
  repeat split.
  - apply lookup_insert_eq.
  - done.
  - intros old Hold. lia.
  - intros other Hother. rewrite lookup_insert_ne by done.
    rewrite HsB, Hs, Hs0.
    destruct (decide (other = sessionID c0)) as [->|Hd].
    + right. apply lookup_delete_eq.
    + left. by apply lookup_delete_ne.
Qed.

(** The identifier that [regenerate] draws is none of those generated
    before the request, and not the one of the session of the request. *)
Lemma regenerated_is_new e st st0 c0 stA stB c2 ck :
  wf st →
  load st ck = (st0, c0) →
  same_sessions st0 stA →
  regenerate e stA c0 = (stB, c2, false) →
  next_sid st ≤ sessionID c2 ∧ sessionID c2 ≠ sessionID c0.
Proof.
  intros Hwf Hload [Hs Hn] Hreg.
  apply load_spec in Hload as (_&_&_&_&Hs0&s&Hc0&Hcase).
  apply regenerate_spec in Hreg as (_&_&_&_&HnB&_&HsB&Hid&_).
  rewrite Hid, Hn. destruct Hcase as [(_&Hin&Hn0)|(Hc&_&Hn0&_)].
  - assert (sessionID c0 < next_sid st) by (apply Hwf; by rewrite Hin). lia.
  - lia.
Qed.

(** Every state the server reaches from the empty database holds generated
    identifiers only. *)
Lemma wf_reached srv trace : wf (run L srv trace initial_state).
Proof.
  apply (grows_wf initial_state); [|apply run_grows].
  intros sid [s Hs]. simpl in Hs. by rewrite lookup_empty in Hs.
Qed.

(** The identifier of a cookie the server sends was generated. *)
Lemma sent_cookie_generated srv route e st req st' resp sid :
  wf st → serve L srv route e st req = (st', resp) →
  set_cookie resp = Some sid → sid < next_sid st'.
Proof.
  intros Hwf H Hck. unfold serve in H.
  destruct (load st (cookie req)) as [st0 c0] eqn:E0.
  destruct (handle L srv route e st0 c0 (body req)) as [[st1 c1] rep] eqn:E1.
  destruct (load_grows _ _ _ _ E0) as [Hg0 Hc0].
  destruct (handle_grows L _ _ _ _ _ _ _ _ _ _ E1 Hg0 Hc0) as [[Hle _] Hc1].
  unfold finish in H.
  destruct (session c1); [destruct (isModified c0 c1)|];
    injection H as <- <-; simpl in *; try done.
  injection Hck as <-. destruct Hc1 as [Hin|[? ?]]; [|done].
  apply Hwf in Hin. lia.
Qed.

Lemma cookies_sent_generated srv trace : ∀ st sid,
  wf st → sid ∈ cookies_sent L srv trace st → sid < next_sid (run L srv trace st).
Proof.
  induction trace as [|[[r e] req] trace IH]; intros st sid Hwf Hin; simpl in Hin.
  - by apply elem_of_nil in Hin.
  - simpl. destruct (serve L srv r e st req) as [st1 resp] eqn:E. simpl.
    assert (Hwf1 : wf st1).
    { eapply grows_wf; [done | by eapply serve_grows]. }
    apply elem_of_app in Hin as [Hin|Hin]; [|by apply IH].
    destruct (set_cookie resp) as [c|] eqn:Ec; simpl in Hin;
      [|by apply elem_of_nil in Hin].
    apply list_elem_of_singleton in Hin as ->.
    pose proof (sent_cookie_generated _ _ _ _ _ _ _ _ Hwf E Ec).
    destruct (run_grows L srv trace st1) as [Hle _]. lia.
Qed.

(** An identifier in the store at some point of a sequence of requests is
    below the generator at its end. *)
Lemma earlier_store_generated srv trace k sid :
  is_Some (sessions (run L srv (take k trace) initial_state) !! sid) →
  sid < next_sid (run L srv trace initial_state).
Proof.
  intros Hin. apply (wf_reached srv (take k trace)) in Hin.
  rewrite <- (take_drop k trace) at 1. unfold run at 1. rewrite fold_left_app.
  destruct (run_grows L srv (drop k trace) (run L srv (take k trace) initial_state))
    as [Hle _].
  unfold run in *. lia.
Qed.

(** C1. Every successful register (201) and every successful login (200),
    in whatever state the server has reached, binds the identity to an
    identifier that [regenerate] drew in that request.  The handler
    regenerates the session [c0] of the request (register: right after the
    insert of the user; login: in the state it was handed), and the state
    the request leaves is the one [regenerate] left with the identity
    saved under the new identifier, which is sent as the cookie.  The new
    identifier is not the one of the session of the request, is none of
    those the server has ever sent in a cookie, which are the identifiers a
    client can hold, and was in the store at no earlier time; no other
    identifier gains a session. *)
Theorem identity_bound_to_regenerated_identifier
    srv trace st route e req st0 c0 st' resp :
  run L srv trace initial_state = st →
  load st (cookie req) = (st0, c0) →
  (route = POST_register ∧ status resp = 201) ∨
  (route = POST_login ∧ status resp = 200) →
  serve L srv route e st req = (st', resp) →
  ∃ sid s id stA stB cB,
    ((route = POST_login ∧ stA = st0) ∨
     (route = POST_register ∧
      ∃ h, Db.insertUser L e st0 (username s) h = Some (stA, id))) ∧
    regenerate e stA c0 = (stB, cB, false) ∧ sessionID cB = sid ∧
    st' = store_set stB sid s ∧ userId s = Some id ∧
    set_cookie resp = Some sid ∧
    resp_body resp = body_username (username s) ∧
    sid ≠ sessionID c0 ∧
    (sid ∉ cookies_sent L srv trace initial_state) ∧
    (∀ k, sessions (run L srv (take k trace) initial_state) !! sid = None) ∧
    (∀ other, other ≠ sid →
       sessions st' !! other = sessions st !! other ∨ sessions st' !! other = None).
Proof.
  intros Hst E0 Hroute H.
  assert (Hwf : wf st) by (rewrite <- Hst; apply wf_reached).
  assert (Hfresh : ∀ sid, next_sid st ≤ sid →
    (sid ∉ cookies_sent L srv trace initial_state) ∧
    ∀ k, sessions (run L srv (take k trace) initial_state) !! sid = None).
  { intros sid Hge. split.
    - intros Hin. apply cookies_sent_generated in Hin.
      + rewrite Hst in Hin. lia.
      + intros x [? Hx]. simpl in Hx. by rewrite lookup_empty in Hx.
    - intros k.
      destruct (sessions (run L srv (take k trace) initial_state) !! sid) eqn:E;
        [|done].
      assert (sid < next_sid (run L srv trace initial_state)).
      { apply (earlier_store_generated srv trace k). by rewrite E. }
      rewrite Hst in *. lia. }
  unfold serve in H. rewrite E0 in H.
  destruct (handle L srv route e st0 c0 (body req)) as [[st1 c1] rep] eqn:E1.
  pose proof (finish_reply _ _ _ _ _ _ _ H) as (Hstat&Hbody&_).
  destruct Hroute as [[-> H201]|[-> H200]].
  - apply register_inv in E1 as [(_&_&[->| ->])|(u&p&_&_&_&Hcu)];
      [rewrite Hstat in H201; done..|].
    apply create_user_inv in Hcu
      as [(_&_&[[-> _]|[-> _]])|(stA&id&h&c2&err&_&_&Hins&Hreg&Hcase)];
      [rewrite Hstat in H201; done..|].
    destruct Hcase as [(_&_&->)|(->&->&->)]; [rewrite Hstat in H201; done|].
    pose proof Hins as Hins'.
    apply insertUser_spec in Hins' as (_&_&_&_&_&_&_&_&Hsame).
    destruct (regenerated_is_new _ _ _ _ _ _ _ _ Hwf E0 Hsame Hreg) as [Hge Hne].
    destruct (bound_after_regenerate _ _ _ _ _ _ _ _ _ _ _ _ _ Hwf E0 Hsame Hreg H)
      as (Hck&_&_&_&Hother).
    rewrite (finish_saved e st1 c0 (bind c2 id u) _ _ eq_refl Hne) in H.
    injection H as <- <-.
    destruct (Hfresh _ Hge) as [Hsent Hearlier].
    exists (sessionID c2), {| userId := Some id; username := u |}, id, stA, st1, c2.
    split; [right; split; [done|]; by exists h|].
    repeat split; try done.
  - rewrite handle_login in E1. apply login_inv in E1
      as [(_&_&Hne)|(u&p&user&c2&err&_&_&_&Hreg&Hcase)];
      [rewrite Hstat in H200; done|].
    destruct Hcase as [(_&_&->)|(->&->&->)]; [rewrite Hstat in H200; done|].
    destruct (regenerated_is_new _ _ _ _ _ _ _ _ Hwf E0 (conj eq_refl eq_refl) Hreg)
      as [Hge Hne].
    destruct (bound_after_regenerate _ _ st0 _ st0 _ _ _ _ _ _ _ _ Hwf E0
                (conj eq_refl eq_refl) Hreg H)
      as (Hck&_&_&_&Hother).
    rewrite (finish_saved e st1 c0 (bind c2 (u_id user) (JStr (u_username user))) _ _
               eq_refl Hne) in H.
    injection H as <- <-.
    destruct (Hfresh _ Hge) as [Hsent Hearlier].
    exists (sessionID c2),
      {| userId := Some (u_id user); username := JStr (u_username user) |},
      (u_id user), st0, st1, c2.
    split; [left; done|].
    repeat split; try done.
Qed.

Lemma shrinks_same st st' : same_sessions st st' → shrinks st st'.
Proof. intros [Hs _] sid. left. by rewrite Hs. Qed.

Lemma regenerate_shrinks e st c st' c' err :
  regenerate e st c = (st', c', err) → shrinks st st' ∧ next_sid st ≤ sessionID c'.
Proof.
  intros H. apply regenerate_spec in H as (_&_&_&_&_&_&Hs&Hid&_).
  split; [|lia]. intros sid. rewrite Hs. destruct err; [by left|].
  destruct (decide (sid = sessionID c)) as [->|Hne].
  - right. apply lookup_delete_eq.
  - left. by apply lookup_delete_ne.
Qed.

Lemma handle_session srv route e st c b st' c' r :
  handle L srv route e st c b = (st', c', r) →
  shrinks st st' ∧ ctx_step st c c'.
Proof.
  intros H.
  assert (Hkeep : ∀ st1, same_sessions st st1 → shrinks st st1 ∧ ctx_step st c c).
  { intros st1 Hs. split; [by apply shrinks_same | by left]. }
  destruct route.
  - destruct srv; simpl in H; simplify_eq; by apply Hkeep.
  - rewrite handle_me in H. unfold me in H.
    repeat case_match; simplify_eq; by apply Hkeep.
  - apply register_inv in H as [(->&->&_)|(u&p&_&_&_&Hcu)]; [by apply Hkeep|].
    apply create_user_inv in Hcu
      as [(->&->&_)|(stA&id&h&c2&err&_&_&Hins&Hreg&Hcase)]; [by apply Hkeep|].
    apply insertUser_spec in Hins as (_&_&_&_&_&_&_&_&[HsA HnA]).
    apply regenerate_shrinks in Hreg as [Hsh Hid].
    split.
    + intros sid. specialize (Hsh sid). by rewrite HsA in Hsh.
    + right. right. rewrite HnA in Hid.
      destruct Hcase as [(_&->&_)|(_&->&_)]; exact Hid.
  - rewrite handle_login in H.
    apply login_inv in H as [(->&->&_)|(u&p&user&c2&err&_&_&_&Hreg&Hcase)];
      [by apply Hkeep|].
    apply regenerate_shrinks in Hreg as [Hsh Hid].
    split; [done|]. right. right.
    destruct Hcase as [(_&->&_)|(_&->&_)]; exact Hid.
  - rewrite handle_logout in H. unfold logout in H.
    destruct (destroy e st c) as [[st1 c1] err] eqn:E.
    apply destroy_spec in E as (_&_&_&_&_&_&Hs&Hid&Hnone).
    assert (shrinks st st1 ∧ ctx_step st c c1) as Hgoal.
    { split.
      - intros sid. rewrite Hs. destruct err; [by left|].
        destruct (decide (sid = sessionID c)) as [->|Hne].
        + right. apply lookup_delete_eq.
        + left. by apply lookup_delete_ne.
      - right. left. done. }
    destruct err; by simplify_eq.
  - rewrite handle_import in H. unfold import, requireAuth in H.
    destruct (session_user c) as [uid|]; [|simplify_eq; by apply Hkeep].
    destruct (negb (Js.truthy (Js.or b (JObj [])))); [simplify_eq; by apply Hkeep|].
    destruct (Js.get (Js.or b (JObj [])) "games") as [[| | | | |gs|]|];
      try (simplify_eq; by apply Hkeep).
    destruct (insertGamesBulk L srv e st uid gs) as [st1 ok] eqn:E.
    apply insertGamesBulk_same in E.
    destruct ok; simplify_eq; by apply Hkeep.
  - rewrite handle_games in H. unfold list_games, requireAuth in H.
    repeat case_match; simplify_eq; by apply Hkeep.
Qed.

(** X29. Whatever the request, an identifier generated before it does not gain a
    session and does not change the session it has: identity is not attached
    to an identifier that existed before. *)
Lemma old_identifiers_gain_nothing srv route e st req st' resp :
  wf st →
  serve L srv route e st req = (st', resp) →
  ∀ sid, sid < next_sid st →
    sessions st' !! sid = sessions st !! sid ∨ sessions st' !! sid = None.
Proof.
  intros Hwf H sid Hold. unfold serve in H.
  destruct (load st (cookie req)) as [st0 c0] eqn:E0.
  destruct (handle L srv route e st0 c0 (body req)) as [[st1 c1] rep] eqn:E1.
  apply load_spec in E0 as (_&_&_&_&Hs0&s0&Hc0&Hcase).
  assert (Hn0 : next_sid st ≤ next_sid st0).
  { destruct Hcase as [(_&_&->)|(_&_&->&_)]; lia. }
  apply handle_session in E1 as [Hsh Hctx].
  specialize (Hsh sid). rewrite Hs0 in Hsh.
  unfold finish in H.
  destruct (session c1) as [s1|] eqn:Es1.
  - destruct (isModified c0 c1) eqn:Em; injection H as <- <-; [|done].
    simpl. destruct (decide (sid = sessionID c1)) as [->|Hne];
      [|by rewrite lookup_insert_ne].
    destruct Hctx as [->|[[Hnone _]|Hfresh]].
    + unfold isModified, hash_eqb in Em. rewrite Hc0, Nat.eqb_refl in Em.
      simpl in Em. by rewrite bool_decide_eq_true_2 in Em.
    + congruence.
    + lia.
  - injection H as <- <-. unfold store_destroy.
    destruct (fail_destroy e); simpl; [done|].
    destruct (decide (sid = sessionID c1)) as [->|Hne].
    + right. apply lookup_delete_eq.
    + by rewrite lookup_delete_ne.
Qed.

End with_lib.
End Regeneration.

(** ** Logout *)

Module Logout.
Import ExpressSession Handlers SessionFacts HandlerFacts Inversion Regeneration.
Section with_lib.
Context (L : Lib).

(** [GET /api/me] with no cookie, or with one the store does not know. *)
Lemma me_unknown_cookie srv e st ck b :
  (∀ c, ck = Some c → sessions st !! c = None) →
  snd (serve L srv GET_me e st {| cookie := ck; body := b |}) =
    {| status := 401; resp_body := body_error "not_authenticated";
       set_cookie := None; clear_cookie := false |}.
Proof.
  intros Hck. unfold serve. simpl.
  assert (load st ck = generate st) as ->.
  { unfold load. destruct ck as [c|]; [|done]. by rewrite (Hck c eq_refl). }
  unfold generate. rewrite handle_me. unfold me, session_user. simpl.
  by erewrite finish_untouched.
Qed.

(** A logout that answers [{ok: true}] leaves no session under the cookie
    of the request. *)
Lemma logout_removes srv e st req st1 r1 :
  serve L srv POST_logout e st req = (st1, r1) →
  resp_body r1 = body_ok →
  ∀ c, cookie req = Some c → sessions st1 !! c = None.
Proof.
  unfold serve. intros H Hok c Hc.
  destruct (load st (cookie req)) as [st0 c0] eqn:E0.
  rewrite handle_logout in H. unfold logout in H.
  destruct (destroy e st0 c0) as [[stD cD] err] eqn:ED.
  apply destroy_spec in ED as (_&_&_&_&_&Herr&Hs&Hid&Hnone).
  apply load_spec in E0 as (_&_&_&_&Hs0&s0&_&Hcase).
  destruct err.
  { apply finish_reply in H as (_&Hb&_). simpl in Hb. congruence. }
  unfold finish in H. rewrite Hnone in H. injection H as <- <-.
  unfold store_destroy. rewrite <- Herr. simpl. rewrite Hid, Hs, Hs0.
  destruct Hcase as [(Hck&_&_)|(_&_&_&Hfresh)].
  - assert (c = sessionID c0) as -> by congruence. apply lookup_delete_eq.
  - rewrite !lookup_delete_None. right. right. by apply Hfresh.
Qed.

(** C8. After a logout that answered [{ok: true}], and whatever requests
    the server handles in between, [GET /api/me] with the cookie of the
    logout is answered 401 [not_authenticated].  The cookie, when there is
    one, carries an identifier the server generated. *)
Theorem me_after_logout_is_401 srv e st req st1 r1 trace e2 b2 :
  (∀ c, cookie req = Some c → c < next_sid st) →
  serve L srv POST_logout e st req = (st1, r1) →
  resp_body r1 = body_ok →
  let r2 := snd (serve L srv GET_me e2 (run L srv trace st1)
                   {| cookie := cookie req; body := b2 |}) in
  status r2 = 401 ∧ resp_body r2 = body_error "not_authenticated".
Proof.
  intros Hissued H Hok r2. subst r2.
  rewrite me_unknown_cookie; [done|].
  intros c Hc.
  pose proof (logout_removes _ _ _ _ _ _ H Hok c Hc) as Hgone.
  pose proof (serve_grows L _ _ _ _ _ _ _ H) as [Hle _].
  destruct (run_grows L srv trace st1) as [_ Hk].
  destruct (sessions (run L srv trace st1) !! c) eqn:E; [|done].
  destruct (Hk c) as [[x Hx]|[? ?]]; [by rewrite E | congruence |].
  specialize (Hissued c Hc). lia.
Qed.

End with_lib.
End Logout.

(** ** Failing registrations *)

Module RegisterFailure.
Import ExpressSession Handlers SessionFacts HandlerFacts Inversion Regeneration.

(** When [regenerate] hands an error to its callback the registration
    answers 500 [session_error]; by then the store has generated a new
    session, which the end of the response saves and sends. *)
Lemma session_error_regenerates :
  let '(st', resp) :=
    serve sample_lib ServerPg POST_register store_down initial_state
      (request None (credentials_body (JStr "alice") (JStr "secret123"))) in
  status resp = 500 ∧ resp_body resp = body_error "session_error" ∧
  set_cookie resp = Some 1 ∧
  sessions initial_state !! 1 = None ∧
  sessions st' !! 1 = Some empty_session.
Proof. vm_compute. done. Qed.

(** C10, as stated, fails on the [session_error] path. *)
Lemma register_failure_may_regenerate :
  ¬ register_failure_keeps_session sample_lib ServerPg.
Proof.
  intros H.
  destruct (H store_down initial_state
              (request None (credentials_body (JStr "alice") (JStr "secret123")))
              _ _ eq_refl) as [_ Hck].
  - vm_compute. lia.
  - vm_compute in Hck. discriminate.
Qed.

Section with_lib.
Context (L : Lib).

(** A request whose handler returned the state and session it was
    given. *)
Lemma untouched_outcome e st ck st0 c0 rep st' resp :
  load st ck = (st0, c0) →
  finish e st0 c0 c0 rep = (st', resp) →
  users st' = users st ∧ games st' = games st ∧
  sessions st' = sessions st ∧ set_cookie resp = None.
Proof.
  intros E0 H.
  apply load_spec in E0 as (Hu0&_&Hg0&_&Hs0&s0&Hc0&_).
  rewrite (finish_untouched e st0 c0 rep s0 Hc0) in H.
  by injection H as <- <-.
Qed.

(** C10, amended. When register fails with 400, 409 or 500 [internal] the
    handler returns the state and the session it was given: no user is
    created, nothing is regenerated, the store is unchanged and no cookie
    is sent.  When it fails with 500 [session_error] the user row has been
    inserted and the session of the request has been replaced by a newly
    generated, empty one.  On every failure no identity is bound: a session
    the store holds afterwards was there before or is empty. *)
Theorem register_failure_binds_nothing srv e st req st' resp :
  serve L srv POST_register e st req = (st', resp) →
  status resp ≠ 201 →
  (∀ sid s, sessions st' !! sid = Some s →
            sessions st !! sid = Some s ∨ s = empty_session) ∧
  (resp_body resp ≠ body_error "session_error" →
     (∃ st0 c0 rep, load st (cookie req) = (st0, c0) ∧
                    handle L srv POST_register e st0 c0 (body req) = (st0, c0, rep)) ∧
     users st' = users st ∧ sessions st' = sessions st ∧ set_cookie resp = None) ∧
  (resp_body resp = body_error "session_error" →
     (∃ st0 c0 st1 c1 rep,
        load st (cookie req) = (st0, c0) ∧
        handle L srv POST_register e st0 c0 (body req) = (st1, c1, rep) ∧
        sessionID c1 = next_sid st0 ∧ session c1 = Some empty_session) ∧
     ∃ u, users st' = users st ++ [u]).
Proof.
  intros H Hfail. unfold serve in H.
  destruct (load st (cookie req)) as [st0 c0] eqn:E0 in H.
  destruct (handle L srv POST_register e st0 c0 (body req)) as [[st1 c1] rep] eqn:E1.
  pose proof (finish_reply _ _ _ _ _ _ _ H) as (Hst&Hbody&_).
  assert (Hkeep : st1 = st0 → c1 = c0 → r_body rep ≠ body_error "session_error" →
    (∀ sid s, sessions st' !! sid = Some s →
              sessions st !! sid = Some s ∨ s = empty_session) ∧
    (resp_body resp ≠ body_error "session_error" →
     (∃ st0 c0 rep, load st (cookie req) = (st0, c0) ∧
                    handle L srv POST_register e st0 c0 (body req) = (st0, c0, rep)) ∧
     users st' = users st ∧ sessions st' = sessions st ∧ set_cookie resp = None) ∧
    (resp_body resp = body_error "session_error" →
     (∃ st0 c0 st1 c1 rep,
        load st (cookie req) = (st0, c0) ∧
        handle L srv POST_register e st0 c0 (body req) = (st1, c1, rep) ∧
        sessionID c1 = next_sid st0 ∧ session c1 = Some empty_session) ∧
     ∃ u, users st' = users st ++ [u])).
  { intros -> -> Hother.
    destruct (untouched_outcome _ _ _ _ _ _ _ _ E0 H) as (?&?&Hs&?).
    split; [|split].
    - intros sid s Hsid. left. by rewrite <- Hs.
    - intros _. split; [by exists st0, c0, rep|]. done.
    - intros Hse. rewrite Hbody in Hse. done. }
  pose proof E1 as E1'.
  apply register_inv in E1' as [(Hs1&Hc1&[->| ->])|(u&p&_&_&_&Hcu)];
    [by apply Hkeep..|].
  apply create_user_inv in Hcu
    as [(Hs1&Hc1&[[-> _]|[-> _]])|(stA&id&h&c2&err&_&_&Hins&Hreg&Hcase')];
    [by apply Hkeep..|].
  clear Hkeep.
  destruct Hcase' as [(->&->&->)|(->&->&->)]; [|rewrite Hst in Hfail; done].
  pose proof (load_spec _ _ _ _ E0) as (Hu0&_&_&_&Hs0&_).
  apply insertUser_spec in Hins as (n&_&_&HuA&_&_&_&_&[HsA HnA]).
  apply regenerate_spec in Hreg as (HuB&_&_&_&_&_&HsB&Hid&Hempty).
  split; [|split].
  - unfold finish in H. rewrite Hempty in H.
    destruct (isModified c0 c2); injection H as <- <-; simpl.
    + intros sid s Hs. destruct (decide (sid = sessionID c2)) as [->|Hd].
      * rewrite lookup_insert_eq in Hs. right. congruence.
      * rewrite lookup_insert_ne in Hs by done. left. congruence.
    + intros sid s Hs. left. congruence.
  - intros Hne. rewrite Hbody in Hne. done.
  - intros _. split.
    + exists st0, c0, st1, c2, session_error. repeat split; try done. congruence.
    + apply finish_users in H. eexists. rewrite H, HuB, HuA, Hu0. done.
Qed.

End with_lib.
End RegisterFailure.

(** ** Login failures *)

Module LoginFailure.
Import ExpressSession Handlers SessionFacts HandlerFacts Inversion Regeneration
  RegisterFailure.
Section with_lib.
Context (L : Lib).

Lemma login_refused srv e st req u p :
  credentials (body req) = Some (u, p) →
  Js.truthy u = true → Js.truthy p = true →
  Db.findUserByName L e st u = Some None ∨
  (∃ user, Db.findUserByName L e st u = Some (Some user) ∧
           compare L p (u_password_hash user) = Some false) →
  snd (serve L srv POST_login e st req) = refused.
Proof.
  intros Hcred Hu Hp Hwhy. unfold serve.
  destruct (load st (cookie req)) as [st0 c0] eqn:E0.
  pose proof (load_spec _ _ _ _ E0) as (Hu0&_&_&_&_&s0&Hc0&_).
  assert (Hfind : Db.findUserByName L e st0 u = Db.findUserByName L e st u).
  { unfold Db.findUserByName. by rewrite Hu0. }
  rewrite handle_login. unfold login. rewrite Hcred, Hu, Hp, Hfind. simpl.
  destruct Hwhy as [-> | (user & -> & ->)];
    by rewrite (finish_untouched e st0 c0 _ s0 Hc0).
Qed.

(** C6. A login with a non-empty user name and password is answered with
    one and the same response, 401 [{error: invalid_credentials}] and no
    cookie, when there is no such user and when the user exists and the
    hash comparison fails. *)
Theorem login_failures_indistinguishable
    srv e1 st1 req1 u1 p1 e2 st2 req2 u2 p2 user :
  credentials (body req1) = Some (u1, p1) →
  Js.truthy u1 = true → Js.truthy p1 = true →
  credentials (body req2) = Some (u2, p2) →
  Js.truthy u2 = true → Js.truthy p2 = true →
  Db.findUserByName L e1 st1 u1 = Some None →
  Db.findUserByName L e2 st2 u2 = Some (Some user) →
  compare L p2 (u_password_hash user) = Some false →
  snd (serve L srv POST_login e1 st1 req1) = snd (serve L srv POST_login e2 st2 req2) ∧
  status (snd (serve L srv POST_login e1 st1 req1)) = 401 ∧
  resp_body (snd (serve L srv POST_login e1 st1 req1)) = body_error "invalid_credentials".
Proof.
  intros Hc1 Hu1 Hp1 Hc2 Hu2 Hp2 Hnone Hsome Hcmp.
  rewrite (login_refused srv e1 st1 req1 u1 p1) by auto.
  rewrite (login_refused srv e2 st2 req2 u2 p2) by eauto.
  done.
Qed.

End with_lib.
End LoginFailure.

(** ** Input validation of register *)

Module Validation.
Import ExpressSession Handlers SessionFacts HandlerFacts Inversion Regeneration
  RegisterFailure.
Section with_lib.
Context (L : Lib).

Lemma credentials_total b : ∃ u p, credentials b = Some (u, p).
Proof.
  unfold credentials, Js.or.
  destruct (Js.truthy b) eqn:E; [|simpl; eauto].
  destruct b; simpl in *; try done; eauto.
Qed.

(** X30. [src/server.js] answers 400 when the user name or the password is
    missing, empty or not a string; no user is created, the session store
    is unchanged and no cookie is sent. *)
Theorem pg_register_rejects_invalid_input e st req u p st' resp :
  credentials (body req) = Some (u, p) →
  nonempty_string u && nonempty_string p = false →
  serve L ServerPg POST_register e st req = (st', resp) →
  status resp = 400 ∧
  resp_body resp = body_error "username_and_password_required" ∧
  users st' = users st ∧ sessions st' = sessions st ∧ set_cookie resp = None.
Proof.
  intros Hcred Hbad H. unfold serve in H.
  destruct (load st (cookie req)) as [st0 c0] eqn:E0.
  simpl in H. unfold PgOnly.register in H. rewrite Hcred in H.
  assert (negb (Js.truthy u) || negb (Js.truthy p) || negb (Js.is_string u)
          || negb (Js.is_string p) = true) as Hguard.
  { unfold nonempty_string in Hbad.
    destruct (Js.truthy u), (Js.truthy p), (Js.is_string u), (Js.is_string p);
      simpl in *; congruence. }
  rewrite Hguard in H.
  pose proof (finish_reply _ _ _ _ _ _ _ H) as (Hst&Hbody&_).
  destruct (untouched_outcome _ _ _ _ _ _ _ _ E0 H) as (?&?&?&?).
  done.
Qed.

(** In [src/unnamed/part_000] a user name and a password that are truthy
    pass the check, strings or not: whatever the libraries do, in both
    modes, the answer is not 400. *)
Lemma dual_register_truthy_not_400 usePostgres e st req u p :
  credentials (body req) = Some (u, p) →
  Js.truthy u = true → Js.truthy p = true →
  status (snd (serve L (ServerDual usePostgres) POST_register e st req)) ≠ 400.
Proof.
  intros Hcred Hu Hp. unfold serve. simpl.
  destruct (load st (cookie req)) as [st0 c0] eqn:E0.
  destruct (Dual.register L e st0 c0 (body req)) as [[st1 c1] rep] eqn:E1.
  destruct (finish e st1 c0 c1 rep) as [st' resp] eqn:Ef.
  apply finish_reply in Ef as (Hst&_&_). simpl. rewrite Hst. clear Hst.
  unfold Dual.register in E1. rewrite Hcred, Hu, Hp in E1. simpl in E1.
  apply create_user_inv in E1
    as [(_&_&[[-> _]|[-> _]])|(?&?&?&?&?&_&_&_&_&[(_&_&->)|(_&_&->)])];
    simpl; lia.
Qed.

(** There, a password that is truthy but not a string reaches
    [bcrypt.hash]: the answer is 500 [internal] when the name is free. *)
Lemma dual_register_non_string_password usePostgres e st req u p :
  credentials (body req) = Some (u, p) →
  Js.truthy u = true → Js.truthy p = true → Js.is_string p = false →
  Db.findUserByName L e st u = Some None →
  snd (serve L (ServerDual usePostgres) POST_register e st req) =
    {| status := 500; resp_body := body_error "internal";
       set_cookie := None; clear_cookie := false |}.
Proof.
  intros Hcred Hu Hp Hstr Hfree. unfold serve. simpl.
  destruct (load st (cookie req)) as [st0 c0] eqn:E0.
  pose proof (load_spec _ _ _ _ E0) as (Hu0&_&_&_&_&s0&Hc0&_).
  unfold Dual.register. rewrite Hcred, Hu, Hp. simpl.
  unfold create_user.
  assert (Db.findUserByName L e st0 u = Some None) as ->.
  { unfold Db.findUserByName in *. by rewrite Hu0. }
  assert (hash_password L e p = None) as -> by (by destruct p).
  by rewrite (finish_untouched e st0 c0 _ s0 Hc0).
Qed.

End with_lib.

(** C7 on [src/unnamed/part_000], run on Postgres with the parameter
    conversion of node-postgres: the register request
    [{username: true, password: "pw"}] is answered 201, creates the user
    [true] and binds the session. *)
Theorem dual_register_accepts_non_string :
  let '(st', resp) :=
    serve sample_lib (ServerDual true) POST_register calm initial_state
      (request None (credentials_body (JBool true) (JStr "pw"))) in
  status resp = 201 ∧ resp_body resp = body_username (JBool true) ∧
  List.map u_username (users st') = ["true"] ∧
  set_cookie resp = Some 1 ∧
  sessions st' !! 1 = Some {| userId := Some 1; username := JBool true |}.
Proof. vm_compute. done. Qed.

End Validation.

(** ** The credential table *)

Module Credentials.
Import ExpressSession Handlers SessionFacts HandlerFacts Inversion Regeneration
  RegisterFailure.
Section with_lib.
Context (L : Lib).

Lemma find_existsb {A} (f : A → bool) (l : list A) :
  existsb f l = false ↔ List.find f l = None.
Proof.
  induction l as [|x l IH]; simpl; [done|].
  destruct (f x); simpl; [split; discriminate | done].
Qed.

Lemma find_app_Some {A} (f : A → bool) (l l' : list A) x :
  List.find f l = Some x → List.find f (l ++ l') = Some x.
Proof.
  induction l as [|y l IH]; simpl; [done|]. destruct (f y); auto.
Qed.

Lemma find_app_None {A} (f : A → bool) (l l' : list A) :
  List.find f l = None → List.find f (l ++ l') = List.find f l'.
Proof.
  induction l as [|y l IH]; simpl; [done|]. destruct (f y); [done | auto].
Qed.

Lemma users_step_find st st' n row :
  users_step st st' →
  List.find (named n) (users st) = Some row →
  List.find (named n) (users st') = Some row.
Proof.
  intros [-> | (u & -> & _)] Hf; [done|]. by apply find_app_Some.
Qed.

Lemma create_user_users e st c u p st' c' r :
  create_user L e st c u p = (st', c', r) → users_step st st'.
Proof.
  intros H. apply create_user_inv in H
    as [(->&_)|(stA&id&h&c2&err&_&_&Hins&Hreg&_)]; [by left|].
  apply insertUser_spec in Hins as (n&_&Hfree&Hus&_).
  apply regenerate_spec in Hreg as (Hu&_).
  right. eexists. rewrite Hu, Hus. split; [done|]. exact Hfree.
Qed.

Lemma handle_users srv route e st c b st' c' r :
  handle L srv route e st c b = (st', c', r) → users_step st st'.
Proof.
  intros H. destruct route.
  - left. destruct srv; simpl in H; by simplify_eq.
  - left. rewrite handle_me in H. unfold me in H.
    repeat case_match; by simplify_eq.
  - apply register_inv in H as [(->&_)|(u&p&_&_&_&Hcu)]; [by left|].
    by eapply create_user_users.
  - left. rewrite handle_login in H.
    apply login_inv in H as [(->&_)|(?&?&?&?&?&_&_&_&Hreg&_)]; [done|].
    by apply regenerate_spec in Hreg as (->&_).
  - left. rewrite handle_logout in H. unfold logout in H.
    destruct (destroy e st c) as [[st1 c1] err] eqn:E.
    apply destroy_spec in E as (Hu&_). destruct err; by simplify_eq.
  - left. rewrite handle_import in H. unfold import, requireAuth in H.
    destruct (session_user c) as [uid|]; [|by simplify_eq].
    destruct (negb (Js.truthy (Js.or b (JObj [])))); [by simplify_eq|].
    destruct (Js.get (Js.or b (JObj [])) "games") as [[| | | | |gs|]|];
      try (by simplify_eq).
    destruct (insertGamesBulk L srv e st uid gs) as [st1 ok] eqn:E.
    assert (users st1 = users st) as Hu.
    { destruct srv; simpl in E;
        unfold PgOnly.insertGamesBulk, Dual.insertGamesBulk in E;
        by apply transaction_frame in E as (?&_). }
    destruct ok; by simplify_eq.
  - left. rewrite handle_games in H. unfold list_games, requireAuth in H.
    repeat case_match; by simplify_eq.
Qed.

Lemma serve_users srv route e st req st' resp :
  serve L srv route e st req = (st', resp) → users_step st st'.
Proof.
  unfold serve. intros H.
  destruct (load st (cookie req)) as [st0 c0] eqn:E0.
  destruct (handle L srv route e st0 c0 (body req)) as [[st1 c1] rep] eqn:E1.
  apply load_spec in E0 as (Hu0&_).
  apply handle_users in E1. apply finish_users in H.
  unfold users_step in *. rewrite H. by rewrite Hu0 in E1.
Qed.

Lemma run_find srv trace st n row :
  List.find (named n) (users st) = Some row →
  List.find (named n) (users (run L srv trace st)) = Some row.
Proof.
  revert st. induction trace as [|[[r e] req] trace IH]; intros st Hf; [done|].
  simpl. apply IH.
  destruct (serve L srv r e st req) as [st1 resp] eqn:E. simpl.
  eapply users_step_find; [by eapply serve_users | done].
Qed.

(** A registration answered 201 created the row of the user, with the
    hash of the password it was given. *)
Lemma registered_row srv e st req name pw st1 r1 :
  credentials (body req) = Some (JStr name, JStr pw) →
  serve L srv POST_register e st req = (st1, r1) →
  status r1 = 201 →
  resp_body r1 = body_username (JStr name) ∧
  existsb (named name) (users st) = false ∧
  ∃ id, users st1 = users st ++
          [{| u_id := id; u_username := name;
              u_password_hash := bcrypt_hash L (salt e) pw |}].
Proof.
  unfold serve. intros Hcred H H201.
  destruct (load st (cookie req)) as [st0 c0] eqn:E0.
  destruct (handle L srv POST_register e st0 c0 (body req)) as [[st' c1] rep] eqn:E1.
  pose proof (finish_reply _ _ _ _ _ _ _ H) as (Hst&Hbody&_).
  apply finish_users in H. apply load_spec in E0 as (Hu0&_).
  apply register_inv in E1 as [(_&_&[->| ->])|(u&p&Hcred'&_&_&Hcu)];
    [rewrite Hst in H201; done..|].
  rewrite Hcred in Hcred'. injection Hcred' as <- <-.
  apply create_user_inv in Hcu
    as [(_&_&[[-> _]|[-> _]])|(stA&id&h&c2&err&_&Hh&Hins&Hreg&Hcase)];
    [rewrite Hst in H201; done..|].
  destruct Hcase as [(_&_&->)|(_&_&->)]; [rewrite Hst in H201; done|].
  apply insertUser_spec in Hins as (n&Hn&Hfree&Hus&_).
  apply regenerate_spec in Hreg as (Hu&_).
  simpl in Hn, Hh. injection Hn as <-. injection Hh as <-.
  split; [done|]. split; [by rewrite <- Hu0|].
  exists id. by rewrite H, Hu, Hus, Hu0.
Qed.

End with_lib.
End Credentials.

(** ** Register, then register again or log in *)

Module RegisterThen.
Import ExpressSession Handlers SessionFacts HandlerFacts Inversion Regeneration
  RegisterFailure Credentials.
Section with_lib.
Context (L : Lib).

Lemma find_by_name e st name :
  fail_find_user e = false →
  Db.findUserByName L e st (JStr name) = Some (List.find (named name) (users st)).
Proof. intros He. unfold Db.findUserByName. by rewrite He. Qed.

Lemma nonempty_truthy s : s ≠ "" → Js.truthy (JStr s) = true.
Proof. intros Hs. simpl. by apply negb_true_iff, String.eqb_neq. Qed.

(** C5. After a registration of a user name and password (non-empty
    strings) that was answered 201, and whatever requests the server
    handles in between, a login with the same user name and password is
    answered 200 with that user name, provided the lookup of the user and
    the session store do not report an error during the login. *)
Theorem login_after_register
    srv e st req name pw st1 r1 trace e2 req2 st3 r2 :
  bcrypt_sound L →
  name ≠ "" → pw ≠ "" →
  credentials (body req) = Some (JStr name, JStr pw) →
  serve L srv POST_register e st req = (st1, r1) →
  status r1 = 201 →
  credentials (body req2) = Some (JStr name, JStr pw) →
  fail_find_user e2 = false → fail_destroy e2 = false →
  serve L srv POST_login e2 (run L srv trace st1) req2 = (st3, r2) →
  status r2 = 200 ∧ resp_body r2 = body_username (JStr name).
Proof.
  intros Hsound Hname Hpw Hcred Hreg H201 Hcred2 Hfind Hdestroy Hlogin.
  destruct (registered_row L _ _ _ _ _ _ _ _ Hcred Hreg H201)
    as (_&Hfree&id&Hus).
  set (row := {| u_id := id; u_username := name;
                 u_password_hash := bcrypt_hash L (salt e) pw |}) in *.
  assert (Hrow : List.find (named name) (users (run L srv trace st1)) = Some row).
  { apply run_find. rewrite Hus.
    rewrite find_app_None by (by apply find_existsb).
    simpl. unfold named. simpl. by rewrite String.eqb_refl. }
  unfold serve in Hlogin.
  destruct (load (run L srv trace st1) (cookie req2)) as [st0 c0] eqn:E0.
  apply load_spec in E0 as (Hu0&_).
  rewrite handle_login in Hlogin. unfold login in Hlogin.
  rewrite Hcred2, !nonempty_truthy in Hlogin by done. simpl in Hlogin.
  rewrite find_by_name, Hu0, Hrow in Hlogin by done. simpl in Hlogin.
  rewrite Hsound in Hlogin.
  destruct (regenerate e2 st0 c0) as [[stB c2] err] eqn:Er.
  apply regenerate_spec in Er as (_&_&_&_&_&Herr&_).
  rewrite Herr, Hdestroy in Hlogin.
  by apply finish_reply in Hlogin as (->&->&_).
Qed.

(** C4. Two register requests in a row with the same user name (non-empty
    strings for the name and both passwords), starting from a table
    without that name and with no error reported by the database or the
    session store: the first is answered 201 with the user name, the
    second 409 [username_taken], and the table then has exactly one row
    with that name. *)
Theorem register_twice
    srv e1 e2 st req1 req2 name pw1 pw2 st1 r1 st2 r2 :
  name ≠ "" → pw1 ≠ "" → pw2 ≠ "" →
  credentials (body req1) = Some (JStr name, JStr pw1) →
  credentials (body req2) = Some (JStr name, JStr pw2) →
  existsb (named name) (users st) = false →
  fail_find_user e1 = false → fail_insert_user e1 = false →
  fail_destroy e1 = false → fail_find_user e2 = false →
  serve L srv POST_register e1 st req1 = (st1, r1) →
  serve L srv POST_register e2 st1 req2 = (st2, r2) →
  status r1 = 201 ∧ resp_body r1 = body_username (JStr name) ∧
  status r2 = 409 ∧ resp_body r2 = body_error "username_taken" ∧
  length (List.filter (named name) (users st2)) = 1.
Proof.
  intros Hname Hpw1 Hpw2 Hc1 Hc2 Hfree Hf1 Hi1 Hd1 Hf2 H1 H2.
  assert (Hfirst : status r1 = 201).
  { unfold serve in H1.
    destruct (load st (cookie req1)) as [st0 c0] eqn:E0.
    apply load_spec in E0 as (Hu0&_).
    destruct (handle L srv POST_register e1 st0 c0 (body req1))
      as [[st' c1] rep] eqn:E1.
    apply finish_reply in H1 as (->&_&_).
    assert (Hcu : create_user L e1 st0 c0 (JStr name) (JStr pw1) = (st', c1, rep)).
    { destruct srv; simpl in E1; unfold PgOnly.register, Dual.register in E1;
        rewrite Hc1, !nonempty_truthy in E1 by done; exact E1. }
    unfold create_user in Hcu.
    rewrite find_by_name, Hu0 in Hcu by done.
    apply find_existsb in Hfree as Hnone. rewrite Hnone in Hcu. simpl in Hcu.
    unfold Db.insertUser in Hcu. rewrite Hi1 in Hcu. simpl in Hcu.
    rewrite Hu0 in Hcu. fold (named name) in Hcu. rewrite Hfree in Hcu.
    match type of Hcu with
    | context [regenerate ?e ?s ?c] =>
        destruct (regenerate e s c) as [[stB c2] err] eqn:Er
    end.
    apply regenerate_spec in Er as (_&_&_&_&_&Herr&_).
    rewrite Herr, Hd1 in Hcu. by simplify_eq. }
  destruct (registered_row L _ _ _ _ _ _ _ _ Hc1 H1 Hfirst) as (Hb1&_&id&Hus).
  set (row := {| u_id := id; u_username := name;
                 u_password_hash := bcrypt_hash L (salt e1) pw1 |}) in *.
  assert (Hrow : List.find (named name) (users st1) = Some row).
  { rewrite Hus, find_app_None by (by apply find_existsb).
    simpl. unfold named. simpl. by rewrite String.eqb_refl. }
  unfold serve in H2.
  destruct (load st1 (cookie req2)) as [st0 c0] eqn:E0.
  pose proof (load_spec _ _ _ _ E0) as (Hu0&_).
  destruct (handle L srv POST_register e2 st0 c0 (body req2))
    as [[st' c1] rep] eqn:E1.
  assert (Hcu : create_user L e2 st0 c0 (JStr name) (JStr pw2) = (st', c1, rep)).
  { destruct srv; simpl in E1; unfold PgOnly.register, Dual.register in E1;
      rewrite Hc2, !nonempty_truthy in E1 by done; exact E1. }
  unfold create_user in Hcu.
  rewrite find_by_name, Hu0, Hrow in Hcu by done.
  injection Hcu as <- <- <-.
  pose proof (finish_reply _ _ _ _ _ _ _ H2) as (Hst&Hbody&_).
  destruct (untouched_outcome _ _ _ _ _ _ _ _ E0 H2) as (Hu2&_).
  repeat split; try done.
  rewrite Hu2, Hus, List.filter_app, List.length_app. simpl.
  unfold named at 2. simpl. rewrite String.eqb_refl. simpl.
  assert (List.filter (named name) (users st) = []) as ->; [|done].
  clear -Hfree. induction (users st) as [|u l IH]; [done|].
  simpl in *. destruct (named name u); [done | auto].
Qed.

End with_lib.
End RegisterThen.

(** ** The import transaction *)

Module BulkImport.
Import ExpressSession Handlers SessionFacts HandlerFacts Inversion Regeneration
  RegisterFailure.
Section with_lib.
Context (L : Lib).

Lemma insertGamesBulk_unfold srv e st uid gs :
  insertGamesBulk L srv e st uid gs =
    transaction (usesPostgres srv) e (insert_one L srv e uid) st gs.
Proof. by destruct srv. Qed.

Lemma insert_one_unfold srv e uid k c g :
  insert_one L srv e uid k c g =
    match insert_stmt L srv e uid k g with
    | Some q => Db.query (usesPostgres srv) e c q
    | None => (c, false)
    end.
Proof. by destruct srv. Qed.

(** The statement of the loop is an [INSERT] for the owner. *)
Lemma insert_stmt_inv srv e uid k g q :
  insert_stmt L srv e uid k g = Some q →
  ∃ pgn fens t, q = INSERT_GAME uid pgn fens t.
Proof.
  destruct srv; simpl; unfold PgOnly.insert_stmt, Dual.insert_stmt;
    repeat case_match; intros; simplify_eq; eauto.
Qed.

(** One turn of the loop inside a transaction: it completes unless the
    record fails, and then adds the row of its statement to the
    transaction, under the next id. *)
Lemma insert_one_step srv e uid k c pending g c' ok :
  Db.tx c = Some pending →
  insert_one L srv e uid k c g = (c', ok) →
  ok = negb (record_fails L srv e uid k g) ∧
  Db.committed c' = Db.committed c ∧
  if ok then
    ∃ q row, insert_stmt L srv e uid k g = Some q ∧
             row_written q (Db.seq c) = Some row ∧
             Db.tx c' = Some (pending ++ [row]) ∧ Db.seq c' = S (Db.seq c)
  else c' = c.
Proof.
  intros Htx. rewrite insert_one_unfold. unfold record_fails.
  destruct (insert_stmt L srv e uid k g) as [q|] eqn:Eq.
  - destruct (insert_stmt_inv _ _ _ _ _ _ Eq) as (pgn & fens & t & ->).
    unfold Db.query. rewrite Htx.
    destruct (rejects e _); intros [= <- <-]; simpl; [done|].
    split; [done|]. split; [done|]. by eexists _, _.
  - by intros [= <- <-].
Qed.

Lemma insert_one_in_tx srv e uid k c pending g c' ok :
  Db.tx c = Some pending →
  insert_one L srv e uid k c g = (c', ok) →
  Db.committed c' = Db.committed c ∧
  ((ok = true ∧ ∃ row, Db.tx c' = Some (pending ++ [row]) ∧ g_user_id row = uid) ∨
   (ok = false ∧ c' = c)).
Proof.
  intros Htx H.
  destruct (insert_one_step _ _ _ _ _ _ _ _ _ Htx H) as (_ & Hc & Hcase).
  split; [done|]. destruct ok; [left|by right]. split; [done|].
  destruct Hcase as (q & row & Hq & Hrow & Htx' & _).
  destruct (insert_stmt_inv _ _ _ _ _ _ Hq) as (pgn & fens & t & ->).
  injection Hrow as <-. by eexists.
Qed.

(** The loop inside a transaction: the committed rows stay as they were,
    the transaction gains rows of the owner, one per record when the loop
    completes. *)
Lemma insert_all_in_tx srv e uid gs : ∀ k c pending c' ok,
  insert_all (insert_one L srv e uid) k c gs = (c', ok) →
  Db.tx c = Some pending →
  Db.committed c' = Db.committed c ∧
  ∃ rows, Db.tx c' = Some (pending ++ rows) ∧
          Forall (λ r, g_user_id r = uid) rows ∧
          (ok = true → length rows = length gs).
Proof.
  induction gs as [|g gs IH]; intros k c pending c' ok H Htx; simpl in H.
  - injection H as <- <-. split; [done|]. exists []. by rewrite app_nil_r.
  - destruct (insert_one L srv e uid k c g) as [c1 ok1] eqn:E1.
    destruct (insert_one_in_tx _ _ _ _ _ _ _ _ _ Htx E1)
      as [Hc [(-> & row & Htx1 & Hrow)|(-> & ->)]].
    + destruct (IH _ _ _ _ _ H Htx1) as (Hc' & rows & Htx' & Hall & Hlen).
      split; [congruence|]. exists (row :: rows).
      split; [by rewrite Htx', <- app_assoc|].
      split; [by constructor|]. intros Hok. simpl. by rewrite Hlen.
    + injection H as <- <-. split; [done|]. exists [].
      by rewrite app_nil_r.
Qed.

(** The loop, record by record: the rows of the transaction are those of
    the statements of the records it went through, under consecutive ids;
    it stops at the first record that fails, and only there. *)
Lemma insert_all_steps srv e uid gs : ∀ k c pending c' ok,
  insert_all (insert_one L srv e uid) k c gs = (c', ok) →
  Db.tx c = Some pending →
  ∃ rows, Db.tx c' = Some (pending ++ rows) ∧
    (∀ i row, rows !! i = Some row →
       ∃ g q, gs !! i = Some g ∧ insert_stmt L srv e uid (k + i) g = Some q ∧
              record_fails L srv e uid (k + i) g = false ∧
              row_written q (Db.seq c + i) = Some row) ∧
    if ok then length rows = length gs
    else ∃ g, gs !! length rows = Some g ∧
              record_fails L srv e uid (k + length rows) g = true.
Proof.
  induction gs as [|g gs IH]; intros k c pending c' ok H Htx; simpl in H.
  - injection H as <- <-. exists []. rewrite app_nil_r. split; [done|].
    split; [|done]. intros i row Hi. by rewrite lookup_nil in Hi.
  - destruct (insert_one L srv e uid k c g) as [c1 ok1] eqn:E1.
    destruct (insert_one_step _ _ _ _ _ _ _ _ _ Htx E1) as (Hok & _ & Hcase).
    destruct ok1.
    + destruct Hcase as (q & row & Hq & Hrow & Htx1 & Hseq).
      destruct (IH _ _ _ _ _ H Htx1) as (rows & Htx' & Hrows & Hend).
      exists (row :: rows). split; [by rewrite Htx', <- app_assoc|]. split.
      * intros [|i] r Hi; simpl in Hi.
        -- injection Hi as <-. exists g, q. rewrite !Nat.add_0_r.
           split; [done|]. split; [done|]. split; [|done].
           by destruct (record_fails L srv e uid k g).
        -- destruct (Hrows i r Hi) as (g' & q' & Hg' & Hq' & Hf' & Hr').
           exists g', q'. rewrite Hseq in Hr'.
           replace (k + S i) with (S k + i) by lia.
           replace (Db.seq c + S i) with (S (Db.seq c) + i) by lia. done.
      * destruct ok; simpl; [by rewrite Hend|].
        destruct Hend as (g' & Hg' & Hf').
        exists g'. split; [done|].
        by replace (k + S (length rows)) with (S k + length rows) by lia.
    + injection H as <- <-. subst c1. exists []. rewrite app_nil_r.
      split; [done|]. split.
      * intros i row Hi. by rewrite lookup_nil in Hi.
      * exists g. simpl. rewrite Nat.add_0_r. split; [done|].
        by destruct (record_fails L srv e uid k g).
Qed.

Lemma run_transaction_spec srv e uid c0 gs c ok :
  run_transaction (usesPostgres srv) e (insert_one L srv e uid) c0 gs = (c, ok) →
  Db.tx c0 = None →
  Db.tx c = None ∧
  ((ok = true ∧ ∃ rows, Db.committed c = Db.committed c0 ++ rows ∧
                        length rows = length gs ∧
                        Forall (λ r, g_user_id r = uid) rows) ∨
   (ok = false ∧ Db.committed c = Db.committed c0)).
Proof.
  intros H Htx0. revert H. unfold run_transaction.
  destruct (Db.query _ e c0 BEGIN) as [c1 began] eqn:Eb.
  unfold Db.query in Eb.
  destruct (rejects e BEGIN); injection Eb as <- <-.
  { intros [= <- <-]. simpl. split; [done|]. by right. }
  destruct (insert_all _ _ _ gs) as [c2 inserted] eqn:Ei.
  destruct (insert_all_in_tx _ _ _ _ _ _ [] _ _ Ei eq_refl)
    as (Hc2 & rows & Htx2 & Hall & Hlen).
  simpl in Hc2, Htx2.
  destruct inserted.
  - unfold Db.query at 1. rewrite Htx2.
    destruct (rejects e COMMIT).
    + intros [= <- <-]. simpl. split; [done|]. by right.
    + intros [= <- <-]. simpl. split; [done|]. left. split; [done|].
      exists rows. rewrite Hc2. auto.
  - intros [= <- <-]. simpl. split; [done|]. by right.
Qed.

(** When the transaction returns and when it throws: it returns exactly
    when the database accepts the [BEGIN] and the [COMMIT] and no record
    fails, and then the rows it has committed are those of the statements
    of the records, in the order of the batch and under consecutive ids. *)
Lemma run_transaction_outcome srv e uid c0 gs c ok :
  run_transaction (usesPostgres srv) e (insert_one L srv e uid) c0 gs = (c, ok) →
  Db.tx c0 = None →
  (ok = true ↔
     rejects e BEGIN = false ∧ rejects e COMMIT = false ∧
     ∀ i g, gs !! i = Some g → record_fails L srv e uid (S i) g = false) ∧
  (ok = true →
   ∃ rows, Db.committed c = Db.committed c0 ++ rows ∧ length rows = length gs ∧
     ∀ i g, gs !! i = Some g →
       ∃ q, insert_stmt L srv e uid (S i) g = Some q ∧
            rows !! i = row_written q (Db.seq c0 + i)).
Proof.
  intros H Htx0. revert H. unfold run_transaction.
  destruct (Db.query _ e c0 BEGIN) as [c1 began] eqn:Eb.
  unfold Db.query in Eb.
  destruct (rejects e BEGIN) eqn:Ebegin; injection Eb as <- <-.
  { intros [= <- <-]. split; [|done]. split; [done|]. by intros (? & _). }
  destruct (insert_all _ _ _ gs) as [c2 inserted] eqn:Ei.
  destruct (insert_all_in_tx _ _ _ _ _ _ [] _ _ Ei eq_refl) as (Hc2 & _).
  destruct (insert_all_steps _ _ _ _ _ _ [] _ _ Ei eq_refl)
    as (rows & Htx2 & Hrows & Hend).
  simpl in Hc2, Htx2, Hrows.
  destruct inserted.
  - assert (Hall : ∀ i g, gs !! i = Some g →
              ∃ q, insert_stmt L srv e uid (S i) g = Some q ∧
                   record_fails L srv e uid (S i) g = false ∧
                   rows !! i = row_written q (Db.seq c0 + i)).
    { intros i g Hi.
      destruct (lookup_lt_is_Some_2 rows i) as [row Hrow].
      { rewrite Hend. by eapply lookup_lt_Some. }
      destruct (Hrows i row Hrow) as (g' & q & Hg' & Hq & Hf & Hw).
      rewrite Hi in Hg'. injection Hg' as <-. exists q. by rewrite Hrow, Hw. }
    unfold Db.query at 1. rewrite Htx2.
    destruct (rejects e COMMIT) eqn:Ecommit.
    + intros [= <- <-]. split; [|done]. split; [done|]. by intros (_ & ? & _).
    + intros [= <- <-]. simpl. split.
      * split; [|done]. intros _. split; [done|]. split; [done|].
        intros i g Hi. by destruct (Hall i g Hi) as (q & _ & ? & _).
      * intros _. exists rows. rewrite Hc2. split; [done|]. split; [done|].
        intros i g Hi. destruct (Hall i g Hi) as (q & ? & _ & ?). by exists q.
  - destruct Hend as (g & Hg & Hfail).
    intros [= <- <-]. split; [|done]. split; [done|].
    intros (_ & _ & Hnone). simpl in Hfail. rewrite (Hnone _ _ Hg) in Hfail. done.
Qed.

(** C3. [insertGamesBulk] is all or nothing.  It returns exactly when the
    database accepts the [BEGIN] and the [COMMIT] and no record of the
    batch fails; if reading a record, sending one of its parameters or its
    [INSERT] fails, it throws.  When it returns, the table holds the rows
    it held before followed by one row of the owner for each record of the
    batch: the row of the [INSERT] of that record, in the order of the
    batch.  When it throws, the table holds the rows it held before and
    nothing else, and a listing of any user is what it was.  In both cases
    the connection is released with no transaction open (the error
    surfaces after the [ROLLBACK]), and while the loop runs, after any
    number of records, the committed rows, which is what other requests
    read, are those from before the call. *)
Theorem bulk_insert_all_or_nothing srv e st uid gs :
  let '(c, ok) := run_transaction (usesPostgres srv) e (insert_one L srv e uid)
                    (Db.connect st) gs in
  let st' := Db.release st c in
  insertGamesBulk L srv e st uid gs = (st', ok) ∧
  Db.tx c = None ∧
  users st' = users st ∧ sessions st' = sessions st ∧
  (ok = true ↔
     rejects e BEGIN = false ∧ rejects e COMMIT = false ∧
     ∀ i g, gs !! i = Some g → record_fails L srv e uid (S i) g = false) ∧
  (if ok then
     ∃ rows, games st' = games st ++ rows ∧ length rows = length gs ∧
             Forall (λ r, g_user_id r = uid) rows ∧
             ∀ i g, gs !! i = Some g →
               ∃ q, insert_stmt L srv e uid (S i) g = Some q ∧
                    rows !! i = row_written q (next_game_id st + i)
   else
     games st' = games st ∧
     ∀ e' owner, Db.getGamesByUser e' st' owner = Db.getGamesByUser e' st owner) ∧
  ∀ k c1, Db.query (usesPostgres srv) e (Db.connect st) BEGIN = (c1, true) →
    Db.committed (fst (insert_all (insert_one L srv e uid) 1 c1 (take k gs))) = games st.
Proof.
  destruct (run_transaction _ _ _ _ _) as [c ok] eqn:E.
  destruct (run_transaction_spec _ _ _ _ _ _ _ E eq_refl) as [Htx Hcase].
  destruct (run_transaction_outcome _ _ _ _ _ _ _ E eq_refl) as [Hiff Hrows].
  split; [|split; [done|split; [done|split; [done|split; [done|split]]]]].
  - rewrite insertGamesBulk_unfold. unfold transaction. by rewrite E.
  - destruct Hcase as [(-> & rows & Hc & Hlen & Hall)|(-> & Hc)]; simpl.
    + destruct (Hrows eq_refl) as (rows' & Hc' & _ & Hstmt).
      rewrite Hc in Hc'. apply app_inv_head in Hc' as <-.
      exists rows. auto.
    + split; [done|]. intros e' owner. unfold Db.getGamesByUser. simpl.
      by rewrite Hc.
  - intros k c1. unfold Db.query.
    destruct (rejects e BEGIN); intros [= <-].
    destruct (insert_all _ _ _ (take k gs)) as [ck okk] eqn:Ek.
    destruct (insert_all_in_tx _ _ _ _ _ _ [] _ _ Ek eq_refl) as (Hc & _).
    simpl. by rewrite Hc.
Qed.

End with_lib.
End BulkImport.

Module ImportRoute.
Import ExpressSession Handlers SessionFacts HandlerFacts Inversion Regeneration
  RegisterFailure BulkImport.
Section with_lib.
Context (L : Lib).

Lemma release_same st c :
  Db.committed c = games st → Db.seq c = next_game_id st → Db.release st c = st.
Proof. unfold Db.release. intros -> ->. by destruct st. Qed.

Lemma empty_batch srv e st uid :
  rejects e BEGIN = false → rejects e COMMIT = false →
  insertGamesBulk L srv e st uid [] = (st, true).
Proof.
  intros Hb Hc. rewrite insertGamesBulk_unfold.
  unfold transaction, run_transaction, Db.query. rewrite Hb. simpl. rewrite Hc.
  simpl. f_equal. apply release_same; simpl; [apply app_nil_r | done].
Qed.

(** C9. An import by a logged-in user whose body has the empty array as
    its [games] is answered 200 [{imported: 0}] and changes nothing,
    provided the database accepts the [BEGIN] and the [COMMIT]. *)
Theorem import_empty_batch srv e st req c s uid fields st' resp :
  cookie req = Some c → sessions st !! c = Some s → userId s = Some (S uid) →
  body req = JObj fields → Js.lookup_field "games" fields = JArr [] →
  rejects e BEGIN = false → rejects e COMMIT = false →
  serve L srv POST_import e st req = (st', resp) →
  status resp = 200 ∧ resp_body resp = body_imported 0 ∧
  set_cookie resp = None ∧ st' = st.
Proof.
  intros Hck Hs Hid Hbody Hgames Hb Hc. unfold serve, load.
  rewrite Hck, Hs, handle_import, Hbody.
  unfold import, requireAuth, session_user. simpl. rewrite Hid, Hgames.
  rewrite empty_batch by done.
  erewrite finish_untouched by done. by intros [= <- <-].
Qed.

(** An import that is not answered 200 leaves the table as it was. *)
Lemma failed_import_keeps_games srv e st req st' resp :
  serve L srv POST_import e st req = (st', resp) →
  status resp ≠ 200 → games st' = games st.
Proof.
  unfold serve. intros H Hfail.
  destruct (load st (cookie req)) as [st0 c0] eqn:E0.
  destruct (handle L srv POST_import e st0 c0 (body req)) as [[st1 c1] rep] eqn:E1.
  pose proof (finish_reply _ _ _ _ _ _ _ H) as (Hst&_&_).
  rewrite handle_import in E1. unfold import, requireAuth in E1.
  assert (Hsame : st1 = st0 → c1 = c0 → games st' = games st).
  { intros -> ->. by destruct (untouched_outcome _ _ _ _ _ _ _ _ E0 H) as (_&?&_). }
  destruct (session_user c0) as [uid|]; [|simplify_eq; by apply Hsame].
  destruct (negb (Js.truthy (Js.or (body req) (JObj []))));
    [simplify_eq; by apply Hsame|].
  destruct (Js.get (Js.or (body req) (JObj [])) "games") as [[| | | | |gs|]|];
    try (simplify_eq; by apply Hsame).
  rewrite insertGamesBulk_unfold in E1. unfold transaction in E1.
  destruct (run_transaction _ _ _ _ _) as [c ok] eqn:Et.
  destruct (run_transaction_spec L _ _ _ _ _ _ _ Et eq_refl) as [_ Hcase].
  destruct Hcase as [(-> & _)|(-> & Hg)];
    injection E1 as <- <- <-; [rewrite Hst in Hfail; done|].
  apply load_spec in E0 as (_&_&Hg0&_&_&s0&Hc0&_).
  rewrite (finish_untouched e _ c0 internal s0 Hc0) in H.
  injection H as <- <-. simpl. rewrite Hg. exact Hg0.
Qed.

End with_lib.
End ImportRoute.

(** ** Reachable states *)

Module Reachable.
Import SessionFacts HandlerFacts.

Lemma wf_initial : wf initial_state.
Proof. intros sid [s Hs]. simpl in Hs. by rewrite lookup_empty in Hs. Qed.

Lemma wf_serve L srv route e st req :
  wf st → wf (fst (serve L srv route e st req)).
Proof.
  intros Hwf. destruct (serve L srv route e st req) as [st' resp] eqn:E.
  eapply grows_wf; [done | by eapply serve_grows].
Qed.

Lemma wf_run L srv trace st : wf st → wf (run L srv trace st).
Proof. intros Hwf. eapply grows_wf; [done | apply run_grows]. Qed.

End Reachable.

(** ** The [fens] of an imported record *)

Module Fens.
Import Handlers JSONFacts.

(** [src/server.js] wraps a string that does not parse into an array of
    one string, and [getGamesByUser] reads that array back. *)
Lemma pg_wraps_unparsable (s : string) :
  JSON.parse s = None →
  PgOnly.fens_param (JStr s) = JSON.stringify (JArr [JStr s]) ∧
  Db.stored_fens (PgOnly.fens_param (JStr s)) = Some (JArr [JStr s]).
Proof.
  intros Hs. unfold PgOnly.fens_param. simpl Js.is_nullish. cbv iota.
  rewrite Hs. split; [done|].
  pose proof (parse_wrapped s) as Hp.
  cbn [JSON.stringify List.map JSON.join default from_option id] in *.
  rewrite app_cons. rewrite app_cons in Hp. exact Hp.
Qed.

(** A record of a batch on [src/server.js] whose [fens] is a string that
    does not parse: the row the loop writes holds the JSON text of the
    one-element array, and [getGamesByUser] shows that array. *)
Lemma pg_insert_one_wraps L e uid k c pending g s c' :
  Db.tx c = Some pending →
  Js.get g "fens" = Some (JStr s) → JSON.parse s = None →
  PgOnly.insert_one L e uid k c g = (c', true) →
  ∃ row, Db.tx c' = Some (pending ++ [row]) ∧
         g_fens row = JSON.stringify (JArr [JStr s]) ∧
         v_fens <$> Db.view row = Some (JArr [JStr s]).
Proof.
  intros Htx Hfens Hs. unfold PgOnly.insert_one, PgOnly.insert_stmt. rewrite Hfens.
  destruct (Js.get g "pgn") as [pgn|]; [|done].
  destruct (Js.get g "date") as [date|]; [|done].
  destruct (Js.get g "created_at") as [created|]; [|done].
  destruct (Db.text_param L _) as [txt|]; [|done].
  destruct (PgOnly.created_at_param L e k date created) as [t|]; [|done].
  unfold Db.query. rewrite Htx. destruct (rejects e _); [done|].
  intros [= <-]. eexists. split; [done|].
  destruct (pg_wraps_unparsable s Hs) as [Hp Hv].
  split; [exact Hp|]. unfold Db.view. simpl g_fens. by rewrite Hv.
Qed.

Lemma pg_insert_one_row L e uid k c pending g c' :
  Db.tx c = Some pending →
  PgOnly.insert_one L e uid k c g = (c', true) →
  ∃ row, Db.tx c' = Some (pending ++ [row]) ∧
         Db.committed c' = Db.committed c ∧ wrapped_row uid g row.
Proof.
  intros Htx H.
  destruct (BulkImport.insert_one_in_tx L ServerPg e uid k c pending g c' true Htx H)
    as [Hc [(_ & row & Htx' & Huid)|(? & _)]]; [|done].
  exists row. split; [done|]. split; [done|]. split; [done|].
  intros s Hfens Hs.
  destruct (pg_insert_one_wraps L e uid k c pending g s c' Htx Hfens Hs H)
    as (row' & Htx'' & _ & Hview).
  rewrite Htx' in Htx''. injection Htx'' as Heq%app_inv_head.
  by injection Heq as ->.
Qed.

Lemma pg_insert_all_rows L e uid gs : ∀ k c pending c',
  insert_all (PgOnly.insert_one L e uid) k c gs = (c', true) →
  Db.tx c = Some pending →
  ∃ rows, Db.tx c' = Some (pending ++ rows) ∧
          Db.committed c' = Db.committed c ∧ Forall2 (wrapped_row uid) gs rows.
Proof.
  induction gs as [|g gs IH]; intros k c pending c' H Htx; simpl in H.
  - injection H as <-. exists []. by rewrite app_nil_r.
  - destruct (PgOnly.insert_one L e uid k c g) as [c1 [|]] eqn:E1; [|done].
    destruct (pg_insert_one_row _ _ _ _ _ _ _ _ Htx E1) as (row & Htx1 & Hc1 & Hrow).
    destruct (IH _ _ _ _ H Htx1) as (rows & Htx' & Hc' & Hall).
    exists (row :: rows). split; [by rewrite Htx', <- app_assoc|].
    split; [congruence|]. by constructor.
Qed.

(** What [insertGamesBulk] of [src/server.js] adds when it returns. *)
Lemma pg_bulk_rows L e st uid gs st' :
  PgOnly.insertGamesBulk L e st uid gs = (st', true) →
  ∃ rows, games st' = games st ++ rows ∧ Forall2 (wrapped_row uid) gs rows.
Proof.
  unfold PgOnly.insertGamesBulk, Handlers.transaction, Handlers.run_transaction.
  unfold Db.query at 1.
  destruct (rejects e BEGIN); [simpl; by intros [= _ ?]|].
  destruct (insert_all _ _ _ gs) as [c2 [|]] eqn:Ei; [|simpl; by intros [= _ ?]].
  destruct (pg_insert_all_rows _ _ _ _ _ _ [] _ Ei eq_refl) as (rows & Htx & Hc & Hall).
  simpl in Htx, Hc. unfold Db.query. rewrite Htx.
  destruct (rejects e COMMIT); [simpl; by intros [= _ ?]|].
  intros [= <-]. simpl. exists rows. by rewrite Hc.
Qed.

(** C2 on [src/server.js]. A logged-in user imports a batch in which some
    record has a [fens] string that does not parse as JSON; when the import
    is answered 200 the answer counts the whole batch, and a later
    [GET /api/games] of that user that is answered 200 lists a record whose
    [fens] is the one-element array holding that string. *)
Theorem pg_import_wraps_and_lists
    L e st req c sess uid fields gs i g s st1 r1 e2 b2 st2 r2 :
  cookie req = Some c → sessions st !! c = Some sess → userId sess = Some (S uid) →
  body req = JObj fields → Js.lookup_field "games" fields = JArr gs →
  gs !! i = Some g → Js.get g "fens" = Some (JStr s) → JSON.parse s = None →
  serve L ServerPg POST_import e st req = (st1, r1) → status r1 = 200 →
  serve L ServerPg GET_games e2 st1 (request (Some c) b2) = (st2, r2) →
  status r2 = 200 →
  resp_body r1 = body_imported (length gs) ∧
  ∃ views v, resp_body r2 = body_games views ∧ v ∈ views ∧
             v_fens v = JArr [JStr s].
Proof.
  intros Hck Hsess Hid Hbody Hgames Hi Hfens Hs Himp H200 Hget Hget200.
  unfold serve, ExpressSession.load in Himp.
  rewrite Hck, Hsess in Himp. simpl in Himp. rewrite Hbody in Himp.
  unfold Handlers.import, Handlers.requireAuth, Handlers.session_user in Himp.
  simpl in Himp. rewrite Hid, Hgames in Himp.
  destruct (PgOnly.insertGamesBulk L e st (S uid) gs) as [stI ok] eqn:Eb.
  destruct ok.
  2:{ erewrite Inversion.finish_untouched in Himp by done.
      injection Himp as <- <-. done. }
  erewrite Inversion.finish_untouched in Himp by done.
  injection Himp as <- <-. split; [done|].
  destruct (pg_bulk_rows _ _ _ _ _ _ Eb) as (rows & Hrows & Hall).
  apply (HandlerFacts.insertGamesBulk_same L ServerPg) in Eb as [Hsame _].
  unfold serve, ExpressSession.load in Hget. simpl in Hget.
  rewrite Hsame, Hsess in Hget.
  unfold Handlers.list_games, Handlers.requireAuth, Handlers.session_user in Hget.
  simpl in Hget. rewrite Hid in Hget.
  destruct (Db.getGamesByUser e2 stI (S uid)) as [views|] eqn:Eg.
  2:{ erewrite Inversion.finish_untouched in Hget by done.
      injection Hget as <- <-. done. }
  erewrite Inversion.finish_untouched in Hget by done.
  injection Hget as <- <-. simpl.
  destruct (Forall2_lookup_l _ _ _ _ _ Hall Hi) as (row & Hrow & Huid & Hwrap).
  specialize (Hwrap s Hfens Hs).
  destruct (Db.view row) as [v|] eqn:Ev; [|done]. injection Hwrap as Hv.
  exists views, v. split; [done|]. split; [|done].
  unfold Db.getGamesByUser in Eg. destruct (fail_select_games e2); [done|].
  apply mapM_Some_1 in Eg.
  assert (Hin : row ∈ merge_sort Db.newer_first
                  (List.filter (λ r, g_user_id r =? S uid) (games stI))).
  { rewrite merge_sort_Permutation. apply list_elem_of_In, filter_In. split.
    - rewrite Hrows. apply in_or_app. right.
      apply list_elem_of_In. by eapply list_elem_of_lookup_2.
    - rewrite Huid. apply Nat.eqb_refl. }
  apply list_elem_of_lookup in Hin as [j Hj].
  destruct (Forall2_lookup_l _ _ _ _ _ Eg Hj) as (v' & Hv' & Hview).
  rewrite Ev in Hview. injection Hview as <-.
  by eapply list_elem_of_lookup_2.
Qed.

(** The scenario on [src/server.js]. *)
Lemma pg_scenario :
  scenario ServerPg =
    (answer 201 (body_username (JStr "alice")) (Some 1),
     answer 200 (body_imported 1) None,
     answer 200 (body_games [{| v_id := 1; v_pgn := Some "1.e4 e5";
                                v_fens := JArr [JStr "not-json"];
                                v_date := 1000 |}]) None,
     [{| g_id := 1; g_user_id := 1; g_pgn := Some "1.e4 e5";
         g_fens := Some ("[" +:+ JSON.quote "not-json" +:+ "]");
         g_created_at := 1000 |}]).
Proof. vm_compute. reflexivity. Qed.

(** [src/unnamed/part_000] stores the JSON text of the string itself, in
    both modes, and [getGamesByUser] reads the string back, not an
    array. *)
Lemma dual_keeps_string (s : string) :
  s ≠ "" →
  JSON.stringify (Js.or (JStr s) (JArr [])) = Some (JSON.quote s) ∧
  Db.stored_fens (Some (JSON.quote s)) = Some (JStr s).
Proof.
  intros Hs. unfold Js.or. simpl Js.truthy.
  apply String.eqb_neq in Hs. rewrite Hs. simpl negb. cbv iota.
  split; [done|]. unfold JSON.quote at 1. cbn [Db.stored_fens].
  apply parse_quote.
Qed.

(** C2 on [src/unnamed/part_000]: in the scenario of the specification,
    in both modes, the import is answered [{imported: 1}], the row holds
    the JSON text of the string [not-json], and [GET /api/games] returns
    the record with [fens] equal to that string, not to the one-element
    array that holds it. *)
Theorem dual_scenario_returns_string usePostgres :
  scenario (ServerDual usePostgres) =
    (answer 201 (body_username (JStr "alice")) (Some 1),
     answer 200 (body_imported 1) None,
     answer 200 (body_games [{| v_id := 1; v_pgn := Some "1.e4 e5";
                                v_fens := JStr "not-json";
                                v_date := 1000 |}]) None,
     [{| g_id := 1; g_user_id := 1; g_pgn := Some "1.e4 e5";
         g_fens := Some (JSON.quote "not-json");
         g_created_at := 1000 |}]).
Proof. destruct usePostgres; vm_compute; reflexivity. Qed.

End Fens.

(** ** The theorems at sample inputs *)

Module Witnesses.
Import Handlers Reachable.

(** The stand-in for bcrypt accepts a password against its hash. *)
Lemma bcrypt_sound_sample : bcrypt_sound sample_lib.
Proof. intros salt pw. simpl. apply String.eqb_refl. Qed.

(** C1 when bob registers with the cookie of alice, which the server sent
    when she registered: the identity of bob goes under a new identifier,
    not under the one of the cookie. *)
Lemma identity_bound_witness :
  cookies_sent sample_lib ServerPg [(POST_register, calm, request None alice)]
    initial_state = [1] ∧
  ∃ sid s id stA stB cB,
    ((POST_register = POST_login ∧ stA = alice_registered) ∨
     (POST_register = POST_register ∧
      ∃ h, Db.insertUser sample_lib calm alice_registered (username s) h
           = Some (stA, id))) ∧
    ExpressSession.regenerate calm stA
      {| sessionID := 1;
         session := Some {| userId := Some 1; username := JStr "alice" |} |}
      = (stB, cB, false) ∧
    sessionID cB = sid ∧
    fst (serve sample_lib ServerPg POST_register calm alice_registered
           (request (Some 1) bob)) = ExpressSession.store_set stB sid s ∧
    userId s = Some id ∧
    set_cookie (snd (serve sample_lib ServerPg POST_register calm alice_registered
                       (request (Some 1) bob))) = Some sid ∧
    resp_body (snd (serve sample_lib ServerPg POST_register calm alice_registered
                      (request (Some 1) bob))) = body_username (username s) ∧
    sid ≠ 1 ∧
    (sid ∉ cookies_sent sample_lib ServerPg
             [(POST_register, calm, request None alice)] initial_state) ∧
    (∀ k, sessions (run sample_lib ServerPg
                      (take k [(POST_register, calm, request None alice)])
                      initial_state) !! sid = None) ∧
    (∀ other, other ≠ sid →
       sessions (fst (serve sample_lib ServerPg POST_register calm alice_registered
                        (request (Some 1) bob))) !! other
         = sessions alice_registered !! other ∨
       sessions (fst (serve sample_lib ServerPg POST_register calm alice_registered
                        (request (Some 1) bob))) !! other = None).
Proof.
  split; [reflexivity|].
  apply (Regeneration.identity_bound_to_regenerated_identifier sample_lib ServerPg
           [(POST_register, calm, request None alice)] alice_registered
           POST_register calm (request (Some 1) bob) alice_registered
           {| sessionID := 1;
              session := Some {| userId := Some 1; username := JStr "alice" |} |}).
  - reflexivity.
  - reflexivity.
  - left. split; [reflexivity | vm_compute; reflexivity].
  - apply surjective_pairing.
Defined.

(** C8 for alice: logout, a request in between, then [GET /api/me]. *)
Lemma me_after_logout_witness :
  status (snd (serve sample_lib ServerPg GET_me calm
                 (run sample_lib ServerPg [(GET_games, calm, request (Some 1) JUndefined)]
                    (fst (serve sample_lib ServerPg POST_logout calm alice_registered
                            (request (Some 1) JUndefined))))
                 {| cookie := Some 1; body := JNull |})) = 401 ∧
  resp_body (snd (serve sample_lib ServerPg GET_me calm
                 (run sample_lib ServerPg [(GET_games, calm, request (Some 1) JUndefined)]
                    (fst (serve sample_lib ServerPg POST_logout calm alice_registered
                            (request (Some 1) JUndefined))))
                 {| cookie := Some 1; body := JNull |})) =
    body_error "not_authenticated".
Proof.
  apply (Logout.me_after_logout_is_401 sample_lib ServerPg calm alice_registered
           (request (Some 1) JUndefined)
           (fst (serve sample_lib ServerPg POST_logout calm alice_registered
                   (request (Some 1) JUndefined)))
           (snd (serve sample_lib ServerPg POST_logout calm alice_registered
                   (request (Some 1) JUndefined)))).
  - intros c Hc. injection Hc as <-. vm_compute. lia.
  - apply surjective_pairing.
  - vm_compute. reflexivity.
Defined.

(** C10 for a second registration of alice, answered 409. *)
Lemma register_failure_witness :
  status (snd (serve sample_lib ServerPg POST_register calm alice_registered
                 (request (Some 1) alice))) ≠ 201 ∧
  users (fst (serve sample_lib ServerPg POST_register calm alice_registered
                (request (Some 1) alice))) = users alice_registered ∧
  sessions (fst (serve sample_lib ServerPg POST_register calm alice_registered
                   (request (Some 1) alice))) = sessions alice_registered ∧
  set_cookie (snd (serve sample_lib ServerPg POST_register calm alice_registered
                     (request (Some 1) alice))) = None.
Proof.
  assert (status (snd (serve sample_lib ServerPg POST_register calm alice_registered
                         (request (Some 1) alice))) ≠ 201) as Hfail.
  { vm_compute. lia. }
  split; [exact Hfail|].
  destruct (RegisterFailure.register_failure_binds_nothing sample_lib ServerPg calm
              alice_registered (request (Some 1) alice) _ _
              (surjective_pairing _) Hfail) as (_ & Hother & _).
  apply Hother. vm_compute. discriminate.
Defined.

(** C6 for alice: before she registered, and after with another
    password. *)
Lemma login_failures_witness :
  snd (serve sample_lib ServerPg POST_login calm initial_state (request None alice)) =
  snd (serve sample_lib ServerPg POST_login calm alice_registered
         (request None wrong_password)) ∧
  status (snd (serve sample_lib ServerPg POST_login calm initial_state
                 (request None alice))) = 401 ∧
  resp_body (snd (serve sample_lib ServerPg POST_login calm initial_state
                    (request None alice))) = body_error "invalid_credentials".
Proof.
  apply (LoginFailure.login_failures_indistinguishable sample_lib ServerPg
           calm initial_state (request None alice) (JStr "alice") (JStr "secret123")
           calm alice_registered (request None wrong_password)
           (JStr "alice") (JStr "letmein")
           {| u_id := 1; u_username := "alice";
              u_password_hash := "$2b$10$secret123" |});
    vm_compute; reflexivity.
Defined.

(** C5 for alice on the dual-mode server with SQLite, a logout in
    between. *)
Lemma login_after_register_witness :
  status (snd (serve sample_lib (ServerDual false) POST_login calm
                 (run sample_lib (ServerDual false)
                    [(POST_logout, calm, request (Some 1) JUndefined)]
                    (fst (serve sample_lib (ServerDual false) POST_register calm
                            initial_state (request None alice))))
                 (request None alice))) = 200 ∧
  resp_body (snd (serve sample_lib (ServerDual false) POST_login calm
                 (run sample_lib (ServerDual false)
                    [(POST_logout, calm, request (Some 1) JUndefined)]
                    (fst (serve sample_lib (ServerDual false) POST_register calm
                            initial_state (request None alice))))
                 (request None alice))) = body_username (JStr "alice").
Proof.
  apply (RegisterThen.login_after_register sample_lib (ServerDual false) calm
           initial_state (request None alice) "alice" "secret123"
           (fst (serve sample_lib (ServerDual false) POST_register calm
                   initial_state (request None alice)))
           (snd (serve sample_lib (ServerDual false) POST_register calm
                   initial_state (request None alice)))
           [(POST_logout, calm, request (Some 1) JUndefined)]
           calm (request None alice)
           (fst (serve sample_lib (ServerDual false) POST_login calm
                 (run sample_lib (ServerDual false)
                    [(POST_logout, calm, request (Some 1) JUndefined)]
                    (fst (serve sample_lib (ServerDual false) POST_register calm
                            initial_state (request None alice))))
                 (request None alice)))).
  - exact bcrypt_sound_sample.
  - discriminate.
  - discriminate.
  - reflexivity.
  - apply surjective_pairing.
  - vm_compute. reflexivity.
  - reflexivity.
  - reflexivity.
  - reflexivity.
  - apply surjective_pairing.
Defined.

(** C4 for alice on the empty server. *)
Lemma register_twice_witness :
  status (snd (serve sample_lib ServerPg POST_register calm initial_state
                 (request None alice))) = 201 ∧
  resp_body (snd (serve sample_lib ServerPg POST_register calm initial_state
                    (request None alice))) = body_username (JStr "alice") ∧
  status (snd (serve sample_lib ServerPg POST_register calm alice_registered
                 (request None alice))) = 409 ∧
  resp_body (snd (serve sample_lib ServerPg POST_register calm alice_registered
                    (request None alice))) = body_error "username_taken" ∧
  length (List.filter (named "alice")
            (users (fst (serve sample_lib ServerPg POST_register calm alice_registered
                           (request None alice))))) = 1.
Proof.
  apply (RegisterThen.register_twice sample_lib ServerPg calm calm initial_state
           (request None alice) (request None alice) "alice" "secret123" "secret123"
           alice_registered);
    try discriminate; try reflexivity; apply surjective_pairing.
Defined.

(** C9 for alice. *)
Lemma import_empty_witness :
  status (snd (serve sample_lib ServerPg POST_import calm alice_registered
                 (request (Some 1) (JObj [("games", JArr [])])))) = 200 ∧
  resp_body (snd (serve sample_lib ServerPg POST_import calm alice_registered
                    (request (Some 1) (JObj [("games", JArr [])])))) = body_imported 0 ∧
  set_cookie (snd (serve sample_lib ServerPg POST_import calm alice_registered
                     (request (Some 1) (JObj [("games", JArr [])])))) = None ∧
  fst (serve sample_lib ServerPg POST_import calm alice_registered
         (request (Some 1) (JObj [("games", JArr [])]))) = alice_registered.
Proof.
  apply (ImportRoute.import_empty_batch sample_lib ServerPg calm alice_registered
           (request (Some 1) (JObj [("games", JArr [])])) 1
           {| userId := Some 1; username := JStr "alice" |} 0
           [("games", JArr [])]);
    reflexivity.
Defined.

End Witnesses.

(** ** JSON: every value is read back from its text *)

Module JSONRoundTrip.
Import Js JSON JSONFacts JSONFuel.

(** Induction on values, through the elements of arrays and the members of
    objects. *)
Lemma JsValue_ind' (P : JsValue → Prop) :
  P JUndefined → P JNull → (∀ b, P (JBool b)) → (∀ lit, P (JNum lit)) →
  (∀ s, P (JStr s)) →
  (∀ xs, Forall P xs → P (JArr xs)) →
  (∀ fields, Forall (λ kv, P (snd kv)) fields → P (JObj fields)) →
  ∀ v, P v.
Proof.
  intros Hu Hn Hb Hnum Hs Ha Ho.
  refine (fix IH (v : JsValue) : P v :=
    match v with
    | JUndefined => Hu
    | JNull => Hn
    | JBool b => Hb b
    | JNum lit => Hnum lit
    | JStr s => Hs s
    | JArr xs =>
        Ha xs ((fix go (l : list JsValue) : Forall P l :=
                  match l with
                  | [] => @List.Forall_nil _ P
                  | x :: l' => @List.Forall_cons _ P x l' (IH x) (go l')
                  end) xs)
    | JObj fields =>
        Ho fields ((fix go (l : list (string * JsValue))
                      : Forall (λ kv, P (snd kv)) l :=
                      match l with
                      | [] => @List.Forall_nil _ (λ kv, P (snd kv))
                      | (k, x) :: l' => @List.Forall_cons _ (λ kv, P (snd kv)) (k, x) l' (IH x) (go l')
                      end) fields)
    end).
Qed.

(** *** Numbers *)

Lemma delimited_not_digit c r : delimited (String c r) = true → is_digit c = false.
Proof.
  simpl. destruct c as [[] [] [] [] [] [] [] []]; simpl; done.
Qed.

(** What follows a value does not continue a run of digits. *)
Lemma span_digits_app s rest ds r :
  span_digits s = (ds, r) → delimited rest = true →
  span_digits (s +:+ rest) = (ds, r +:+ rest).
Proof.
  revert ds r. induction s as [|c s IH]; intros ds r H Hd.
  - simpl in H. injection H as <- <-. rewrite !app_empty.
    destruct rest as [|c r]; [done|]. simpl. by rewrite (delimited_not_digit c r).
  - rewrite app_cons. simpl in *. destruct (is_digit c).
    + destruct (span_digits s) as [ds' r'] eqn:E. injection H as <- <-.
      by rewrite (IH _ _ eq_refl Hd).
    + injection H as <- <-. by rewrite app_cons.
Qed.

Lemma delimited_head rest :
  delimited rest = true →
  match rest with
  | String c _ => Ascii.eqb c "." = false ∧ Ascii.eqb c "e" = false ∧
                  Ascii.eqb c "E" = false ∧ Ascii.eqb c "-" = false
  | EmptyString => True
  end.
Proof.
  destruct rest as [|c r]; [done|]. simpl.
  destruct c as [[] [] [] [] [] [] [] []]; simpl; done.
Qed.

(** A literal that [parse_number] reads to its end is read the same when
    something follows that does not continue a number. *)
Lemma parse_number_app lit lit' rest :
  parse_number lit = Some (lit', EmptyString) → delimited rest = true →
  parse_number (lit +:+ rest) = Some (lit', rest).
Proof.
  intros H Hd. pose proof (delimited_head rest Hd) as Hh.
  unfold parse_number in *.
  destruct lit as [|c r]; [simpl in H; done|]. rewrite app_cons.
  assert (Hs1 : ∀ sign s1,
    (let '(int, s2) := span_digits s1 in
     match int with
     | "" => None
     | String d more =>
         if Ascii.eqb d "0" && negb (String.eqb more "") then None
         else
           let frac :=
             match s2 with
             | "" => Some ("", s2)
             | String c r =>
                 if Ascii.eqb c "." then
                   let '(fd, s3) := span_digits r in
                   if String.eqb fd "" then None else Some ("." +:+ fd, s3)
                 else Some ("", s2)
             end in
           match frac with
           | Some (fr, s3) =>
               let exp :=
                 match s3 with
                 | "" => Some ("", s3)
                 | String e r =>
                     if Ascii.eqb e "e" || Ascii.eqb e "E" then
                       let '(sg, r1) :=
                         match r with
                         | "" => ("", r)
                         | String g r0 =>
                             if Ascii.eqb g "+" || Ascii.eqb g "-"
                             then (String g "", r0) else ("", r)
                         end in
                       let '(ed, s4) := span_digits r1 in
                       if String.eqb ed "" then None else Some (String e (sg +:+ ed), s4)
                     else Some ("", s3)
                 end in
               match exp with
               | Some (ex, s4) => Some (sign +:+ int +:+ fr +:+ ex, s4)
               | None => None
               end
           | None => None
           end
     end) = Some (lit', "") →
    (let '(int, s2) := span_digits (s1 +:+ rest) in
     match int with
     | "" => None
     | String d more =>
         if Ascii.eqb d "0" && negb (String.eqb more "") then None
         else
           let frac :=
             match s2 with
             | "" => Some ("", s2)
             | String c r =>
                 if Ascii.eqb c "." then
                   let '(fd, s3) := span_digits r in
                   if String.eqb fd "" then None else Some ("." +:+ fd, s3)
                 else Some ("", s2)
             end in
           match frac with
           | Some (fr, s3) =>
               let exp :=
                 match s3 with
                 | "" => Some ("", s3)
                 | String e r =>
                     if Ascii.eqb e "e" || Ascii.eqb e "E" then
                       let '(sg, r1) :=
                         match r with
                         | "" => ("", r)
                         | String g r0 =>
                             if Ascii.eqb g "+" || Ascii.eqb g "-"
                             then (String g "", r0) else ("", r)
                         end in
                       let '(ed, s4) := span_digits r1 in
                       if String.eqb ed "" then None else Some (String e (sg +:+ ed), s4)
                     else Some ("", s3)
                 end in
               match exp with
               | Some (ex, s4) => Some (sign +:+ int +:+ fr +:+ ex, s4)
               | None => None
               end
           | None => None
           end
     end) = Some (lit', rest)).
  { clear H c r. intros sign s1.
    destruct (span_digits s1) as [int s2] eqn:E1.
    rewrite (span_digits_app _ _ _ _ E1 Hd).
    destruct int as [|d more]; [done|].
    destruct (Ascii.eqb d "0" && negb (String.eqb more "")); [done|].
    (* the exponent, for a remainder [s3] *)
    assert (Hexp : ∀ (k : string → string) s3,
      match
        match s3 with
        | "" => Some ("", s3)
        | String e r =>
            if Ascii.eqb e "e" || Ascii.eqb e "E" then
              let '(sg, r1) :=
                match r with
                | "" => ("", r)
                | String g r0 =>
                    if Ascii.eqb g "+" || Ascii.eqb g "-"
                    then (String g "", r0) else ("", r)
                end in
              let '(ed, s4) := span_digits r1 in
              if String.eqb ed "" then None else Some (String e (sg +:+ ed), s4)
            else Some ("", s3)
        end
      with
      | Some (ex, s4) => Some (k ex, s4)
      | None => None
      end = Some (lit', "") →
      match
        match s3 +:+ rest with
        | "" => Some ("", s3 +:+ rest)
        | String e r =>
            if Ascii.eqb e "e" || Ascii.eqb e "E" then
              let '(sg, r1) :=
                match r with
                | "" => ("", r)
                | String g r0 =>
                    if Ascii.eqb g "+" || Ascii.eqb g "-"
                    then (String g "", r0) else ("", r)
                end in
              let '(ed, s4) := span_digits r1 in
              if String.eqb ed "" then None else Some (String e (sg +:+ ed), s4)
            else Some ("", s3 +:+ rest)
        end
      with
      | Some (ex, s4) => Some (k ex, s4)
      | None => None
      end = Some (lit', rest)).
    { intros k s3. destruct s3 as [|e r].
      - intros [= <-]. rewrite app_empty.
        destruct rest as [|c r]; [done|]. destruct Hh as (_ & -> & -> & _). done.
      - rewrite app_cons. destruct (Ascii.eqb e "e" || Ascii.eqb e "E").
        + destruct r as [|g r0].
          * simpl. done.
          * rewrite app_cons. destruct (Ascii.eqb g "+" || Ascii.eqb g "-").
            -- destruct (span_digits r0) as [ed s4] eqn:E4.
               rewrite (span_digits_app _ _ _ _ E4 Hd).
               destruct (String.eqb ed ""); [done|]. by intros [= <- ->].
            -- rewrite <- app_cons.
               destruct (span_digits (String g r0)) as [ed s4] eqn:E4.
               rewrite (span_digits_app _ _ _ _ E4 Hd).
               destruct (String.eqb ed ""); [done|]. by intros [= <- ->].
        + by intros [= <-]. }
    destruct s2 as [|c r].
    - rewrite app_empty. cbv zeta. intros H.
      pose proof (Hexp (λ ex, sign +:+ String d more +:+ "" +:+ ex) "" H) as H'.
      rewrite app_empty in H'.
      destruct rest as [|c r]; [exact H'|].
      destruct Hh as (-> & _). exact H'.
    - rewrite app_cons. cbv zeta. destruct (Ascii.eqb c ".").
      + destruct (span_digits r) as [fd s3] eqn:E3.
        rewrite (span_digits_app _ _ _ _ E3 Hd).
        destruct (String.eqb fd ""); [done|]. intros H.
        exact (Hexp (λ ex, sign +:+ String d more +:+ ("." +:+ fd) +:+ ex) s3 H).
      + rewrite <- app_cons. intros H.
        exact (Hexp (λ ex, sign +:+ String d more +:+ "" +:+ ex) (String c r) H). }
  destruct (Ascii.eqb c "-").
  - apply Hs1. exact H.
  - rewrite <- app_cons. apply Hs1. exact H.
Qed.


Lemma parses_mono v f0 f1 : parses v f0 → f0 ≤ f1 → parses v f1.
Proof. intros H Hle f rest Hf Hd. apply H; [lia | done]. Qed.

(** A JSON value has a text. *)
Lemma stringify_text v : is_json v = true → stringify v = Some (json_text v).
Proof. unfold json_text. destruct v as [| |[]| | | |]; simpl; done. Qed.

Lemma number_literal_head lit :
  number_literal lit = true →
  ∃ c r, lit = String c r ∧ (is_digit c = true ∨ c = "-"%char).
Proof.
  unfold number_literal, parse_number. destruct lit as [|c r]; [done|].
  intros H. exists c, r. split; [done|].
  destruct (Ascii.eqb c "-") eqn:Ec; [right; by apply Ascii.eqb_eq|]. left.
  simpl in H. destruct (is_digit c); done.
Qed.

Lemma number_head c :
  is_digit c = true ∨ c = "-"%char →
  opens_value c ∧ Ascii.eqb c "n" = false ∧ Ascii.eqb c "t" = false ∧
  Ascii.eqb c "f" = false ∧ Ascii.eqb c dquote = false ∧
  Ascii.eqb c "[" = false ∧ Ascii.eqb c "{" = false.
Proof.
  unfold opens_value.
  intros [H| ->]; [|done].
  destruct c as [[] [] [] [] [] [] [] []]; simpl in H; done.
Qed.

Lemma text_head v :
  is_json v = true → ∃ c r, json_text v = String c r ∧ opens_value c.
Proof.
  destruct v as [| |[]|lit|s|xs|fs]; simpl; intros H; try done;
    try (by eexists _, _).
  destruct (number_literal_head lit H) as (c & r & -> & Hc).
  exists c, r. split; [done|]. by apply number_head.
Qed.

Lemma skip_ws_head c r : is_ws c = false → skip_ws (String c r) = String c r.
Proof. intros H. simpl. by rewrite H. Qed.

(** *** Values *)

(** [null], the booleans and the strings. *)
Lemma parses_atoms :
  parses JNull 1 ∧ parses (JBool true) 1 ∧ parses (JBool false) 1 ∧
  ∀ s, parses (JStr s) 1.
Proof.
  repeat split; try (intros [|f] rest Hf Hd; [lia|]; reflexivity).
  intros s [|f] rest Hf Hd; [lia|]. apply parse_value_quote.
Qed.

Lemma parses_number lit : number_literal lit = true → parses (JNum lit) 1.
Proof.
  intros H [|f] rest Hf Hd; [lia|].
  destruct (number_literal_head lit H) as (c & r & -> & Hc).
  destruct (number_head c Hc) as ((Hws & _) & Hn & Ht & Hf' & Hq & Ha & Ho).
  change (json_text (JNum (String c r))) with (String c r).
  rewrite parse_value_S, app_cons, skip_ws_head by done.
  rewrite Hn, Ht, Hf', Hq, Ha, Ho. rewrite <- app_cons.
  unfold number_literal in H.
  destruct (parse_number (String c r)) as [[l [|]]|] eqn:E; try done.
  apply String.eqb_eq in H as ->.
  by rewrite (parse_number_app _ _ _ E Hd).
Qed.

(** A common bound for the elements. *)
Lemma parses_bound {A} (val : A → JsValue) (l : list A) :
  Forall (λ x, ∃ f0, parses (val x) f0) l → ∃ F, Forall (λ x, parses (val x) F) l.
Proof.
  induction 1 as [|x l [f0 Hx] _ [F IH]]; [by exists 0|].
  exists (f0 `max` F). constructor.
  - eapply parses_mono; [exact Hx | lia].
  - eapply Forall_impl; [exact IH|]. intros y Hy. simpl in Hy.
    eapply parses_mono; [exact Hy | lia].
Qed.

(** The elements of an array, once each of them is read back. *)
Lemma parse_elements_texts F xs :
  Forall (λ x, parses x F) xs → xs ≠ [] →
  ∀ acc f rest, F + length xs < f →
    parse_elements f (join "," (List.map json_text xs) +:+ String "]" rest) acc
    = Some (JArr (acc ++ xs), rest).
Proof.
  induction 1 as [|x xs Hx Hxs IH]; [done|]. intros _ acc [|f] rest Hf; [lia|].
  simpl in Hf. rewrite parse_elements_S.
  destruct xs as [|y ys].
  - change (join "," (List.map json_text [x])) with (json_text x).
    rewrite Hx by (done || lia). reflexivity.
  - change (join "," (List.map json_text (x :: y :: ys)))
      with (json_text x +:+ "," +:+ join "," (List.map json_text (y :: ys))).
    rewrite !append_assoc. rewrite (app_cons "," ""), app_empty.
    rewrite Hx by (done || lia).
    rewrite skip_ws_head by done.
    change (Ascii.eqb "," ",") with true. cbv iota.
    rewrite IH by (done || simpl in *; lia).
    by rewrite <- app_assoc.
Qed.

Lemma parses_array F xs :
  forallb is_json xs = true → Forall (λ x, parses x F) xs →
  parses (JArr xs) (F + length xs + 2).
Proof.
  intros Hjson Hall [|f] rest Hf Hd; [lia|].
  change (json_text (JArr xs)) with ("[" +:+ join "," (List.map json_text xs) +:+ "]").
  rewrite append_assoc, (app_cons "[" ""), app_empty.
  rewrite append_assoc, (app_cons "]" ""), app_empty.
  rewrite parse_value_S, skip_ws_head by done.
  change (Ascii.eqb "[" "n") with false. change (Ascii.eqb "[" "t") with false.
  change (Ascii.eqb "[" "f") with false. change (Ascii.eqb "[" dquote) with false.
  change (Ascii.eqb "[" "[") with true. cbv iota.
  destruct xs as [|x xs]; [reflexivity|].
  assert (∃ c r, join "," (List.map json_text (x :: xs)) +:+ String "]" rest = String c r
                 ∧ opens_value c) as (c & r & Heq & Hws & Hclose & _).
  { simpl in Hjson. apply andb_true_iff in Hjson as [Hx _].
    destruct (text_head x Hx) as (c & r & Hc & Hopen).
    destruct xs as [|y ys].
    - change (join "," (List.map json_text [x])) with (json_text x).
      rewrite Hc, app_cons. by eexists _, _.
    - change (join "," (List.map json_text (x :: y :: ys)))
        with (json_text x +:+ "," +:+ join "," (List.map json_text (y :: ys))).
      rewrite Hc, !app_cons. by eexists _, _. }
  rewrite Heq, skip_ws_head, Hclose by done. rewrite <- Heq.
  rewrite (parse_elements_texts F) by (done || simpl in *; lia). reflexivity.
Qed.


Lemma object_text fields :
  forallb (λ kv, is_json (snd kv)) fields = true →
  json_text (JObj fields) = "{" +:+ join "," (List.map member_text fields) +:+ "}".
Proof.
  intros H. unfold json_text. cbn [stringify default from_option id].
  do 3 f_equal. induction fields as [|[k v] fields IH]; [done|].
  simpl in H. apply andb_true_iff in H as [Hv Hrest].
  cbn [flat_map List.map fst snd]. rewrite (stringify_text v Hv), IH by done. reflexivity.
Qed.

Lemma distinct_keys_NoDup ks : distinct_keys ks = true ↔ NoDup ks.
Proof.
  induction ks as [|k ks IH]; simpl; [by split; [constructor|]|].
  rewrite andb_true_iff, negb_true_iff, IH, NoDup_cons.
  assert (existsb (String.eqb k) ks = false ↔ k ∉ ks) as ->; [|done].
  rewrite <- not_true_iff_false, existsb_exists.
  split.
  - intros Hn Hin. apply Hn. exists k. split; [by apply list_elem_of_In|].
    apply String.eqb_refl.
  - intros Hn (x & Hin & Heq). apply String.eqb_eq in Heq as <-.
    by apply Hn, list_elem_of_In.
Qed.

Lemma set_field_fresh k v acc :
  k ∉ List.map fst acc → set_field k v acc = acc ++ [(k, v)].
Proof.
  induction acc as [|[k' v'] acc IH]; simpl; [done|]. intros Hk.
  apply not_elem_of_cons in Hk as [Hne Hk].
  destruct (String.eqb_spec k k'); [done|]. by rewrite IH.
Qed.

(** The members of an object, once each of their values is read back; the
    keys are distinct, so no member replaces an earlier one. *)
Lemma parse_members_texts F fields :
  Forall (λ kv, parses (snd kv) F) fields → fields ≠ [] →
  ∀ acc f rest, F + length fields < f →
    NoDup (List.map fst acc ++ List.map fst fields) →
    parse_members f (join "," (List.map member_text fields) +:+ String "}" rest) acc
    = Some (JObj (acc ++ fields), rest).
Proof.
  induction 1 as [|[k v] fs Hv Hfs IH]; [done|].
  intros _ acc [|f] rest Hf Hnd; [lia|]. simpl in Hf, Hv.
  assert (Hfresh : k ∉ List.map fst acc).
  { simpl in Hnd. apply NoDup_app in Hnd as (_ & Hdis & _).
    intros Hin. apply (Hdis k Hin). by left. }
  assert (Hstep : ∀ tail,
    delimited tail = true →
    parse_members (S f) (member_text (k, v) +:+ tail) acc =
      match skip_ws tail with
      | String d rest' =>
          if Ascii.eqb d "," then parse_members f rest' (acc ++ [(k, v)])
          else if Ascii.eqb d "}" then Some (JObj (acc ++ [(k, v)]), rest')
          else None
      | EmptyString => None
      end).
  { intros tail Htail. unfold member_text, quote. cbn [fst snd].
    rewrite !append_assoc, !app_cons, !app_empty, !append_assoc.
    rewrite !app_cons, app_empty.
    rewrite parse_members_S, skip_ws_head by done.
    change (Ascii.eqb dquote dquote) with true. cbv iota.
    rewrite parse_string_escape, skip_ws_head by done.
    change (Ascii.eqb ":" ":") with true. cbv iota.
    rewrite Hv by (done || lia). by rewrite set_field_fresh. }
  destruct fs as [|kv fs'].
  - change (join "," (List.map member_text [(k, v)])) with (member_text (k, v)).
    rewrite Hstep by done. reflexivity.
  - change (join "," (List.map member_text ((k, v) :: kv :: fs')))
      with (member_text (k, v) +:+ "," +:+ join "," (List.map member_text (kv :: fs'))).
    rewrite !append_assoc, (app_cons "," ""), app_empty.
    rewrite Hstep by done. rewrite skip_ws_head by done.
    change (Ascii.eqb "," ",") with true. cbv iota.
    rewrite IH.
    + by rewrite <- app_assoc.
    + done.
    + simpl in *. lia.
    + rewrite map_app, <- app_assoc. exact Hnd.
Qed.

Lemma parses_object F fields :
  is_json (JObj fields) = true → Forall (λ kv, parses (snd kv) F) fields →
  parses (JObj fields) (F + length fields + 2).
Proof.
  intros Hjson Hall [|f] rest Hf Hd; [lia|].
  cbn [is_json] in Hjson. apply andb_true_iff in Hjson as [Hvals Hkeys].
  rewrite object_text by done.
  rewrite append_assoc, (app_cons "{" ""), app_empty.
  rewrite append_assoc, (app_cons "}" ""), app_empty.
  rewrite parse_value_S, skip_ws_head by done.
  change (Ascii.eqb "{" "n") with false. change (Ascii.eqb "{" "t") with false.
  change (Ascii.eqb "{" "f") with false. change (Ascii.eqb "{" dquote) with false.
  change (Ascii.eqb "{" "[") with false. change (Ascii.eqb "{" "{") with true.
  cbv iota.
  destruct fields as [|[k v] fs]; [reflexivity|].
  assert (∃ r, join "," (List.map member_text ((k, v) :: fs)) +:+ String "}" rest
               = String dquote r) as [r Heq].
  { destruct fs as [|kv fs'].
    - change (join "," (List.map member_text [(k, v)])) with (member_text (k, v)).
      unfold member_text, quote. rewrite !app_cons. by eexists.
    - change (join "," (List.map member_text ((k, v) :: kv :: fs')))
        with (member_text (k, v) +:+ "," +:+ join "," (List.map member_text (kv :: fs'))).
      unfold member_text at 1, quote. rewrite !app_cons. by eexists. }
  rewrite Heq, skip_ws_head by done.
  change (Ascii.eqb dquote "}") with false. cbv iota. rewrite <- Heq.
  rewrite (parse_members_texts F); [reflexivity | done | done | simpl in *; lia |].
  by apply distinct_keys_NoDup.
Qed.

(** Every JSON value is read back from its text. *)
Lemma text_parses v : is_json v = true → ∃ f0, parses v f0.
Proof.
  induction v as [| |b|lit|s|xs IH|fields IH] using JsValue_ind'; intros Hjson.
  - done.
  - exists 1. apply parses_atoms.
  - exists 1. destruct b; apply parses_atoms.
  - exists 1. by apply parses_number.
  - exists 1. apply parses_atoms.
  - cbn [is_json] in Hjson.
    destruct (parses_bound id xs) as [F HF].
    { apply Forall_forall. intros x Hx.
      apply (proj1 (Forall_forall _ _) IH x Hx).
      apply (proj1 (forallb_forall _ _) Hjson). by apply list_elem_of_In. }
    eexists. by apply (parses_array F).
  - pose proof Hjson as Hjson'. cbn [is_json] in Hjson'.
    apply andb_true_iff in Hjson' as [Hvals _].
    destruct (parses_bound snd fields) as [F HF].
    { apply Forall_forall. intros kv Hkv.
      apply (proj1 (Forall_forall _ _) IH kv Hkv).
      apply (proj1 (forallb_forall _ _) Hvals). by apply list_elem_of_In. }
    eexists. by apply (parses_object F).
Qed.

(** [JSON.parse(JSON.stringify(v))] is [v]. *)
Lemma parse_stringify v :
  is_json v = true → (JSON.stringify v ≫= JSON.parse) = Some v.
Proof.
  intros Hjson. rewrite (stringify_text v Hjson).
  change (parse (json_text v) = Some v).
  destruct (text_parses v Hjson) as [f0 Hp].
  pose proof (Hp (f0 `max` (2 * String.length (json_text v) + 2)) EmptyString) as Hrun.
  rewrite app_empty_r, parse_fuel_enough in Hrun by lia.
  unfold parse. rewrite Hrun by (done || lia). reflexivity.
Qed.

End JSONRoundTrip.

(** ** Requests without a login, and requests that only read *)

Module Guard.
Import ExpressSession Handlers SessionFacts HandlerFacts Inversion Regeneration
  RegisterFailure.
Section with_lib.
Context (L : Lib).

(** The session the middleware hands to the handler is the one of the
    cookie, or an empty one. *)
Lemma load_identity st ck st0 c0 :
  load st ck = (st0, c0) → session_user c0 = identity st ck.
Proof.
  unfold load, identity. intros H.
  destruct ck as [sid|]; simpl.
  - destruct (sessions st !! sid) as [s|] eqn:E; simpl.
    + by injection H as <- <-.
    + by injection H as <- <-.
  - by injection H as <- <-.
Qed.

Lemma load_logged_in st ck uid :
  identity st ck = Some uid →
  ∃ sid s, ck = Some sid ∧ sessions st !! sid = Some s ∧
           load st ck = (st, {| sessionID := sid; session := Some s |}).
Proof.
  unfold identity, load. destruct ck as [sid|]; [|done]. simpl.
  destruct (sessions st !! sid) as [s|] eqn:E; [|done]. intros _.
  by exists sid, s.
Qed.

(** A request whose handler answers without touching state or session. *)
Lemma serve_untouched srv route e st req st0 c0 rep :
  load st (cookie req) = (st0, c0) →
  handle L srv route e st0 c0 (body req) = (st0, c0, rep) →
  serve L srv route e st req =
    (st0, {| status := r_status rep; resp_body := r_body rep;
             set_cookie := None; clear_cookie := r_clear_cookie rep |}).
Proof.
  intros E0 E1. unfold serve. rewrite E0, E1.
  apply load_spec in E0 as (_&_&_&_&_&s0&Hc0&_).
  by apply finish_untouched with s0.
Qed.

Lemma load_frame st ck st0 c0 :
  load st ck = (st0, c0) →
  users st0 = users st ∧ games st0 = games st ∧ sessions st0 = sessions st ∧
  next_user_id st0 = next_user_id st ∧ next_game_id st0 = next_game_id st.
Proof. intros H. apply load_spec in H as (?&?&?&?&?&_). done. Qed.

(** A request without a logged-in session to a route that asks for
    one. *)
Lemma serve_anonymous srv route e st req :
  needs_login route = true →
  identity st (cookie req) = None →
  serve L srv route e st req =
    (fst (load st (cookie req)), answer 401 (body_error "not_authenticated") None).
Proof.
  intros Hroute Hanon.
  destruct (load st (cookie req)) as [st0 c0] eqn:E0.
  pose proof (load_identity _ _ _ _ E0) as Hid. rewrite Hanon in Hid.
  apply (serve_untouched srv route e st req st0 c0 not_authenticated E0).
  destruct route; try done.
  - rewrite handle_me. unfold me. by rewrite Hid.
  - rewrite handle_import. unfold import, requireAuth. by rewrite Hid.
  - rewrite handle_games. unfold list_games, requireAuth. by rewrite Hid.
Qed.

(** X1. [requireAuth], and the test of [GET /api/me]: without a logged-in
    session the answer is 401 [not_authenticated]; nothing is stored and no
    cookie is sent. *)
Theorem anonymous_is_401 srv route e st req st' resp :
  needs_login route = true →
  identity st (cookie req) = None →
  serve L srv route e st req = (st', resp) →
  resp = answer 401 (body_error "not_authenticated") None ∧
  users st' = users st ∧ games st' = games st ∧ sessions st' = sessions st.
Proof.
  intros Hroute Hanon H.
  rewrite (serve_anonymous srv route e st req Hroute Hanon) in H.
  injection H as <- <-.
  destruct (load st (cookie req)) as [st0 c0] eqn:E0.
  apply load_frame in E0 as (?&?&?&_). done.
Qed.

(** X2. The payload check of the import: a logged-in request whose [games] is
    not an array is answered 400 [invalid_payload] and changes nothing. *)
Theorem import_rejects_non_array srv e st req uid g st' resp :
  identity st (cookie req) = Some uid →
  payload_games (body req) = Some g → Js.isArray g = false →
  serve L srv POST_import e st req = (st', resp) →
  resp = answer 400 (body_error "invalid_payload") None ∧ st' = st.
Proof.
  intros Hid Hg Harr H.
  destruct (load_logged_in _ _ _ Hid) as (sid & s & _ & _ & E0).
  pose proof (load_identity _ _ _ _ E0) as Hu. rewrite Hid in Hu.
  assert (E1 : handle L srv POST_import e st
                 {| sessionID := sid; session := Some s |} (body req)
               = (st, {| sessionID := sid; session := Some s |},
                  reply 400 (body_error "invalid_payload"))).
  { rewrite handle_import. unfold import, requireAuth. rewrite Hu.
    unfold payload_games in Hg. rewrite Hg.
    destruct (negb (Js.truthy (Js.or (body req) (JObj [])))); [done|].
    by destruct g. }
  rewrite (serve_untouched _ _ _ _ _ _ _ _ E0 E1) in H. by injection H as <- <-.
Qed.

(** The routes that leave the session of the request alone. *)
Lemma handle_keeps_session srv route e st c b st' c' r :
  replaces_session route = false →
  handle L srv route e st c b = (st', c', r) →
  c' = c ∧ same_sessions st st' ∧ users st' = users st ∧
  next_user_id st' = next_user_id st.
Proof.
  intros Hroute H.
  assert (Hsame : same_sessions st st) by done.
  destruct route; try done.
  - destruct srv; simpl in H; by simplify_eq.
  - rewrite handle_me in H. unfold me in H. repeat case_match; by simplify_eq.
  - rewrite handle_import in H. unfold import, requireAuth in H.
    destruct (session_user c) as [uid|]; [|by simplify_eq].
    destruct (negb (Js.truthy (Js.or b (JObj [])))); [by simplify_eq|].
    destruct (Js.get (Js.or b (JObj [])) "games") as [[| | | | |gs|]|];
      try (by simplify_eq).
    destruct (insertGamesBulk L srv e st uid gs) as [st1 ok] eqn:E.
    assert (same_sessions st st1 ∧ users st1 = users st ∧
            next_user_id st1 = next_user_id st) as (?&?&?).
    { destruct srv; simpl in E;
        unfold PgOnly.insertGamesBulk, Dual.insertGamesBulk in E;
        by apply transaction_frame in E as (?&?&?). }
    destruct ok; by simplify_eq.
  - rewrite handle_games in H. unfold list_games, requireAuth in H.
    repeat case_match; by simplify_eq.
Qed.

(** The handlers of the [GET] routes return the state they were given. *)
Lemma handle_get srv route e st c b st' c' r :
  is_get route = true →
  handle L srv route e st c b = (st', c', r) → st' = st ∧ c' = c.
Proof.
  intros Hroute H. destruct route; try done.
  - destruct srv; simpl in H; by simplify_eq.
  - rewrite handle_me in H. unfold me in H. repeat case_match; by simplify_eq.
  - rewrite handle_games in H. unfold list_games, requireAuth in H.
    repeat case_match; by simplify_eq.
Qed.

(** X3. [GET /api/status], [GET /api/me] and [GET /api/games] read only: the
    tables and the session store are as before and no cookie is sent, so a
    visitor without a session gets none ([saveUninitialized: false]). *)
Theorem get_routes_read_only srv route e st req st' resp :
  is_get route = true →
  serve L srv route e st req = (st', resp) →
  users st' = users st ∧ next_user_id st' = next_user_id st ∧
  games st' = games st ∧ next_game_id st' = next_game_id st ∧
  sessions st' = sessions st ∧
  set_cookie resp = None ∧ clear_cookie resp = false.
Proof.
  intros Hroute H.
  destruct (load st (cookie req)) as [st0 c0] eqn:E0.
  destruct (handle L srv route e st0 c0 (body req)) as [[st1 c1] rep] eqn:E1.
  destruct (handle_get _ _ _ _ _ _ _ _ _ Hroute E1) as [-> ->].
  assert (r_clear_cookie rep = false) as Hclear.
  { destruct route; try done.
    - destruct srv; simpl in E1; by simplify_eq.
    - rewrite handle_me in E1. unfold me in E1. repeat case_match; by simplify_eq.
    - rewrite handle_games in E1. unfold list_games, requireAuth in E1.
      repeat case_match; by simplify_eq. }
  rewrite (serve_untouched _ _ _ _ _ _ _ _ E0 E1) in H. injection H as <- <-.
  apply load_frame in E0 as (?&?&?&?&?). done.
Qed.

End with_lib.
End Guard.

(** ** Login and logout at their edges *)

Module Edges.
Import ExpressSession Handlers SessionFacts HandlerFacts Inversion Regeneration
  RegisterFailure LoginFailure Guard.
Section with_lib.
Context (L : Lib).

Lemma find_after_load e st ck st0 c0 u :
  load st ck = (st0, c0) →
  Db.findUserByName L e st0 u = Db.findUserByName L e st u.
Proof.
  intros E0. apply load_frame in E0 as (Hu&_). unfold Db.findUserByName.
  by rewrite Hu.
Qed.

(** X4. [POST /api/login] with a user name or a password that is missing or
    falsy is answered 400; the tables and the session store are as before
    and no cookie is sent. *)
Theorem login_requires_credentials srv e st req u p st' resp :
  credentials (body req) = Some (u, p) →
  Js.truthy u && Js.truthy p = false →
  serve L srv POST_login e st req = (st', resp) →
  resp = answer 400 (body_error "username_and_password_required") None ∧
  users st' = users st ∧ games st' = games st ∧ sessions st' = sessions st.
Proof.
  intros Hcred Hbad H.
  destruct (load st (cookie req)) as [st0 c0] eqn:E0.
  assert (E1 : handle L srv POST_login e st0 c0 (body req) = (st0, c0, required)).
  { rewrite handle_login. unfold login. rewrite Hcred.
    by destruct (Js.truthy u), (Js.truthy p). }
  rewrite (serve_untouched L _ _ _ _ _ _ _ _ E0 E1) in H. injection H as <- <-.
  apply load_frame in E0 as (?&?&?&_). done.
Qed.

(** X5. The login handler tests the password for truthiness only.  A password
    that is truthy and not a string reaches [bcrypt.compare] when the user
    exists, and the answer is 500 [internal]; when there is no such user it
    is 401.  The two cases, alike for a string, are told apart. *)
Theorem login_non_string_password srv e st req u p :
  credentials (body req) = Some (u, p) →
  Js.truthy u = true → Js.truthy p = true → Js.is_string p = false →
  (Db.findUserByName L e st u = Some None →
   snd (serve L srv POST_login e st req) = refused) ∧
  (∀ user, Db.findUserByName L e st u = Some (Some user) →
   snd (serve L srv POST_login e st req) = answer 500 (body_error "internal") None).
Proof.
  intros Hcred Hu Hp Hstr. split.
  - intros Hnone. apply (login_refused L srv e st req u p); auto.
  - intros user Hsome.
    destruct (load st (cookie req)) as [st0 c0] eqn:E0.
    rewrite (serve_untouched L srv POST_login e st req st0 c0 internal E0);
      [reflexivity|].
    rewrite handle_login. unfold login.
    rewrite Hcred, Hu, Hp, (find_after_load _ _ _ _ _ _ E0), Hsome. simpl.
    by destruct p.
Qed.

(** X6. [POST /api/logout] asks for no login.  When the store destroys the
    session the answer is 200 [{ok: true}] with the cookie cleared, the
    session of the cookie is gone and every other session is as before. *)
Theorem logout_destroys_session srv e st req st' resp :
  wf st → fail_destroy e = false →
  serve L srv POST_logout e st req = (st', resp) →
  resp = logged_out ∧ users st' = users st ∧ games st' = games st ∧
  ∀ sid, sessions st' !! sid =
           if bool_decide (cookie req = Some sid) then None else sessions st !! sid.
Proof.
  intros Hwf He. unfold serve.
  destruct (load st (cookie req)) as [st0 c0] eqn:E0.
  rewrite handle_logout. unfold logout, destroy, finish, store_destroy.
  rewrite He. simpl. intros [= <- <-]. simpl.
  apply load_spec in E0 as (Hu&_&Hg&_&Hs&s0&_&Hcase).
  split; [done|]. split; [done|]. split; [done|]. intros sid. rewrite Hs.
  destruct Hcase as [(Hck&_&_)|(Hid&_&_&Hfresh)].
  - rewrite Hck. destruct (decide (sid = sessionID c0)) as [->|Hne].
    + rewrite bool_decide_eq_true_2 by done. apply lookup_delete_eq.
    + rewrite bool_decide_eq_false_2 by congruence.
      by rewrite !lookup_delete_ne.
  - case_bool_decide as Hck.
    + rewrite !lookup_delete_None. right. right. by apply Hfresh.
    + destruct (decide (sid = sessionID c0)) as [->|Hne].
      * rewrite lookup_delete_eq. symmetry.
        destruct (sessions st !! sessionID c0) eqn:E; [|done].
        assert (sessionID c0 < next_sid st) by (apply Hwf; by rewrite E). lia.
      * by rewrite !lookup_delete_ne.
Qed.

(** X7. When the store cannot destroy the session the logout is answered 500
    [logout_failed], the cookie is not cleared and the store is as before:
    the session stays valid. *)
Theorem failed_logout_keeps_session srv e st req st' resp :
  fail_destroy e = true →
  serve L srv POST_logout e st req = (st', resp) →
  resp = answer 500 (body_error "logout_failed") None ∧
  users st' = users st ∧ games st' = games st ∧ sessions st' = sessions st.
Proof.
  intros He. unfold serve.
  destruct (load st (cookie req)) as [st0 c0] eqn:E0.
  rewrite handle_logout. unfold logout, destroy, finish, store_destroy.
  rewrite He. simpl. rewrite ?He. intros [= <- <-].
  apply load_frame in E0 as (?&?&?&_). done.
Qed.

Lemma find_same L' e st u :
  Db.text_param L' u = Db.text_param L u →
  Db.findUserByName L' e st u = Db.findUserByName L e st u.
Proof. intros H. unfold Db.findUserByName. by rewrite H. Qed.

Lemma create_user_same L' e st c u p :
  same_bcrypt L L' → Db.text_param L' u = Db.text_param L u →
  create_user L' e st c u p = create_user L e st c u p.
Proof.
  intros [Hhash _] Ht. unfold create_user. rewrite (find_same L' e st u Ht).
  destruct (Db.findUserByName L e st u) as [[user|]|]; try done.
  assert (hash_password L' e p = hash_password L e p) as ->.
  { unfold hash_password. destruct p; try done. by rewrite Hhash. }
  destruct (hash_password L e p) as [h|]; [|done].
  unfold Db.insertUser. by rewrite Ht.
Qed.

Lemma login_same L' e st c b :
  same_bcrypt L L' →
  (∀ u p, credentials b = Some (u, p) → Js.truthy u = true →
          Db.text_param L' u = Db.text_param L u) →
  login L' e st c b = login L e st c b.
Proof.
  intros [_ Hcmp] Ht. unfold login.
  destruct (credentials b) as [[u p]|]; [|done].
  destruct (Js.truthy u) eqn:Eu; [|done].
  destruct (Js.truthy p); [|done]. simpl.
  rewrite (find_same L' e st u (Ht u p eq_refl Eu)).
  destruct (Db.findUserByName L e st u) as [[user|]|]; try done.
  assert (compare L' p (u_password_hash user) = compare L p (u_password_hash user))
    as ->; [|done].
  unfold compare. destruct p; try done. by rewrite Hcmp.
Qed.

(** X8. The two servers answer alike, and leave the same state, on the routes
    they implement with the same code; for [register] that is when a truthy
    user name and password are strings, which only [src/server.js]
    checks.  Both run with the same bcrypt.  In Postgres mode both send
    their parameters through node-postgres.  In SQLite mode the parameters
    of [src/unnamed/part_000] go through better-sqlite3, which throws on
    values that node-postgres sends as text: there the two agree when the
    user name is a string, and the listing, whose dates SQLite keeps as
    text, is left out of the comparison. *)
Theorem servers_agree L' usePostgres route e st req :
  shared_route route (body req) = true →
  same_bcrypt L L' →
  (usePostgres = true → ∀ v, bind_text L' v = bind_text L v) →
  (usePostgres = false → route ≠ GET_games ∧ string_name (body req) = true) →
  serve L ServerPg route e st req = serve L' (ServerDual usePostgres) route e st req.
Proof.
  intros Hshared Hbcrypt Hpg Hsqlite. unfold serve.
  destruct (load st (cookie req)) as [st0 c0].
  assert (Htext : ∀ u p, credentials (body req) = Some (u, p) → Js.truthy u = true →
                    Db.text_param L' u = Db.text_param L u).
  { intros u p Hcred Hu. unfold Db.text_param. destruct u; try done.
    all: destruct usePostgres; [by rewrite Hpg|].
    all: destruct (Hsqlite eq_refl) as [_ Hname]; unfold string_name in Hname.
    all: rewrite Hcred, Hu in Hname; done. }
  assert (handle L ServerPg route e st0 c0 (body req) =
          handle L' (ServerDual usePostgres) route e st0 c0 (body req)) as ->; [|done].
  destruct route; try done; simpl in *.
  - unfold PgOnly.register, Dual.register.
    destruct (credentials (body req)) as [[u p]|]; [|done].
    destruct (Js.truthy u) eqn:Eu, (Js.truthy p), (Js.is_string u), (Js.is_string p);
      try done.
    simpl. symmetry. apply create_user_same; [done|]. by apply (Htext u p).
  - symmetry. by apply login_same.
Qed.

End with_lib.
End Edges.

(** ** The wrappers of the [users] table *)

Module Wrappers.
Import Handlers HandlerFacts Credentials.
Section with_lib.
Context (L : Lib).

(** X9. [insertUser] and [findUserByName] fit together: a row that was
    inserted is found under its name, with the id the insert returned and
    the hash it was given; the name was free before; and the lookup of every
    other name answers as before. *)
Theorem insert_then_find e st name h st' id e' :
  Db.insertUser L e st name h = Some (st', id) →
  fail_find_user e' = false →
  ∃ n, Db.text_param L name = Some n ∧
       Db.findUserByName L e' st name = Some None ∧
       Db.findUserByName L e' st' name =
         Some (Some {| u_id := id; u_username := n; u_password_hash := h |}) ∧
       ∀ other m, Db.text_param L other = Some m → m ≠ n →
                  Db.findUserByName L e' st' other = Db.findUserByName L e' st other.
Proof.
  intros H He. apply insertUser_spec in H as (n & Hn & Hfree & Hu & _).
  exists n. split; [done|]. unfold Db.findUserByName. rewrite He, Hn, Hu.
  apply find_existsb in Hfree. split; [by rewrite Hfree|]. split.
  - rewrite find_app_None by done. simpl. by rewrite String.eqb_refl.
  - intros other m -> Hne. f_equal.
    destruct (List.find (λ u, String.eqb (u_username u) m) (users st)) as [row|] eqn:Ef.
    + by apply find_app_Some.
    + rewrite find_app_None by done. simpl.
      destruct (String.eqb_spec n m); [congruence | done].
Qed.

End with_lib.
End Wrappers.

(** ** Which request changes which table *)

Module Tables.
Import ExpressSession Handlers SessionFacts HandlerFacts Inversion Regeneration
  RegisterFailure Guard BulkImport.
Section with_lib.
Context (L : Lib).

Lemma finish_frame e st c0 c r st' resp :
  finish e st c0 c r = (st', resp) →
  users st' = users st ∧ next_user_id st' = next_user_id st ∧
  games st' = games st ∧ next_game_id st' = next_game_id st.
Proof.
  unfold finish, store_destroy. intros H.
  destruct (session c); [destruct (isModified c0 c)|destruct (fail_destroy e)];
    by simplify_eq.
Qed.

(** What an import does to the table. *)
Lemma import_inv srv e st c b st' c' r :
  import (insertGamesBulk L srv) e st c b = (st', c', r) →
  c' = c ∧
  ((games st' = games st ∧ r_status r ≠ 200) ∨
   (∃ uid gs rows,
      session_user c = Some uid ∧ payload_games b = Some (JArr gs) ∧
      insertGamesBulk L srv e st uid gs = (st', true) ∧
      r = reply 200 (body_imported (length gs)) ∧
      games st' = games st ++ rows ∧ length rows = length gs ∧
      Forall (λ row, g_user_id row = uid) rows)).
Proof.
  unfold import, requireAuth, payload_games. intros H.
  destruct (session_user c) as [uid|] eqn:Eu; [|by simplify_eq; auto].
  destruct (negb (Js.truthy (Js.or b (JObj [])))); [by simplify_eq; auto|].
  destruct (Js.get (Js.or b (JObj [])) "games") as [[| | | | |gs|]|];
    try (by simplify_eq; auto).
  destruct (insertGamesBulk L srv e st uid gs) as [st1 ok] eqn:E.
  pose proof E as E'.
  rewrite insertGamesBulk_unfold in E'. unfold transaction in E'.
  destruct (run_transaction _ _ _ _ _) as [cn ok'] eqn:Et.
  destruct (run_transaction_spec L _ _ _ _ _ _ _ Et eq_refl) as [_ Hcase].
  injection E' as <- <-.
  destruct Hcase as [(-> & rows & Hc & Hlen & Hall)|(-> & Hc)];
    injection H as <- <- <-; (split; [done|]).
  - right. exists uid, gs, rows. simpl. rewrite Hc. simpl. done.
  - left. simpl. by rewrite Hc.
Qed.

Lemma handle_games_frame srv route e st c b st' c' r :
  route ≠ POST_import →
  handle L srv route e st c b = (st', c', r) → games st' = games st.
Proof.
  intros Hroute H. destruct route; try done.
  - destruct srv; simpl in H; by simplify_eq.
  - rewrite handle_me in H. unfold me in H. repeat case_match; by simplify_eq.
  - apply register_inv in H as [(->&_)|(u&p&_&_&_&Hcu)]; [done|].
    apply create_user_inv in Hcu
      as [(->&_)|(stA&id&h&c2&err&_&_&Hins&Hreg&_)]; [done|].
    apply insertUser_spec in Hins as (_&_&_&_&_&_&HgA&_).
    apply regenerate_spec in Hreg as (_&_&Hg&_). congruence.
  - rewrite handle_login in H.
    apply login_inv in H as [(->&_)|(?&?&?&?&?&_&_&_&Hreg&_)]; [done|].
    by apply regenerate_spec in Hreg as (_&_&->&_).
  - rewrite handle_logout in H. unfold logout in H.
    destruct (destroy e st c) as [[st1 c1] err] eqn:E.
    apply destroy_spec in E as (_&_&Hg&_). destruct err; by simplify_eq.
  - rewrite handle_games in H. unfold list_games, requireAuth in H.
    repeat case_match; by simplify_eq.
Qed.

(** What a request does to the [games] table. *)
Lemma serve_games srv route e st req st' resp :
  serve L srv route e st req = (st', resp) →
  games st' = games st ∨
  route = POST_import ∧ status resp = 200 ∧
  ∃ uid gs rows,
    identity st (cookie req) = Some uid ∧
    payload_games (body req) = Some (JArr gs) ∧
    resp_body resp = body_imported (length gs) ∧
    games st' = games st ++ rows ∧ length rows = length gs ∧
    Forall (λ row, g_user_id row = uid) rows.
Proof.
  unfold serve. intros H.
  destruct (load st (cookie req)) as [st0 c0] eqn:E0.
  destruct (handle L srv route e st0 c0 (body req)) as [[st1 c1] rep] eqn:E1.
  pose proof (finish_reply _ _ _ _ _ _ _ H) as (Hst&Hbody&_).
  pose proof (load_identity _ _ _ _ E0) as Hid.
  apply finish_frame in H as (_&_&Hg&_).
  apply load_frame in E0 as (_&Hg0&_).
  rewrite Hg, Hst, Hbody, <- Hg0. clear Hg Hst Hbody Hg0.
  destruct (decide (route = POST_import)) as [->|Hne].
  - rewrite handle_import in E1.
    apply import_inv in E1 as [_ [[? _]|(uid&gs&rows&Hu&Hp&_&->&Hg&Hlen&Hall)]];
      [by left|].
    right. split; [done|]. split; [done|]. exists uid, gs, rows.
    rewrite <- Hid. done.
  - left. by eapply handle_games_frame.
Qed.

(** X10. The [users] table changes only by a registration that got as far as
    the insert, and then by one row at its end; the [games] table changes
    only by an import that is answered 200, and then by one row of the
    logged-in user for each record of the batch, at its end. *)
Theorem tables_change_by_their_route srv route e st req st' resp :
  serve L srv route e st req = (st', resp) →
  (users st' = users st ∨
   route = POST_register ∧
   (status resp = 201 ∨ resp_body resp = body_error "session_error") ∧
   ∃ u, users st' = users st ++ [u]) ∧
  (games st' = games st ∨
   route = POST_import ∧ status resp = 200 ∧
   ∃ uid gs rows,
     identity st (cookie req) = Some uid ∧
     payload_games (body req) = Some (JArr gs) ∧
     resp_body resp = body_imported (length gs) ∧
     games st' = games st ++ rows ∧ length rows = length gs ∧
     Forall (λ row, g_user_id row = uid) rows).
Proof.
  intros H. split; [|by eapply serve_games].
  unfold serve in H.
  destruct (load st (cookie req)) as [st0 c0] eqn:E0.
  destruct (handle L srv route e st0 c0 (body req)) as [[st1 c1] rep] eqn:E1.
  pose proof (finish_reply _ _ _ _ _ _ _ H) as (Hst&Hbody&_).
  apply finish_frame in H as (Hu&_).
  apply load_frame in E0 as (Hu0&_).
  rewrite Hu, Hst, Hbody, <- Hu0. clear Hu Hst Hbody Hu0.
  destruct (decide (route = POST_register)) as [->|Hne].
  - apply register_inv in E1 as [(->&_)|(u&p&_&_&_&Hcu)]; [by left|].
    apply create_user_inv in Hcu
      as [(->&_)|(stA&id&h&c2&err&_&_&Hins&Hreg&Hcase)]; [by left|].
    apply insertUser_spec in Hins as (n&_&_&HuA&_).
    apply regenerate_spec in Hreg as (HuB&_).
    right. split; [done|]. split.
    + destruct Hcase as [(_&_&->)|(_&_&->)]; simpl; auto.
    + eexists. by rewrite HuB, HuA.
  - left. destruct route; try done.
    all: try (by apply handle_keeps_session in E1 as (_&_&?&_)).
    + rewrite handle_login in E1.
      apply login_inv in E1 as [(->&_)|(?&?&?&?&?&_&_&_&Hreg&_)]; [done|].
      by apply regenerate_spec in Hreg as (->&_).
    + rewrite handle_logout in E1. unfold logout in E1.
      destruct (destroy e st0 c0) as [[stD cD] err] eqn:E.
      apply destroy_spec in E as (?&_). destruct err; by simplify_eq.
Qed.

Lemma filter_owned_app uid owner (rows l : list Game) :
  Forall (λ row, g_user_id row = uid) rows → owner ≠ uid →
  List.filter (owned_by owner) (l ++ rows) = List.filter (owned_by owner) l.
Proof.
  intros Hall Hne. rewrite List.filter_app.
  assert (List.filter (owned_by owner) rows = []) as ->; [|apply app_nil_r].
  induction Hall as [|row rows Hrow _ IH]; [done|]. simpl.
  unfold owned_by at 1. rewrite Hrow.
  destruct (Nat.eqb_spec uid owner); [congruence | done].
Qed.

(** X11. What [GET /api/games] shows a user changes only by an import of that
    user: no request of anybody else, and no other route, adds to it,
    removes from it or reorders it. *)
Theorem games_of_others_untouched srv route e st req owner e' :
  route ≠ POST_import ∨ identity st (cookie req) ≠ Some owner →
  Db.getGamesByUser e' (fst (serve L srv route e st req)) owner =
  Db.getGamesByUser e' st owner.
Proof.
  intros Hother.
  destruct (serve L srv route e st req) as [st' resp] eqn:H. simpl.
  apply serve_games in H as [Hg|(->&_&uid&gs&rows&Hid&_&_&Hg&_&Hall)].
  - unfold Db.getGamesByUser. by rewrite Hg.
  - destruct Hother as [?|Hne]; [done|].
    unfold Db.getGamesByUser. rewrite Hg.
    change (λ r : Game, g_user_id r =? owner) with (owned_by owner).
    rewrite (filter_owned_app uid); [done | done | congruence].
Qed.

End with_lib.
End Tables.

(** ** One session is no business of another request *)

Module Isolation.
Import ExpressSession Handlers SessionFacts HandlerFacts Inversion Regeneration
  RegisterFailure Guard Reachable.
Section with_lib.
Context (L : Lib).

(** A handler touches the store under the identifier of its request
    only. *)
Lemma handle_store_others srv route e st c b st' c' r sid :
  handle L srv route e st c b = (st', c', r) →
  sid ≠ sessionID c → sessions st' !! sid = sessions st !! sid.
Proof.
  intros H Hne.
  destruct (replaces_session route) eqn:Hroute.
  - destruct route; try done.
    + apply register_inv in H as [(->&_)|(u&p&_&_&_&Hcu)]; [done|].
      apply create_user_inv in Hcu
        as [(->&_)|(stA&id&h&c2&err&_&_&Hins&Hreg&_)]; [done|].
      apply insertUser_spec in Hins as (_&_&_&_&_&_&_&_&[HsA _]).
      apply regenerate_spec in Hreg as (_&_&_&_&_&_&Hs&_).
      rewrite Hs, HsA. destruct err; [done|]. by apply lookup_delete_ne.
    + rewrite handle_login in H.
      apply login_inv in H as [(->&_)|(?&?&?&?&err&_&_&_&Hreg&_)]; [done|].
      apply regenerate_spec in Hreg as (_&_&_&_&_&_&Hs&_).
      rewrite Hs. destruct err; [done|]. by apply lookup_delete_ne.
    + rewrite handle_logout in H. unfold logout in H.
      destruct (destroy e st c) as [[st1 c1] err] eqn:E.
      apply destroy_spec in E as (_&_&_&_&_&_&Hs&_).
      assert (st' = st1) as -> by (destruct err; by simplify_eq).
      rewrite Hs. destruct err; [done|]. by apply lookup_delete_ne.
  - apply handle_keeps_session in H as (_&[Hs _]&_); [|done]. by rewrite Hs.
Qed.

(** A request that does not carry the cookie [sid] leaves the session
    under [sid] as it is. *)
Lemma serve_other_cookie srv route e st req st' resp sid :
  wf st → sid < next_sid st → cookie req ≠ Some sid →
  serve L srv route e st req = (st', resp) →
  sessions st' !! sid = sessions st !! sid.
Proof.
  intros Hwf Hold Hck H. unfold serve in H.
  destruct (load st (cookie req)) as [st0 c0] eqn:E0.
  destruct (handle L srv route e st0 c0 (body req)) as [[st1 c1] rep] eqn:E1.
  apply load_spec in E0 as (_&_&_&_&Hs0&s0&Hc0&Hcase).
  assert (Hne0 : sid ≠ sessionID c0).
  { destruct Hcase as [(Heq&_&_)|(Hid&_&_&_)]; [congruence | lia]. }
  assert (Hn0 : next_sid st ≤ next_sid st0).
  { destruct Hcase as [(_&_&->)|(_&_&->&_)]; lia. }
  pose proof (handle_store_others _ _ _ _ _ _ _ _ _ sid E1 Hne0) as Hs1.
  apply handle_session in E1 as [_ Hstep].
  assert (Hne1 : sid ≠ sessionID c1).
  { destruct Hstep as [->|[[_ ->]|Hfresh]]; [done | done | lia]. }
  rewrite <- Hs0, <- Hs1.
  unfold finish, store_destroy in H.
  destruct (session c1) as [s1|].
  - destruct (isModified c0 c1); injection H as <- <-; [|done].
    simpl. by apply lookup_insert_ne.
  - destruct (fail_destroy e); injection H as <- <-; [done|].
    simpl. by apply lookup_delete_ne.
Qed.

(** A request to a route that neither regenerates nor destroys leaves the
    whole store as it is. *)
Lemma serve_keeps_store srv route e st req st' resp :
  replaces_session route = false →
  serve L srv route e st req = (st', resp) →
  sessions st' = sessions st.
Proof.
  intros Hroute H. unfold serve in H.
  destruct (load st (cookie req)) as [st0 c0] eqn:E0.
  destruct (handle L srv route e st0 c0 (body req)) as [[st1 c1] rep] eqn:E1.
  apply handle_keeps_session in E1 as (->&[Hs _]&_); [|done].
  apply load_spec in E0 as (_&_&_&_&Hs0&s0&Hc0&_).
  rewrite (finish_untouched e st1 c0 rep s0 Hc0) in H. injection H as <- <-.
  congruence.
Qed.

(** Over a sequence of requests none of which carries the cookie [sid] to
    register, login or logout, the session under [sid] stays as it is. *)
Lemma run_keeps_session srv trace : ∀ st sid,
  wf st → sid < next_sid st →
  forallb (λ step, negb (ends_session sid step)) trace = true →
  sessions (run L srv trace st) !! sid = sessions st !! sid.
Proof.
  induction trace as [|[[r e] req] trace IH]; intros st sid Hwf Hold Hall; [done|].
  simpl in Hall. apply andb_true_iff in Hall as [Hstep Hall].
  simpl. rewrite IH; [| by apply wf_serve | | done].
  - destruct (serve L srv r e st req) as [st1 resp] eqn:E. simpl.
    unfold ends_session in Hstep. simpl in Hstep.
    apply negb_true_iff, andb_false_iff in Hstep as [Hck|Hroute].
    + apply bool_decide_eq_false in Hck. by eapply serve_other_cookie.
    + by erewrite serve_keeps_store.
  - destruct (serve L srv r e st req) as [st1 resp] eqn:E. simpl.
    apply serve_grows in E as [Hle _]. lia.
Qed.

(** X12. A session is no business of another request: whatever a request does
    that does not carry its cookie, and whatever a request to a route
    other than register, login and logout does, the session is afterwards
    what it was. *)
Theorem sessions_are_isolated srv route e st req sid :
  wf st → sid < next_sid st →
  cookie req ≠ Some sid ∨ replaces_session route = false →
  sessions (fst (serve L srv route e st req)) !! sid = sessions st !! sid.
Proof.
  intros Hwf Hold Hwhy.
  destruct (serve L srv route e st req) as [st' resp] eqn:H. simpl.
  destruct Hwhy as [Hck|Hroute].
  - by eapply serve_other_cookie.
  - by erewrite serve_keeps_store.
Qed.

(** X13. A cookie is set only by a registration or a login that regenerated the
    session, and it carries the regenerated identifier, one that was
    generated during the request: no other route, and no registration or
    login that is refused, hands out a session identifier. *)
Theorem cookies_come_from_regenerate srv route e st req st' resp sid :
  serve L srv route e st req = (st', resp) →
  set_cookie resp = Some sid →
  (route = POST_register ∨ route = POST_login) ∧
  (status resp = 201 ∨ status resp = 200 ∨
   resp_body resp = body_error "session_error") ∧
  next_sid st ≤ sid ∧ sid < next_sid st' ∧ clear_cookie resp = false.
Proof.
  intros H Hck. unfold serve in H.
  destruct (load st (cookie req)) as [st0 c0] eqn:E0.
  destruct (handle L srv route e st0 c0 (body req)) as [[st1 c1] rep] eqn:E1.
  pose proof (load_spec _ _ _ _ E0) as (_&_&_&_&_&s0&Hc0&Hcase).
  assert (Hn0 : next_sid st ≤ next_sid st0).
  { destruct Hcase as [(_&_&->)|(_&_&->&_)]; lia. }
  assert (Hsame : c1 = c0 → False).
  { intros ->. rewrite (finish_untouched e st1 c0 rep s0 Hc0) in H.
    injection H as <- <-. done. }
  assert (Hfresh : ∀ stA c2 err,
            same_sessions st0 stA → regenerate e stA c0 = (st1, c2, err) →
            sessionID c1 = sessionID c2 → r_clear_cookie rep = false →
            next_sid st ≤ sid ∧ sid < next_sid st' ∧ clear_cookie resp = false).
  { intros stA c2 err [_ HnA] Hreg Hid Hclear.
    apply regenerate_spec in Hreg as (_&_&_&_&Hn1&_&_&Hid2&_).
    unfold finish, store_destroy in H.
    destruct (session c1) as [s1|].
    - destruct (isModified c0 c1); injection H as <- <-; [|done].
      simpl in *. injection Hck as <-. rewrite Hid, Hid2, Hn1, HnA.
      split; [lia|]. split; [lia | done].
    - destruct (fail_destroy e); injection H as <- <-; done. }
  destruct route.
  - exfalso. apply Hsame. by apply (handle_get L) in E1 as [_ ->].
  - exfalso. apply Hsame. by apply (handle_get L) in E1 as [_ ->].
  - split; [by left|].
    apply register_inv in E1 as [(_&->&_)|(u&p&_&_&_&Hcu)]; [done|].
    apply create_user_inv in Hcu
      as [(_&->&_)|(stA&id&h&c2&err&_&_&Hins&Hreg&Hcase')]; [done|].
    apply insertUser_spec in Hins as (_&_&_&_&_&_&_&_&HsameA).
    pose proof (finish_reply _ _ _ _ _ _ _ H) as (Hst&Hbody&_).
    rewrite Hst, Hbody.
    destruct Hcase' as [(_&->&->)|(_&->&->)];
      (split; [simpl; auto|]); by apply (Hfresh stA c2 err HsameA Hreg).
  - split; [by right|]. rewrite handle_login in E1.
    apply login_inv in E1 as [(_&->&_)|(u&p&user&c2&err&_&_&_&Hreg&Hcase')];
      [done|].
    pose proof (finish_reply _ _ _ _ _ _ _ H) as (Hst&Hbody&_).
    rewrite Hst, Hbody.
    destruct Hcase' as [(_&->&->)|(_&->&->)];
      (split; [simpl; auto|]);
      by apply (Hfresh st0 c2 err (conj eq_refl eq_refl) Hreg).
  - exfalso. rewrite handle_logout in E1. unfold logout in E1.
    destruct (destroy e st0 c0) as [[stD cD] err] eqn:ED.
    apply destroy_spec in ED as (_&_&_&_&_&_&_&_&Hnone).
    assert (session c1 = None) as Hc1 by (destruct err; by simplify_eq).
    unfold finish in H. rewrite Hc1 in H. injection H as <- <-. done.
  - exfalso. apply Hsame. by apply handle_keeps_session in E1 as (->&_).
  - exfalso. apply Hsame. by apply (handle_get L) in E1 as [_ ->].
Qed.

(** X14. A logout ends every access: after a logout that answered [{ok: true}],
    and whatever requests the server handles in between, a request with the
    cookie of the logout to [GET /api/me], [POST /api/import] or
    [GET /api/games] is answered 401 [not_authenticated].  The cookie, when
    there is one, carries an identifier the server generated. *)
Theorem logout_ends_every_access srv e st req st1 r1 trace route e2 b2 :
  (∀ c, cookie req = Some c → c < next_sid st) →
  serve L srv POST_logout e st req = (st1, r1) →
  resp_body r1 = body_ok →
  needs_login route = true →
  snd (serve L srv route e2 (run L srv trace st1)
         {| cookie := cookie req; body := b2 |})
  = answer 401 (body_error "not_authenticated") None.
Proof.
  intros Hissued H Hok Hroute.
  rewrite serve_anonymous; [done | done |]. simpl.
  unfold identity. destruct (cookie req) as [c|] eqn:Hc; [|done]. simpl.
  pose proof (Logout.logout_removes L _ _ _ _ _ _ H Hok c Hc) as Hgone.
  pose proof (serve_grows L _ _ _ _ _ _ _ H) as [Hle _].
  destruct (run_grows L srv trace st1) as [_ Hk].
  destruct (sessions (run L srv trace st1) !! c) eqn:E; [|done].
  destruct (Hk c) as [[x Hx]|[? ?]]; [by rewrite E | congruence |].
  specialize (Hissued c eq_refl). lia.
Qed.

End with_lib.
End Isolation.

(** ** The tables and the sessions fit together *)

Module Integrity.
Import ExpressSession Handlers SessionFacts HandlerFacts Inversion Regeneration
  RegisterFailure Credentials Guard Tables Isolation Reachable.
Section with_lib.
Context (L : Lib).

Lemma fits_initial : fits initial_state.
Proof.
  split; simpl; try done; try constructor.
Qed.

(** A change of the session store that only drops sessions or stores
    sessions of users of the table. *)
Lemma fits_sessions st st' :
  fits st →
  users st' = users st → next_user_id st' = next_user_id st →
  games st' = games st →
  (∀ sid s, sessions st' !! sid = Some s →
            sessions st !! sid = Some s ∨
            ∀ id, userId s = Some id → ∃ u, u ∈ users st ∧ u_id u = id) →
  fits st'.
Proof.
  intros [Hpos Hids Hdist Hnames Hsess Hgames] Hu Hn Hg Hs.
  split; rewrite ?Hu, ?Hn, ?Hg; try done.
  intros sid s id Hsid Hid. destruct (Hs sid s Hsid) as [Hold|Hnew]; eauto.
Qed.

Lemma not_named name l :
  existsb (λ u, String.eqb (u_username u) name) l = false →
  name ∉ List.map u_username l.
Proof.
  intros Hex Hin. apply list_elem_of_In, in_map_iff in Hin as (u & <- & Hin).
  apply not_true_iff_false in Hex. apply Hex, existsb_exists.
  exists u. split; [done | apply String.eqb_refl].
Qed.

(** [insertUser] keeps the tables fitting: the new row has the next id and
    a name no row had. *)
Lemma fits_insertUser e st name h st' id :
  fits st → Db.insertUser L e st name h = Some (st', id) →
  fits st' ∧ 0 < id ∧ (∃ u, u ∈ users st' ∧ u_id u = id) ∧
  ∀ u, u ∈ users st → u ∈ users st'.
Proof.
  intros [Hpos Hids Hdist Hnames Hsess Hgames] H.
  apply insertUser_spec in H as (n&_&Hfree&Hu&->&Hn&Hg&_&[Hs _]).
  assert (Hsub : ∀ u, u ∈ users st → u ∈ users st').
  { intros u Hin. rewrite Hu. apply elem_of_app. by left. }
  split; [split|].
  - lia.
  - rewrite Hu, Hn. apply Forall_app. split.
    + eapply Forall_impl; [exact Hids|]. simpl. intros u [? ?]. lia.
    + constructor; [simpl; lia | constructor].
  - rewrite Hu, List.map_app. simpl. apply NoDup_app. split; [done|]. split.
    + intros x Hx Hin. apply list_elem_of_singleton in Hin as ->.
      apply list_elem_of_In, in_map_iff in Hx as (u & Heq & Hin).
      apply list_elem_of_In in Hin. rewrite Forall_forall in Hids.
      destruct (Hids u Hin). lia.
    + apply NoDup_singleton.
  - rewrite Hu, List.map_app. simpl. apply NoDup_app. split; [done|]. split.
    + intros x Hx Hin. apply list_elem_of_singleton in Hin as ->.
      by apply (not_named n (users st)).
    + apply NoDup_singleton.
  - intros sid s id. rewrite Hs. intros Hsid Hid.
    destruct (Hsess sid s id Hsid Hid) as (u & Hin & Hu'). eauto.
  - rewrite Hg. eapply Forall_impl; [exact Hgames|]. simpl.
    intros g (u & Hin & Hu'). eauto.
  - split; [done|]. split; [|done].
    eexists. split; [rewrite Hu; apply elem_of_app; right; by left|]. done.
Qed.

Lemma session_user_owned st c uid :
  owned st c → session_user c = Some uid → ∃ u, u ∈ users st ∧ u_id u = uid.
Proof.
  unfold owned, session_user. intros Hown H.
  destruct (session c) as [s|]; [|done].
  destruct (userId s) as [[|n]|] eqn:E; [done| |done].
  injection H as <-. by eapply Hown.
Qed.

Lemma find_user_elem e st name user :
  Db.findUserByName L e st name = Some (Some user) → user ∈ users st.
Proof.
  unfold Db.findUserByName. destruct (fail_find_user e); [done|].
  destruct (Db.text_param L name); [|done]. intros [= H].
  apply find_some in H as [H _]. by apply list_elem_of_In.
Qed.

Lemma owned_empty st c : session c = Some empty_session → owned st c.
Proof. intros Hc s id Hs. rewrite Hc in Hs. by injection Hs as <-. Qed.

Lemma owned_none st c : session c = None → owned st c.
Proof. intros Hc s id Hs. by rewrite Hc in Hs. Qed.

Lemma owned_bind st c id name :
  (∃ u, u ∈ users st ∧ u_id u = id) → owned st (bind c id name).
Proof. intros Hu s id' [= <-] [= <-]. exact Hu. Qed.

Lemma fits_regenerate e st c st' c' err :
  fits st → regenerate e st c = (st', c', err) →
  fits st' ∧ users st' = users st ∧ session c' = Some empty_session.
Proof.
  intros Hfit H. apply regenerate_spec in H as (Hu&Hn&Hg&_&_&_&Hs&_&Hc).
  split; [|done]. apply (fits_sessions st); try done.
  intros sid s. rewrite Hs. destruct err; [by left|].
  intros Hsid. apply lookup_delete_Some in Hsid as [_ ?]. by left.
Qed.

(** The handlers keep the tables and the sessions fitting. *)
Lemma handle_fits srv route e st c b st' c' r :
  fits st → owned st c →
  handle L srv route e st c b = (st', c', r) →
  fits st' ∧ owned st' c'.
Proof.
  intros Hfit Hown H.
  destruct (is_get route) eqn:Hget.
  { by apply handle_get in H as [-> ->]. }
  destruct route; try done.
  - apply register_inv in H as [(->&->&_)|(u&p&_&_&_&Hcu)]; [done|].
    apply create_user_inv in Hcu
      as [(->&->&_)|(stA&id&h&c2&err&_&_&Hins&Hreg&Hcase)]; [done|].
    destruct (fits_insertUser _ _ _ _ _ _ Hfit Hins) as (HfitA&_&Huser&_).
    destruct (fits_regenerate _ _ _ _ _ _ HfitA Hreg) as (HfitB&Hu&Hc2).
    split; [done|].
    destruct Hcase as [(_&->&_)|(_&->&_)].
    + by apply owned_empty.
    + apply owned_bind. by rewrite Hu.
  - rewrite handle_login in H.
    apply login_inv in H as [(->&->&_)|(u&p&user&c2&err&_&Hfind&_&Hreg&Hcase)];
      [done|].
    destruct (fits_regenerate _ _ _ _ _ _ Hfit Hreg) as (HfitB&Hu&Hc2).
    split; [done|].
    destruct Hcase as [(_&->&_)|(_&->&_)].
    + by apply owned_empty.
    + apply owned_bind. rewrite Hu. exists user. split; [|done].
      by eapply find_user_elem.
  - rewrite handle_logout in H. unfold logout in H.
    destruct (destroy e st c) as [[st1 c1] err] eqn:E.
    apply destroy_spec in E as (Hu&Hn&Hg&_&_&_&Hs&_&Hc).
    assert (st' = st1 ∧ c' = c1) as [-> ->] by (destruct err; by simplify_eq).
    split; [|by apply owned_none].
    apply (fits_sessions st); try done.
    intros sid s. rewrite Hs. destruct err; [by left|].
    intros Hsid. apply lookup_delete_Some in Hsid as [_ ?]. by left.
  - rewrite handle_import in H.
    pose proof H as H'.
    apply import_inv in H' as [-> Hcase].
    assert (same_sessions st st' ∧ users st' = users st ∧
            next_user_id st' = next_user_id st) as ([Hs _]&Hu&Hn).
    { rewrite <- handle_import in H.
      by apply handle_keeps_session in H as (_&?&?&?). }
    assert (Hown' : owned st' c) by (unfold owned; by rewrite Hu).
    split; [|done].
    destruct Hfit as [Hpos Hids Hdist Hnames Hsess Hgames].
    split; rewrite ?Hu, ?Hn, ?Hs; try done.
    destruct Hcase as [[-> _]|(uid&gs&rows&Huid&_&_&_&->&_&Hall)]; [done|].
    apply Forall_app. split; [done|].
    destruct (session_user_owned _ _ _ Hown Huid) as (u & Hin & Hid).
    eapply Forall_impl; [exact Hall|]. simpl. intros g ->. eauto.
Qed.

Lemma load_fits st ck st0 c0 :
  fits st → load st ck = (st0, c0) → fits st0 ∧ owned st0 c0.
Proof.
  intros Hfit H.
  apply load_spec in H as (Hu&Hn&Hg&_&Hs&s0&Hc0&Hcase).
  split.
  - apply (fits_sessions st); try done. intros sid s. rewrite Hs. by left.
  - destruct Hcase as [(_&Hin&_)|(_&->&_)]; [|by apply owned_empty].
    intros s id Hc Hid. rewrite Hc0 in Hc. injection Hc as <-. rewrite Hu.
    by eapply (session_owners st Hfit).
Qed.

Lemma finish_fits e st c0 c r st' resp :
  fits st → owned st c → finish e st c0 c r = (st', resp) → fits st'.
Proof.
  intros Hfit Hown H.
  pose proof (finish_frame _ _ _ _ _ _ _ H) as (Hu&Hn&Hg&_).
  apply (fits_sessions st); try done.
  intros sid s Hsid. unfold finish, store_destroy in H.
  destruct (session c) as [s1|] eqn:Ec.
  - destruct (isModified c0 c); injection H as <- <-; [|by left].
    simpl in Hsid. destruct (decide (sid = sessionID c)) as [->|Hne].
    + rewrite lookup_insert_eq in Hsid. injection Hsid as <-.
      right. intros id. by apply Hown.
    + rewrite lookup_insert_ne in Hsid by done. by left.
  - destruct (fail_destroy e); injection H as <- <-; [by left|].
    simpl in Hsid. apply lookup_delete_Some in Hsid as [_ ?]. by left.
Qed.

Lemma serve_fits srv route e st req :
  fits st → fits (fst (serve L srv route e st req)).
Proof.
  intros Hfit. unfold serve.
  destruct (load st (cookie req)) as [st0 c0] eqn:E0.
  destruct (handle L srv route e st0 c0 (body req)) as [[st1 c1] rep] eqn:E1.
  destruct (finish e st1 c0 c1 rep) as [st' resp] eqn:E2. simpl.
  destruct (load_fits _ _ _ _ Hfit E0) as [Hfit0 Hown0].
  destruct (handle_fits _ _ _ _ _ _ _ _ _ Hfit0 Hown0 E1) as [Hfit1 Hown1].
  by eapply finish_fits.
Qed.

Lemma serve_consistent srv route e st req :
  consistent st → consistent (fst (serve L srv route e st req)).
Proof. intros [Hwf Hfit]. split; [by apply wf_serve | by apply serve_fits]. Qed.

Lemma run_consistent srv trace : ∀ st,
  consistent st → consistent (run L srv trace st).
Proof.
  induction trace as [|[[r e] req] trace IH]; intros st Hst; [done|].
  simpl. by apply IH, serve_consistent.
Qed.

(** X15. Every state the server reaches from the empty database is consistent:
    user names and ids are unique and ids positive, every session that holds
    a user id and every game refer to a user of the table (the foreign key
    of [games] is never violated), and the store holds generated
    identifiers only. *)
Theorem reachable_states_are_consistent srv trace :
  consistent (run L srv trace initial_state).
Proof.
  apply run_consistent. split; [apply wf_initial | apply fits_initial].
Qed.

(** A session that holds a user id is logged in: the id is truthy, so
    [requireAuth] and [GET /api/me] accept it. *)
Lemma bound_session_identity st sid s id :
  fits st → sessions st !! sid = Some s → userId s = Some id →
  identity st (Some sid) = Some id.
Proof.
  intros Hfit Hs Hid. unfold identity. simpl. rewrite Hs. simpl.
  unfold session_user. simpl. rewrite Hid.
  destruct (session_owners st Hfit sid s id Hs Hid) as (u & Hin & <-).
  pose proof (user_ids st Hfit) as Hids.
  rewrite Forall_forall in Hids. destruct (Hids u Hin) as [Hpos _].
  destruct (u_id u); [lia | done].
Qed.

(** [GET /api/me] for a logged-in session. *)
Lemma me_logged_in srv e st sid s uid b :
  sessions st !! sid = Some s → identity st (Some sid) = Some uid →
  snd (serve L srv GET_me e st (request (Some sid) b)) =
    answer 200 (body_username (username s)) None.
Proof.
  intros Hs Hid. unfold serve, load. simpl. rewrite Hs, handle_me.
  unfold identity in Hid. simpl in Hid. rewrite Hs in Hid. simpl in Hid.
  unfold me. rewrite Hid. simpl.
  by erewrite finish_untouched.
Qed.

(** X16. After a registration answered 201 or a login answered 200, the cookie
    the response set stands for the user: [GET /api/me] with it is answered
    200 with the user name of that response, whatever requests the server
    handles in between, as long as none of them carries the cookie to
    register, login or logout.  (Sessions do not expire here: the [maxAge]
    of one day is outside the model.) *)
Theorem stays_logged_in srv route e st req st1 r1 sid trace e2 b2 :
  consistent st →
  (route = POST_register ∧ status r1 = 201) ∨
  (route = POST_login ∧ status r1 = 200) →
  serve L srv route e st req = (st1, r1) →
  set_cookie r1 = Some sid →
  forallb (λ step, negb (ends_session sid step)) trace = true →
  snd (serve L srv GET_me e2 (run L srv trace st1) (request (Some sid) b2)) =
    answer 200 (resp_body r1) None.
Proof.
  intros [Hwf Hfit] Hroute H Hck Htrace.
  assert (Hst1 : consistent st1).
  { replace st1 with (fst (serve L srv route e st req)) by (by rewrite H).
    by apply serve_consistent. }
  assert (Hlater : consistent (run L srv trace st1)) by (by apply run_consistent).
  assert (Hbound : ∃ s id, sessions st1 !! sid = Some s ∧ userId s = Some id ∧
                           resp_body r1 = body_username (username s) ∧
                           sid < next_sid st1).
  { pose proof (serve_grows L _ _ _ _ _ _ _ H) as Hgrow.
    assert (Hlt : ∀ s, sessions st1 !! sid = Some s → sid < next_sid st1).
    { intros s Hs. destruct Hst1 as [Hwf1 _]. apply Hwf1. by rewrite Hs. }
    unfold serve in H.
    destruct (load st (cookie req)) as [st0 c0] eqn:E0.
    destruct (handle L srv route e st0 c0 (body req)) as [[stB c1] rep] eqn:E1.
    pose proof (finish_reply _ _ _ _ _ _ _ H) as (Hst&Hbody&_).
    destruct Hroute as [[-> H201]|[-> H200]].
    - apply register_inv in E1 as [(_&_&[->| ->])|(u&p&_&_&_&Hcu)];
        [rewrite Hst in H201; done..|].
      apply create_user_inv in Hcu
        as [(_&_&[[-> _]|[-> _]])|(stA&id&h&c2&err&_&_&Hins&Hreg&Hcase)];
        [rewrite Hst in H201; done..|].
      destruct Hcase as [(_&_&->)|(->&->&->)]; [rewrite Hst in H201; done|].
      apply insertUser_spec in Hins as (_&_&_&_&_&_&_&_&Hsame).
      destruct (bound_after_regenerate _ _ _ _ _ _ _ _ _ _ _ _ _ Hwf E0 Hsame Hreg H)
        as (Hck'&Hin&_).
      rewrite Hck in Hck'. injection Hck' as ->.
      eexists _, _. split; [exact Hin|]. split; [done|]. split; [done|]. eauto.
    - rewrite handle_login in E1. apply login_inv in E1
        as [(_&_&Hne)|(u&p&user&c2&err&_&_&_&Hreg&Hcase)];
        [rewrite Hst in H200; done|].
      destruct Hcase as [(_&_&->)|(->&->&->)]; [rewrite Hst in H200; done|].
      destruct (bound_after_regenerate _ _ st0 _ st0 _ _ _ _ _ _ _ _ Hwf E0
                  (conj eq_refl eq_refl) Hreg H) as (Hck'&Hin&_).
      rewrite Hck in Hck'. injection Hck' as ->.
      eexists _, _. split; [exact Hin|]. split; [done|]. split; [done|]. eauto. }
  destruct Hbound as (s & id & Hs & Hid & Hbody & Hlt).
  destruct Hst1 as [Hwf1 Hfit1].
  assert (Hs' : sessions (run L srv trace st1) !! sid = Some s).
  { by rewrite run_keeps_session. }
  destruct Hlater as [_ Hfit'].
  rewrite Hbody.
  eapply me_logged_in; [exact Hs'|].
  by eapply bound_session_identity.
Qed.

End with_lib.
End Integrity.

(** ** Listing games *)

Module Listing.
Import ExpressSession Handlers SessionFacts HandlerFacts Inversion Regeneration
  RegisterFailure Guard Tables JSONFacts JSONRoundTrip.

#[local] Instance newer_first_total : Total Db.newer_first.
Proof. intros a b. unfold Db.newer_first. lia. Qed.

#[local] Instance newer_first_trans : Transitive Db.newer_first.
Proof. intros a b c. unfold Db.newer_first. lia. Qed.

Lemma view_inv r v :
  Db.view r = Some v →
  v_id v = g_id r ∧ v_pgn v = g_pgn r ∧ v_date v = g_created_at r ∧
  Db.stored_fens (g_fens r) = Some (v_fens v).
Proof.
  unfold Db.view. destruct (Db.stored_fens (g_fens r)); [|done].
  by intros [= <-].
Qed.

Lemma views_sorted rows views :
  Forall2 (λ r v, Db.view r = Some v) rows views →
  StronglySorted Db.newer_first rows → StronglySorted newer_view_first views.
Proof.
  induction 1 as [|r v rows views Hv Hall IH]; [constructor|].
  intros Hs. apply StronglySorted_inv in Hs as [Hs Hr].
  constructor; [by apply IH|].
  apply view_inv in Hv as (_&_&Hd&_).
  clear IH Hs. induction Hall as [|r' v' rows views Hv' _ IH]; [constructor|].
  apply Forall_cons in Hr as [Hr Hrs]. constructor; [|by apply IH].
  apply view_inv in Hv' as (_&_&Hd'&_).
  unfold newer_view_first, Db.newer_first in *. lia.
Qed.

(** X17. [getGamesByUser]: what it returns shows the rows of the user, all of
    them and no others, each once, newest first; each entry has the id,
    the [pgn] and the date of its row and the parsed [fens]. *)
Theorem games_listed_newest_first e st uid views :
  Db.getGamesByUser e st uid = Some views →
  StronglySorted newer_view_first views ∧
  ∃ rows, rows ≡ₚ List.filter (owned_by uid) (games st) ∧
          Forall2 (λ r v, v_id v = g_id r ∧ v_pgn v = g_pgn r ∧
                          v_date v = g_created_at r ∧
                          Db.stored_fens (g_fens r) = Some (v_fens v)) rows views.
Proof.
  unfold Db.getGamesByUser. destruct (fail_select_games e); [done|].
  intros H. apply mapM_Some_1 in H. split.
  - eapply views_sorted; [exact H|]. apply (StronglySorted_merge_sort Db.newer_first).
  - exists (merge_sort Db.newer_first (List.filter (owned_by uid) (games st))).
    split; [apply (merge_sort_Permutation Db.newer_first)|].
    eapply Forall2_impl; [exact H|]. intros r v. apply view_inv.
Qed.

(** [getGamesByUser] returns when the query is accepted and the [fens] of
    every row of the user parses; otherwise it throws. *)
Lemma getGamesByUser_is_Some e st uid :
  is_Some (Db.getGamesByUser e st uid) ↔
  fail_select_games e = false ∧
  Forall (λ r, is_Some (Db.view r)) (List.filter (owned_by uid) (games st)).
Proof.
  unfold Db.getGamesByUser. destruct (fail_select_games e).
  - split; [by intros [? ?] | by intros [? _]].
  - rewrite mapM_is_Some. split.
    + intros H. split; [done|].
      by rewrite <- (merge_sort_Permutation Db.newer_first).
    + intros [_ H]. by rewrite (merge_sort_Permutation Db.newer_first).
Qed.

(** The answer of [GET /api/games] to a logged-in user. *)
Lemma list_games_logged_in L srv e st req uid :
  identity st (cookie req) = Some uid →
  snd (serve L srv GET_games e st req) =
    match Db.getGamesByUser e st uid with
    | Some views => answer 200 (body_games views) None
    | None => answer 500 (body_error "internal") None
    end.
Proof.
  intros Hid.
  destruct (load_logged_in _ _ _ Hid) as (sid & s & _ & _ & E0).
  pose proof (load_identity _ _ _ _ E0) as Hu. rewrite Hid in Hu.
  destruct (Db.getGamesByUser e st uid) as [views|] eqn:Eg.
  - rewrite (serve_untouched L srv GET_games e st req _ _
               (reply 200 (body_games views)) E0); [done|].
    rewrite handle_games. unfold list_games, requireAuth. by rewrite Hu, Eg.
  - rewrite (serve_untouched L srv GET_games e st req _ _ internal E0); [done|].
    rewrite handle_games. unfold list_games, requireAuth. by rewrite Hu, Eg.
Qed.

(** X18. [GET /api/games] of a logged-in user is answered 200 with exactly the
    games of that user, newest first, or 500 [internal]; it is never
    answered with a game of another user. *)
Theorem listing_shows_own_games L srv e st req uid :
  identity st (cookie req) = Some uid →
  let resp := snd (serve L srv GET_games e st req) in
  resp = answer 500 (body_error "internal") None ∨
  ∃ views rows,
    resp = answer 200 (body_games views) None ∧
    StronglySorted newer_view_first views ∧
    rows ≡ₚ List.filter (owned_by uid) (games st) ∧
    Forall2 (λ r v, Db.view r = Some v) rows views.
Proof.
  intros Hid. simpl. rewrite (list_games_logged_in L srv e st req uid Hid).
  destruct (Db.getGamesByUser e st uid) as [views|] eqn:Eg; [|by left].
  right. unfold Db.getGamesByUser in Eg.
  destruct (fail_select_games e); [done|]. apply mapM_Some_1 in Eg.
  exists views, (merge_sort Db.newer_first (List.filter (owned_by uid) (games st))).
  split; [done|]. split; [|split; [|exact Eg]].
  - eapply views_sorted; [exact Eg|]. apply (StronglySorted_merge_sort Db.newer_first).
  - apply (merge_sort_Permutation Db.newer_first).
Qed.

End Listing.

(** ** From the import to the listing *)

Module Shown.
Import ExpressSession Handlers SessionFacts HandlerFacts Inversion Regeneration
  RegisterFailure Guard Tables JSONFacts JSONRoundTrip Listing BulkImport.

(** What is written with [JSON.stringify] is read back by
    [JSON.parse(r.fens || '[]')]. *)
Lemma stored_stringify v :
  is_json v = true → Db.stored_fens (JSON.stringify v) = Some v.
Proof.
  intros Hv. pose proof (parse_stringify v Hv) as Hp.
  rewrite (stringify_text v Hv) in *.
  destruct (text_head v Hv) as (c & r & Heq & _).
  simpl in Hp. rewrite Heq in *. exact Hp.
Qed.

Lemma or_json f : json_or_absent f = true → is_json (Js.or f (JArr [])) = true.
Proof.
  unfold Js.or. destruct (Js.truthy f) eqn:E; [|done]. by destruct f.
Qed.

(** The [fens] a server binds for a record is read back as what the
    listing is to show. *)
Lemma fens_read_back srv f :
  json_or_absent f = true →
  Db.stored_fens (fens_text srv f) = Some (shown_fens srv f).
Proof.
  intros Hf. destruct srv as [|p]; simpl.
  - unfold PgOnly.fens_param.
    destruct f as [| |b|lit|s|xs|fs]; try reflexivity;
      try (by apply stored_stringify).
    cbn [Js.is_nullish]. destruct (JSON.parse s) as [v|] eqn:Es.
    + destruct s as [|c s]; [done|]. exact Es.
    + destruct (Fens.pg_wraps_unparsable s Es) as [Hp Hv].
      unfold PgOnly.fens_param in Hv. cbn [Js.is_nullish] in Hv.
      by rewrite Es in Hv.
  - by apply stored_stringify, or_json.
Qed.

(** A plain value is a JSON value. *)
Lemma plain_is_json v : plain v = true → is_json v = true.
Proof.
  induction v as [| | | | |xs IH|fields IH] using JsValue_ind'; try done.
  simpl. intros Hxs. apply forallb_forall. intros x Hx.
  rewrite Forall_forall in IH. apply IH; [by apply list_elem_of_In|].
  by apply (proj1 (forallb_forall _ _) Hxs).
Qed.

(** The same for a record whose [fens] is shown as a plain value, without
    asking that the [fens] itself is a JSON value. *)
Lemma shown_read_back srv f :
  plain (shown_fens srv f) = true →
  Db.stored_fens (fens_text srv f) = Some (shown_fens srv f).
Proof.
  intros Hf. destruct srv as [|p].
  - apply fens_read_back. destruct f; try done. by apply plain_is_json.
  - simpl in *. by apply stored_stringify, plain_is_json.
Qed.

Section with_lib.
Context (L : Lib).

(** The row of the [INSERT] of a record is the row of the record. *)
Lemma stmt_row_of srv e uid k g q id row :
  insert_stmt L srv e uid k g = Some q → row_written q id = Some row →
  row_of L srv e uid k g row.
Proof.
  unfold row_of, stamp. destruct srv as [|p]; simpl.
  - unfold PgOnly.insert_stmt.
    destruct (Js.get g "pgn") as [pgn|]; [|done].
    destruct (Js.get g "fens") as [fens|]; [|done].
    destruct (Js.get g "date") as [date|]; [|done].
    destruct (Js.get g "created_at") as [created|]; [|done].
    destruct (Db.text_param L _) as [txt|] eqn:Et; [|done].
    destruct (PgOnly.created_at_param L e k date created) as [t|] eqn:Ec; [|done].
    intros [= <-] [= <-]. simpl. split; [done|]. split; [done|].
    exists pgn, fens. by rewrite Et.
  - unfold Dual.insert_stmt.
    destruct (Js.get g "pgn") as [pgn|]; [|done].
    destruct (Js.get g "fens") as [fens|]; [|done].
    destruct (Db.text_param L _) as [txt|] eqn:Et; [|done].
    intros [= <-] [= <-]. simpl. split; [done|]. split; [done|].
    exists pgn, fens. by rewrite Et.
Qed.

(** What [insertGamesBulk] adds when it returns: the row of each record,
    in the order of the batch. *)
Lemma bulk_rows srv e st uid gs st' :
  insertGamesBulk L srv e st uid gs = (st', true) →
  ∃ rows, games st' = games st ++ rows ∧ length rows = length gs ∧
    ∀ i g, gs !! i = Some g →
      ∃ row, rows !! i = Some row ∧ row_of L srv e uid (S i) g row.
Proof.
  rewrite insertGamesBulk_unfold. unfold transaction.
  destruct (run_transaction _ _ _ _ _) as [c ok] eqn:E. intros [= <- ->].
  destruct (run_transaction_outcome L _ _ _ _ _ _ _ E eq_refl) as [_ Hrows].
  destruct (Hrows eq_refl) as (rows & Hc & Hlen & Hstmt).
  exists rows. split; [done|]. split; [done|]. intros i g Hi.
  destruct (Hstmt i g Hi) as (q & Hq & Hrow).
  destruct (BulkImport.insert_stmt_inv L _ _ _ _ _ _ Hq) as (pgn & fens & t & ->).
  eexists. split; [exact Hrow|]. by eapply stmt_row_of.
Qed.

(** How the row of a record is shown. *)
Lemma row_view srv e uid k g row f :
  row_of L srv e uid k g row → Js.get g "fens" = Some f →
  Db.stored_fens (fens_text srv f) = Some (shown_fens srv f) →
  ∃ v, Db.view row = Some v ∧ v_fens v = shown_fens srv f ∧
       stamp L srv e k g = Some (v_date v) ∧
       ∀ pgn, Js.get g "pgn" = Some pgn →
              v_pgn v = Db.text_param L (Js.or pgn (JStr "")).
Proof.
  intros (_ & Hstamp & pgn & fens & Hpgn & Hfens & Hp & Hrow) Hf Hback.
  rewrite Hfens in Hf. injection Hf as ->.
  unfold Db.view. rewrite Hrow, Hback.
  eexists. split; [done|]. simpl. split; [done|]. split; [done|].
  intros pgn' Hpgn'. rewrite Hpgn in Hpgn'. by injection Hpgn' as <-.
Qed.

(** The table only grows. *)
Lemma serve_games_grow srv route e st req :
  ∃ more, games (fst (serve L srv route e st req)) = games st ++ more.
Proof.
  destruct (serve L srv route e st req) as [st' resp] eqn:H. simpl.
  apply serve_games in H as [->|(_&_&_&_&rows&_&_&_&->&_)].
  - exists []. by rewrite app_nil_r.
  - by exists rows.
Qed.

Lemma run_games_grow srv trace : ∀ st,
  ∃ more, games (run L srv trace st) = games st ++ more.
Proof.
  induction trace as [|[[r e] req] trace IH]; intros st.
  - exists []. by rewrite app_nil_r.
  - simpl. destruct (IH (fst (serve L srv r e st req))) as [more2 ->].
    destruct (serve_games_grow srv r e st req) as [more1 ->].
    exists (more1 ++ more2). by rewrite app_assoc.
Qed.

(** What an import writes: nothing when it is not answered 200, and
    otherwise the row of each record of the batch, in order. *)
Lemma serve_imported_rows srv e st req st1 r1 :
  serve L srv POST_import e st req = (st1, r1) →
  (games st1 = games st ∧ status r1 ≠ 200) ∨
  ∃ uid gs rows,
    identity st (cookie req) = Some uid ∧
    payload_games (body req) = Some (JArr gs) ∧
    games st1 = games st ++ rows ∧ length rows = length gs ∧
    ∀ i g, gs !! i = Some g →
      ∃ row, rows !! i = Some row ∧ row_of L srv e uid (S i) g row.
Proof.
  intros Himp. unfold serve in Himp.
  destruct (load st (cookie req)) as [st0 c0] eqn:E0.
  destruct (handle L srv POST_import e st0 c0 (body req)) as [[stI c1] rep] eqn:E1.
  pose proof (finish_reply _ _ _ _ _ _ _ Himp) as (Hst&_&_).
  apply finish_frame in Himp as (_&_&Hg&_).
  pose proof (load_identity _ _ _ _ E0) as Hu.
  apply load_frame in E0 as (_&Hg0&_).
  rewrite handle_import in E1.
  apply import_inv in E1 as [_ [[Hsame Hne]|(uid&gs&rows'&Hu'&Hp&Hbulk&_)]].
  - left. split; congruence.
  - right. apply bulk_rows in Hbulk as (rows & Hrows & Hlen & Hall).
    exists uid, gs, rows. split; [congruence|]. split; [done|].
    split; [congruence | done].
Qed.

(** The rows of a batch belong to the user who imported it. *)
Lemma rows_owned srv e uid k0 gs rows :
  length rows = length gs →
  (∀ i g, gs !! i = Some g →
     ∃ row, rows !! i = Some row ∧ row_of L srv e uid (k0 + i) g row) →
  Forall (λ row, g_user_id row = uid) rows.
Proof.
  intros Hlen Hall. apply Forall_lookup. intros i row Hi.
  destruct (lookup_lt_is_Some_2 gs i) as [g Hg].
  { rewrite <- Hlen. by eapply lookup_lt_Some. }
  destruct (Hall i g Hg) as (row' & Hrow' & Hown & _).
  rewrite Hi in Hrow'. by injection Hrow' as <-.
Qed.

(** X19. A record that was imported is listed: after an import answered 200,
    and whatever requests follow, a [GET /api/games] of the same user that
    is answered 200 has an entry for each record of the batch.  The entry
    shows the [pgn] of the record (the empty string for none), its date and
    its [fens] as the server normalises it.  The date is, on
    [src/server.js], the [date] or [created_at] of the record, else the
    time at which the loop reached this record, which differs from record to
    record; on [src/unnamed/part_000] with SQLite the time of the insert of
    this record, and with Postgres the time at which the transaction began,
    the same for the whole batch.  As to the [fens], [src/server.js] shows
    an array as it is, [[]] for [null] or none, a string that parses as
    what it parses to and any other string inside a one-element array;
    [src/unnamed/part_000] shows a truthy value as it is and [[]] for a
    falsy one.  This is stated of a record that holds no number, whose
    [fens] is shown as strings, booleans, [null] and arrays of these: of a
    number the model keeps the literal, and whether a literal is zero, or
    too large for a double, is decided outside of it. *)
Theorem imported_games_are_listed
    srv e st req uid gs i g pgn f st1 r1 trace e2 req2 r2 :
  identity st (cookie req) = Some uid →
  payload_games (body req) = Some (JArr gs) →
  gs !! i = Some g → numberless g = true →
  Js.get g "pgn" = Some pgn →
  Js.get g "fens" = Some f → plain (shown_fens srv f) = true →
  serve L srv POST_import e st req = (st1, r1) → status r1 = 200 →
  identity (run L srv trace st1) (cookie req2) = Some uid →
  r2 = snd (serve L srv GET_games e2 (run L srv trace st1) req2) →
  status r2 = 200 →
  ∃ views v, resp_body r2 = body_games views ∧ v ∈ views ∧
             v_pgn v = Db.text_param L (Js.or pgn (JStr "")) ∧
             v_fens v = shown_fens srv f ∧
             stamp L srv e (S i) g = Some (v_date v).
Proof.
  intros Hid Hgs Hi _ Hpgn Hf Hplain Himp H200 Hid2 -> Hget.
  destruct (serve_imported_rows _ _ _ _ _ _ Himp)
    as [(_ & Hne)|(uid' & gs' & rows & Hid' & Hgs' & Hg1 & Hlen & Hall)]; [done|].
  rewrite Hid in Hid'. injection Hid' as <-.
  rewrite Hgs in Hgs'. injection Hgs' as <-.
  destruct (Hall i g Hi) as (row & Hrow & Hof).
  destruct (row_view _ _ _ _ _ _ _ Hof Hf (shown_read_back srv f Hplain))
    as (v & Hv & Hvf & Hvd & Hvp).
  rewrite (list_games_logged_in L srv e2 _ req2 uid Hid2) in Hget |- *.
  destruct (Db.getGamesByUser e2 (run L srv trace st1) uid) as [views|] eqn:Eg;
    [|done].
  exists views, v. split; [done|]. split; [|by auto].
  unfold Db.getGamesByUser in Eg. destruct (fail_select_games e2); [done|].
  apply mapM_Some_1 in Eg.
  assert (Hin : row ∈ merge_sort Db.newer_first
                  (List.filter (λ r, g_user_id r =? uid)
                     (games (run L srv trace st1)))).
  { rewrite merge_sort_Permutation. apply list_elem_of_In, filter_In. split.
    - destruct (run_games_grow srv trace st1) as [more ->]. rewrite Hg1.
      apply in_or_app. left. apply in_or_app. right.
      apply list_elem_of_In. by eapply list_elem_of_lookup_2.
    - destruct Hof as [-> _]. apply Nat.eqb_refl. }
  apply list_elem_of_lookup in Hin as [j Hj].
  destruct (Forall2_lookup_l _ _ _ _ _ Eg Hj) as (v' & Hv' & Hview).
  rewrite Hv in Hview. injection Hview as <-.
  by eapply list_elem_of_lookup_2.
Qed.

(** X20. An import answered 200 makes the listing of the user longer by the
    size of the batch. *)
Theorem import_adds_to_listing srv e st req st' resp uid gs e1 e2 views views' :
  identity st (cookie req) = Some uid →
  payload_games (body req) = Some (JArr gs) →
  serve L srv POST_import e st req = (st', resp) → status resp = 200 →
  Db.getGamesByUser e1 st uid = Some views →
  Db.getGamesByUser e2 st' uid = Some views' →
  length views' = length views + length gs.
Proof.
  intros Hid Hgs H H200 Hbefore Hafter.
  assert (Hlen : ∀ e0 s vs, Db.getGamesByUser e0 s uid = Some vs →
                   length vs = length (List.filter (owned_by uid) (games s))).
  { intros e0 s vs Hg. unfold Db.getGamesByUser in Hg.
    destruct (fail_select_games e0); [done|].
    apply mapM_Some_1, Forall2_length in Hg. rewrite <- Hg.
    apply Permutation_length, (merge_sort_Permutation Db.newer_first). }
  rewrite (Hlen _ _ _ Hbefore), (Hlen _ _ _ Hafter).
  apply serve_imported_rows in H
    as [(_ & Hne)|(uid' & gs' & rows & Hid' & Hgs' & Hg & Hrows & Hall)]; [done|].
  rewrite Hid in Hid'. injection Hid' as <-.
  rewrite Hgs in Hgs'. injection Hgs' as <-.
  rewrite Hg, List.filter_app, length_app. f_equal.
  rewrite <- Hrows.
  pose proof (rows_owned srv e uid 1 gs rows Hrows Hall) as Hown. clear -Hown.
  induction Hown as [|row rows Hrow _ IH]; [done|]. simpl.
  unfold owned_by at 1. rewrite Hrow, Nat.eqb_refl. simpl. by rewrite IH.
Qed.

End with_lib.
End Shown.

(** ** What the import writes, the listing can read *)

Module Viewable.
Import ExpressSession Handlers SessionFacts HandlerFacts Inversion Regeneration
  RegisterFailure Guard Tables JSONFacts JSONRoundTrip Listing BulkImport Shown.

Lemma lookup_field_json k fields :
  forallb (λ kv, is_json (snd kv)) fields = true →
  json_or_absent (Js.lookup_field k fields) = true.
Proof.
  induction fields as [|[k' v] fields IH]; [done|]. simpl.
  intros [Hv Hrest]%andb_true_iff.
  destruct (String.eqb k k'); [|by apply IH]. by destruct v.
Qed.

(** A property of a JSON value is a JSON value or absent. *)
Lemma get_json g k f :
  json_or_absent g = true → Js.get g k = Some f → json_or_absent f = true.
Proof.
  destruct g as [| |b|lit|s|xs|fields]; simpl; intros Hg [= <-]; try done.
  apply andb_true_iff in Hg as [Hvals _]. by apply lookup_field_json.
Qed.

Lemma payload_games_json b gs :
  json_or_absent b = true → payload_games b = Some (JArr gs) →
  Forall (λ g, is_json g = true) gs.
Proof.
  unfold payload_games, Js.or. intros Hb Hp.
  assert (Hpayload : json_or_absent (if Js.truthy b then b else JObj []) = true).
  { by destruct (Js.truthy b). }
  pose proof (get_json _ _ _ Hpayload Hp) as Hgs. simpl in Hgs.
  apply Forall_forall. intros g Hg.
  by apply (proj1 (forallb_forall _ _) Hgs), list_elem_of_In.
Qed.

Section with_lib.
Context (L : Lib).

Lemma row_viewable srv e uid k g row :
  is_json g = true → row_of L srv e uid k g row → is_Some (Db.view row).
Proof.
  intros Hg Hrow. pose proof Hrow as (_ & _ & pgn & fens & _ & Hfens & _).
  assert (Hf : json_or_absent fens = true).
  { apply (get_json g "fens"); [by destruct g | done]. }
  destruct (row_view L _ _ _ _ _ _ _ Hrow Hfens (fens_read_back srv fens Hf))
    as (v & Hv & _).
  by exists v.
Qed.

(** A request with a JSON body keeps every row readable. *)
Lemma serve_viewable srv route e st req :
  viewable st → json_or_absent (body req) = true →
  viewable (fst (serve L srv route e st req)).
Proof.
  intros Hst Hbody.
  destruct (serve L srv route e st req) as [st' resp] eqn:H. simpl.
  destruct (decide (route = POST_import)) as [->|Hne].
  - apply serve_imported_rows in H
      as [[Hg _]|(uid & gs & rows & _ & Hp & Hg & Hlen & Hall)];
      unfold viewable; rewrite Hg; [done|].
    apply Forall_app. split; [done|].
    pose proof (payload_games_json _ _ Hbody Hp) as Hgs.
    apply Forall_lookup. intros i row Hi.
    destruct (lookup_lt_is_Some_2 gs i) as [g Hgi].
    { rewrite <- Hlen. by eapply lookup_lt_Some. }
    destruct (Hall i g Hgi) as (row' & Hrow' & Hof).
    rewrite Hi in Hrow'. injection Hrow' as <-.
    eapply row_viewable; [|exact Hof].
    by apply (proj1 (Forall_lookup _ _) Hgs i g).
  - apply serve_games in H as [Hg|(? & _)]; [|done].
    unfold viewable. by rewrite Hg.
Qed.

Lemma run_viewable srv trace : ∀ st,
  viewable st → forallb json_request trace = true →
  viewable (run L srv trace st).
Proof.
  induction trace as [|[[r e] req] trace IH]; intros st Hst Hall; [done|].
  simpl in Hall. apply andb_true_iff in Hall as [Hreq Hall].
  simpl. apply IH; [|done]. by apply serve_viewable.
Qed.

(** X21. What the import writes, the listing can read: when every request so
    far had a JSON body (what [express.json()] hands to the handlers), the
    [JSON.parse] of [getGamesByUser] throws on no row, and a
    [GET /api/games] of a logged-in user is answered 200 unless the query
    itself is rejected. *)
Theorem listing_never_fails_on_imports srv trace st e req uid :
  viewable st → forallb json_request trace = true →
  fail_select_games e = false →
  identity (run L srv trace st) (cookie req) = Some uid →
  status (snd (serve L srv GET_games e (run L srv trace st) req)) = 200.
Proof.
  intros Hst Htrace He Hid.
  rewrite (list_games_logged_in L srv e _ req uid Hid).
  pose proof (run_viewable srv trace st Hst Htrace) as Hview.
  destruct (Db.getGamesByUser e (run L srv trace st) uid) as [views|] eqn:Eg;
    [done|].
  assert (is_Some (Db.getGamesByUser e (run L srv trace st) uid)) as [? Hsome];
    [|congruence].
  apply getGamesByUser_is_Some. split; [done|].
  apply Forall_forall. intros r Hr.
  apply list_elem_of_In, filter_In in Hr as [Hr _].
  unfold viewable in Hview. rewrite Forall_forall in Hview.
  by apply Hview, list_elem_of_In.
Qed.

End with_lib.
End Viewable.

(** ** The migration from SQLite to Postgres *)

Module Migration.
Import Migrate SessionFacts HandlerFacts Credentials Shown Integrity.
Section with_lib.
Context (L : Lib).

(** A property every turn of a loop keeps holds when the loop ends,
    completed or not. *)
Lemma each_preserves {A} (body : Progress → A → Progress * bool)
    (I : Progress → Prop) (P : A → Prop) rows :
  (∀ p a p' ok, P a → I p → body p a = (p', ok) → I p') →
  Forall P rows → ∀ p p' ok, I p → each body p rows = (p', ok) → I p'.
Proof.
  intros Hstep Hrows.
  induction Hrows as [|a rows Ha _ IH]; intros p p' ok Hp H; simpl in H.
  - by injection H as <- <-.
  - destruct (body p a) as [p1 ok1] eqn:E.
    pose proof (Hstep _ _ _ _ Ha Hp E) as Hp1.
    destruct ok1; [by eapply IH | by injection H as <- <-].
Qed.

Lemma each_preserves_all {A} (body : Progress → A → Progress * bool)
    (I : Progress → Prop) rows p p' ok :
  (∀ p a p' ok, I p → body p a = (p', ok) → I p') →
  I p → each body p rows = (p', ok) → I p'.
Proof.
  intros Hstep. apply (each_preserves body I (λ _, True)).
  - intros ?????. by apply Hstep.
  - by apply Forall_forall.
Qed.

(** A loop that completed went through every row. *)
Lemma each_completed {A} (body : Progress → A → Progress * bool)
    (I : list A → Progress → Prop) rows :
  (∀ seen p a p', I seen p → body p a = (p', true) → I (seen ++ [a]) p') →
  ∀ seen p p', I seen p → each body p rows = (p', true) → I (seen ++ rows) p'.
Proof.
  intros Hstep. induction rows as [|a rows IH]; intros seen p p' Hp H; simpl in H.
  - injection H as <-. by rewrite app_nil_r.
  - destruct (body p a) as [p1 [|]] eqn:E; [|done].
    rewrite (cons_middle a seen rows), app_assoc. simpl.
    eapply IH; [|done]. by eapply Hstep.
Qed.

(** *** One turn of each loop *)

(** What the body of the user loop does: nothing, or it notes the id of
    the row that has the name, or it inserts a row with the name and notes
    its id. *)
Lemma migrate_user_inv w p u p' ok :
  migrate_user L w p u = (p', ok) →
  (p' = p ∧ (ok = false ∨ dry_run w = true ∧
             List.find (named (su_username u)) (users (pg p)) = None)) ∨
  (ok = true ∧ ∃ row, List.find (named (su_username u)) (users (pg p)) = Some row ∧
                      p' = remember p (su_id u) (u_id row)) ∨
  (ok = true ∧ dry_run w = false ∧
   List.find (named (su_username u)) (users (pg p)) = None ∧
   p' = {| pg := insert_user_row (pg p) (su_username u)
                   (default "" (su_password_hash u));
           userMap := <[su_id u := next_user_id (pg p)]> (userMap p);
           insertedUsers := S (insertedUsers p);
           insertedGames := insertedGames p |}).
Proof.
  unfold migrate_user. intros H.
  destruct (rejects_select w u); [injection H as <- <-; auto|].
  destruct (List.find _ _) as [row|] eqn:Ef.
  { injection H as <- <-. right. left. eauto. }
  destruct (dry_run w); [injection H as <- <-; auto|].
  destruct (rejects_insert_user w u); [injection H as <- <-; auto|].
  destruct (created_at_param L (now_user w u) (su_created_at u));
    injection H as <- <-; auto.
  right. right. done.
Qed.

(** What the body of the game loop does: nothing, or, in a dry run, it
    counts the game, or it inserts the row of the game for the Postgres
    user its owner is mapped to. *)
Lemma migrate_game_inv w p g p' ok :
  migrate_game L w p g = (p', ok) →
  (p' = p) ∨
  (ok = true ∧ dry_run w = true ∧
   p' = {| pg := pg p; userMap := userMap p; insertedUsers := insertedUsers p;
           insertedGames := S (insertedGames p) |}) ∨
  (ok = true ∧ dry_run w = false ∧
   ∃ pgUid t, userMap p !! sg_user_id g = Some pgUid ∧ 0 < pgUid ∧
     existsb (λ u, u_id u =? pgUid) (users (pg p)) = true ∧
     p' = {| pg := insert_game_row (pg p) pgUid (Some (default "" (sg_pgn g)))
                     (PgOnly.fens_param (from_option JStr JNull (sg_fens g))) t;
             userMap := userMap p; insertedUsers := insertedUsers p;
             insertedGames := S (insertedGames p) |}).
Proof.
  unfold migrate_game. intros H.
  destruct (userMap p !! sg_user_id g) as [[|n]|] eqn:Em;
    [injection H as <- <-; auto| |injection H as <- <-; auto].
  destruct (dry_run w); [injection H as <- <-; auto|].
  destruct (rejects_insert_game w g); [injection H as <- <-; auto|].
  destruct (existsb _ _) eqn:Ex; [|injection H as <- <-; auto]. simpl in H.
  destruct (created_at_param L (now_game w g) (sg_created_at g)) as [t|];
    injection H as <- <-; auto.
  right. right. split; [done|]. split; [done|].
  exists (S n), t. split; [done|]. split; [lia|]. done.
Qed.

(** *** The run as a whole *)

Lemma transaction_inv w sus sgs st st' out :
  transaction L w sus sgs st = (st', out) →
  (rejects_begin w = true ∧ st' = st ∧ out = None) ∨
  ∃ p1 ok1, each (migrate_user L w) (start st) sus = (p1, ok1) ∧
    ((ok1 = false ∧ st' = rolled_back st p1 ∧ out = None) ∨
     ∃ p2 ok2, ok1 = true ∧ each (migrate_game L w) p1 sgs = (p2, ok2) ∧
       ((st' = rolled_back st p2 ∧
         (out = None ∨
          ok2 = true ∧ dry_run w = true ∧
          out = Some (insertedUsers p2, insertedGames p2))) ∨
        (ok2 = true ∧ dry_run w = false ∧ st' = pg p2 ∧
         out = Some (insertedUsers p2, insertedGames p2)))).
Proof.
  unfold transaction. fold (start st). intros H.
  destruct (rejects_begin w); [injection H as <- <-; auto|]. right.
  destruct (each (migrate_user L w) (start st) sus) as [p1 ok1] eqn:E1.
  exists p1, ok1. split; [done|].
  destruct ok1; [|injection H as <- <-; auto]. right.
  destruct (each (migrate_game L w) p1 sgs) as [p2 ok2] eqn:E2.
  exists p2, ok2. split; [done|]. split; [done|].
  destruct ok2; [|injection H as <- <-; left; auto].
  destruct (dry_run w); [injection H as <- <-; left; split; [done|]; right; done|].
  destruct (rejects_commit w); injection H as <- <-; [left; auto | right; done].
Qed.

Lemma grown_start w st : grown w st [] [] (start st).
Proof. unfold grown. simpl. rewrite !app_nil_r. repeat split; auto; lia. Qed.

Lemma migrate_user_grown w st p u p' ok newu newg :
  grown w st newu newg p → migrate_user L w p u = (p', ok) →
  ∃ newu', grown w st newu' newg p' ∧
           (newu' = newu ∨
            ok = true ∧ dry_run w = false ∧
            List.find (named (su_username u)) (users (pg p)) = None ∧
            newu' = newu ++ [{| u_id := next_user_id (pg p);
                                u_username := su_username u;
                                u_password_hash := default "" (su_password_hash u) |}]).
Proof.
  intros Hp H.
  apply migrate_user_inv in H as [[-> _]|[(_ & row & _ & ->)|(-> & Hdry & Hf & ->)]].
  - exists newu. auto.
  - exists newu. auto.
  - eexists. split; [|right; done].
    destruct Hp as (Hs&Hn&Hu&Hg&Hnu&Hng&Hiu&Hig&Hd).
    unfold grown. simpl. rewrite Hu, Hnu, Hiu, length_app, <- app_assoc. simpl.
    split; [done|]. split; [done|]. split; [done|]. split; [done|].
    split; [lia|]. split; [done|]. split; [lia|]. split; [done|].
    intros ?. congruence.
Qed.

Lemma migrate_game_grown w st p g p' ok newu newg :
  grown w st newu newg p → migrate_game L w p g = (p', ok) →
  ∃ newg', grown w st newu newg' p' ∧
           (newg' = newg ∨
            ok = true ∧ dry_run w = false ∧
            ∃ pgUid t, userMap p !! sg_user_id g = Some pgUid ∧ 0 < pgUid ∧
              existsb (λ u, u_id u =? pgUid) (users (pg p)) = true ∧
              newg' = newg ++ [{| g_id := next_game_id (pg p); g_user_id := pgUid;
                                  g_pgn := Some (default "" (sg_pgn g));
                                  g_fens := PgOnly.fens_param
                                              (from_option JStr JNull (sg_fens g));
                                  g_created_at := t |}]).
Proof.
  intros Hp H.
  apply migrate_game_inv in H
    as [->|[(_ & Hdry & ->)|(-> & Hdry & pgUid & t & Hm & Hpos & Hex & ->)]].
  - exists newg. auto.
  - exists newg. split; [|auto].
    destruct Hp as (Hs&Hn&Hu&Hg&Hnu&Hng&Hiu&Hig&Hd).
    unfold grown. simpl.
    split; [done|]. split; [done|]. split; [done|]. split; [done|].
    split; [done|]. split; [done|]. split; [done|]. split; [|done].
    intros ?. congruence.
  - eexists. split; [|right; split; [done|]; split; [done|]; by exists pgUid, t].
    destruct Hp as (Hs&Hn&Hu&Hg&Hnu&Hng&Hiu&Hig&Hd).
    unfold grown. simpl. rewrite Hg, Hng, length_app, <- app_assoc. simpl.
    split; [done|]. split; [done|]. split; [done|]. split; [done|].
    split; [done|]. split; [lia|]. split; [done|]. split.
    + intros _. rewrite Hig by done. lia.
    + intros ?. congruence.
Qed.

Lemma each_user_grown w st sus : ∀ p p' ok newu newg,
  grown w st newu newg p → each (migrate_user L w) p sus = (p', ok) →
  ∃ newu', grown w st newu' newg p'.
Proof.
  intros p p' ok newu newg Hp H.
  apply (each_preserves_all (migrate_user L w) (λ p, ∃ newu', grown w st newu' newg p)
           sus p p' ok); [|by exists newu|done].
  clear. intros p u p' ok [newu Hp] H.
  destruct (migrate_user_grown _ _ _ _ _ _ _ _ Hp H) as (newu' & ? & _). eauto.
Qed.

Lemma each_game_grown w st sgs : ∀ p p' ok newu newg,
  grown w st newu newg p → each (migrate_game L w) p sgs = (p', ok) →
  ∃ newg', grown w st newu newg' p'.
Proof.
  intros p p' ok newu newg Hp H.
  apply (each_preserves_all (migrate_game L w) (λ p, ∃ newg', grown w st newu newg' p)
           sgs p p' ok); [|by exists newg|done].
  clear. intros p u p' ok [newg Hp] H.
  destruct (migrate_game_grown _ _ _ _ _ _ _ _ Hp H) as (newg' & ? & _). eauto.
Qed.

Lemma rolled_back_frame st p :
  users (rolled_back st p) = users st ∧ games (rolled_back st p) = games st ∧
  sessions (rolled_back st p) = sessions st ∧ next_sid (rolled_back st p) = next_sid st.
Proof. done. Qed.

(** The transaction is all or nothing, and it only adds. *)
Lemma transaction_all_or_nothing w sus sgs st st' out :
  transaction L w sus sgs st = (st', out) →
  sessions st' = sessions st ∧
  match out with
  | None => users st' = users st ∧ games st' = games st
  | Some (nu, ng) =>
      ∃ newu newg, users st' = users st ++ newu ∧ games st' = games st ++ newg ∧
        if dry_run w then newu = [] ∧ newg = []
        else length newu = nu ∧ length newg = ng
  end.
Proof.
  intros H. apply transaction_inv in H
    as [(_ & -> & ->)|(p1 & ok1 & E1 & [(_ & -> & ->)|(p2 & ok2 & _ & E2 & Hcase)])];
    [done..|].
  destruct (each_user_grown _ _ _ _ _ _ _ _ (grown_start w st) E1) as (newu & Hp1).
  destruct (each_game_grown _ _ _ _ _ _ _ _ Hp1 E2) as (newg & Hp2).
  destruct Hp2 as (Hs&Hn&Hu&Hg&Hnu&Hng&Hiu&Hig&Hd).
  destruct Hcase as [(-> & [->|(_ & Hdry & ->)])|(_ & Hdry & -> & ->)].
  - done.
  - split; [done|]. exists [], []. rewrite Hdry, !app_nil_r. done.
  - split; [done|]. exists newu, newg. rewrite Hdry.
    split; [done|]. split; [done|]. split; [done|]. symmetry. by apply Hig.
Qed.

(** The transaction of a dry run leaves the tables as they are, sequences
    included, and counts no user. *)
Lemma transaction_dry_run w sus sgs st :
  dry_run w = true →
  fst (transaction L w sus sgs st) = st ∧
  ∀ nu ng, snd (transaction L w sus sgs st) = Some (nu, ng) → nu = 0 ∧ ng ≤ length sgs.
Proof.
  intros Hdry.
  destruct (transaction L w sus sgs st) as [st' out] eqn:H. simpl.
  assert (Hback : ∀ p newu newg, grown w st newu newg p → rolled_back st p = st).
  { intros p newu newg (Hs&Hn&Hu&Hg&Hnu&Hng&Hiu&Hig&Hd).
    destruct (Hd Hdry) as [-> ->]. simpl in *.
    unfold rolled_back. rewrite Hnu, Hng, !Nat.add_0_r. by destruct st. }
  apply transaction_inv in H
    as [(_ & -> & ->)|(p1 & ok1 & E1 & Hcase)]; [done|].
  destruct (each_user_grown _ _ _ _ _ _ _ _ (grown_start w st) E1) as (newu & Hp1).
  destruct Hcase as [(_ & -> & ->)|(p2 & ok2 & _ & E2 & Hcase)].
  { split; [by eapply Hback | done]. }
  destruct (each_game_grown _ _ _ _ _ _ _ _ Hp1 E2) as (newg & Hp2).
  assert (Hcount : insertedGames p2 ≤ insertedGames p1 + length sgs).
  { clear -E2. revert p1 p2 ok2 E2.
    induction sgs as [|g sgs IH]; intros p1 p2 ok2 E2; simpl in E2.
    - injection E2 as <- <-. lia.
    - destruct (migrate_game L w p1 g) as [pm okm] eqn:Eg.
      assert (insertedGames pm ≤ S (insertedGames p1)).
      { apply migrate_game_inv in Eg as [->|[(_&_&->)|(_&_&?&?&_&_&_&->)]];
          simpl; lia. }
      destruct okm; [apply IH in E2; simpl; lia | injection E2 as <- <-; simpl; lia]. }
  assert (Hzero : insertedGames p1 = 0).
  { clear -E1. 
    apply (each_preserves_all (migrate_user L w) (λ p, insertedGames p = 0)
             sus (start st) p1 ok1); [|done|done].
    intros p u p' ok Hp H.
    by apply migrate_user_inv in H as [[-> _]|[(_ & row & _ & ->)|(_ & _ & _ & ->)]]. }
  destruct Hcase as [(-> & Hout)|(_ & Hdry' & _)]; [|congruence].
  split; [by eapply Hback|].
  intros nu ng Hsome. destruct Hout as [->|(_ & _ & ->)]; [done|].
  injection Hsome as <- <-.
  destruct Hp2 as (_&_&_&_&_&_&Hiu&_&Hd). destruct (Hd Hdry) as [-> _].
  simpl in Hiu. lia.
Qed.

(** *** Users *)

Lemma find_named l n row :
  List.find (named n) l = Some row → row ∈ l ∧ u_username row = n.
Proof.
  intros H. apply find_some in H as [Hin Hn].
  split; [by apply list_elem_of_In | by apply String.eqb_eq].
Qed.

Lemma present_found l n row :
  row ∈ l → u_username row = n → is_Some (List.find (named n) l).
Proof.
  intros Hin Hn. destruct (List.find (named n) l) eqn:E; [done|].
  apply find_existsb in E. apply not_true_iff_false in E. destruct E.
  apply existsb_exists. exists row. split; [by apply list_elem_of_In|].
  unfold named. rewrite Hn. apply String.eqb_refl.
Qed.

Lemma migrate_user_maps w sus p u p' ok :
  u ∈ sus → maps_by_name sus p → migrate_user L w p u = (p', ok) →
  maps_by_name sus p'.
Proof.
  intros Hu Hp H.
  apply migrate_user_inv in H
    as [[-> _]|[(_ & row & Hf & ->)|(_ & _ & _ & ->)]]; [done| |].
  - apply find_named in Hf as [Hin Hn]. intros old new. simpl.
    destruct (decide (old = su_id u)) as [->|Hne].
    + rewrite lookup_insert_eq. intros [= <-]. exists u, row. repeat split; done.
    + rewrite lookup_insert_ne by done. apply Hp.
  - intros old new. simpl.
    destruct (decide (old = su_id u)) as [->|Hne].
    + rewrite lookup_insert_eq. intros [= <-].
      exists u, {| u_id := next_user_id (pg p); u_username := su_username u;
                   u_password_hash := default "" (su_password_hash u) |}.
      split; [done|]. split; [done|]. split; [|done].
      apply elem_of_app. right. by left.
    + rewrite lookup_insert_ne by done. intros Hm.
      destruct (Hp old new Hm) as (su & row & ? & ? & Hin & ? & ?).
      exists su, row. repeat split; try done. apply elem_of_app. by left.
Qed.

Lemma migrate_game_frame w p g p' ok :
  migrate_game L w p g = (p', ok) →
  users (pg p') = users (pg p) ∧ userMap p' = userMap p ∧
  insertedUsers p' = insertedUsers p.
Proof.
  intros H.
  by apply migrate_game_inv in H as [->|[(_&_&->)|(_&_&?&?&_&_&_&->)]].
Qed.

Lemma each_game_frame w sgs p p' ok :
  each (migrate_game L w) p sgs = (p', ok) →
  users (pg p') = users (pg p) ∧ userMap p' = userMap p ∧
  insertedUsers p' = insertedUsers p.
Proof.
  apply (each_preserves_all (migrate_game L w)
           (λ q, users (pg q) = users (pg p) ∧ userMap q = userMap p ∧
                 insertedUsers q = insertedUsers p)); [|done].
  intros q g q' ok' (Hu & Hm & Hi) H.
  apply migrate_game_frame in H as (-> & -> & ->). done.
Qed.

(** After the user loop of a run that is not a dry run, every user it
    went through has a row of that name. *)
Lemma each_user_present w sus p p' :
  dry_run w = false →
  each (migrate_user L w) p sus = (p', true) →
  ∀ su, su ∈ sus → ∃ row, row ∈ users (pg p') ∧ u_username row = su_username su.
Proof.
  intros Hdry H.
  apply (each_completed (migrate_user L w)
           (λ seen q, ∀ su, su ∈ seen →
              ∃ row, row ∈ users (pg q) ∧ u_username row = su_username su)
           sus) with (seen := []) (p := p) (p' := p'); [| |done].
  - intros seen q u q' Hq Hstep su Hsu.
    apply migrate_user_inv in Hstep
      as [[_ [?|[? _]]]|[(_ & row & Hf & ->)|(_ & _ & _ & ->)]]; [congruence..| |].
    + apply find_named in Hf as [Hin Hn]. simpl.
      apply elem_of_app in Hsu as [Hsu|Hsu]; [by apply Hq|].
      apply list_elem_of_singleton in Hsu as ->. by exists row.
    + simpl. apply elem_of_app in Hsu as [Hsu|Hsu].
      * destruct (Hq su Hsu) as (row & Hin & Hn). exists row.
        split; [|done]. apply elem_of_app. by left.
      * apply list_elem_of_singleton in Hsu as ->. eexists.
        split; [apply elem_of_app; right; by left|]. done.
  - intros su Hsu. by apply elem_of_nil in Hsu.
Qed.

(** After a transaction that completes, and is not a dry run, every user
    of the SQLite file has a row under the same name, and the rows from
    before are in their place. *)
Lemma transaction_users w sus sgs st st' counts :
  dry_run w = false →
  transaction L w sus sgs st = (st', Some counts) →
  (∀ su, su ∈ sus → ∃ row, row ∈ users st' ∧ u_username row = su_username su) ∧
  (∀ row, row ∈ users st → row ∈ users st').
Proof.
  intros Hdry H.
  apply transaction_inv in H
    as [(_ & _ & ?)|(p1 & ok1 & E1 & [(_ & _ & ?)|(p2 & ok2 & -> & E2 & Hcase)])];
    [done..|].
  destruct Hcase as [(_ & [?|(_ & ? & _)])|(-> & _ & -> & _)]; [congruence..|].
  apply each_game_frame in E2 as (Hu & _).
  split.
  - rewrite Hu. by eapply each_user_present.
  - intros row Hin. rewrite Hu.
    destruct (each_user_grown _ _ _ _ _ _ _ _ (grown_start w st) E1)
      as (newu & _ & _ & -> & _).
    apply elem_of_app. by left.
Qed.

(** After a transaction that completed, another one over the same users
    inserts no user. *)
Lemma transaction_second_run w sus sgs st st1 counts w' sgs' :
  dry_run w = false →
  transaction L w sus sgs st = (st1, Some counts) →
  users (fst (transaction L w' sus sgs' st1)) = users st1 ∧
  ∀ nu ng, snd (transaction L w' sus sgs' st1) = Some (nu, ng) → nu = 0.
Proof.
  intros Hdry H.
  assert (Hall : ∀ su, su ∈ sus →
            ∃ row, row ∈ users st1 ∧ u_username row = su_username su).
  { apply transaction_inv in H
      as [(_ & _ & ?)|(p1 & ok1 & E1 & [(_ & _ & ?)|(p2 & ok2 & -> & E2 & Hcase)])];
      [done..|].
    destruct Hcase as [(_ & [?|(_ & ? & _)])|(-> & _ & -> & _)]; [congruence..|].
    apply each_game_frame in E2 as (Hu & _). rewrite Hu.
    by eapply each_user_present. }
  clear H.
  destruct (transaction L w' sus sgs' st1) as [st2 out] eqn:H2. simpl.
  apply transaction_inv in H2 as [(_ & -> & ->)|(p1 & ok1 & E1 & Hcase)]; [done|].
  assert (Hp1 : users (pg p1) = users st1 ∧ insertedUsers p1 = 0).
  { apply (each_preserves (migrate_user L w')
             (λ q, users (pg q) = users st1 ∧ insertedUsers q = 0)
             (λ su, su ∈ sus) sus) with (p := start st1) (ok := ok1);
      [|by apply Forall_forall|done|done].
    intros q su q' ok Hsu [Hu Hi] Hstep.
    destruct (Hall su Hsu) as (row & Hin & Hn).
    destruct (present_found (users (pg q)) (su_username su) row) as [r Hr];
      [by rewrite Hu | done |].
    apply migrate_user_inv in Hstep
      as [[-> _]|[(_ & ? & _ & ->)|(_ & _ & ? & _)]]; [done | done | congruence]. }
  destruct Hp1 as [Hu1 Hi1].
  destruct Hcase as [(_ & -> & ->)|(p2 & ok2 & _ & E2 & Hcase)]; [done|].
  apply each_game_frame in E2 as (Hu2 & _ & Hi2).
  destruct Hcase as [(-> & Hout)|(_ & _ & -> & ->)].
  - split; [done|]. intros nu ng Hsome.
    destruct Hout as [->|(_ & _ & ->)]; [done|]. injection Hsome as <- <-.
    congruence.
  - split; [congruence|]. intros nu ng [= <- <-]. congruence.
Qed.

(** *** Games *)

Lemma migrate_game_rows w sus sgs us p g p' ok newg :
  g ∈ sgs → maps_by_name sus p → users (pg p) = us →
  Forall (migrated_game sus sgs us) newg →
  migrate_game L w p g = (p', ok) →
  ∀ base, games (pg p) = base ++ newg →
  ∃ newg', games (pg p') = base ++ newg' ∧
           Forall (migrated_game sus sgs us) newg'.
Proof.
  intros Hg Hmap Hus Hall H base Hbase.
  apply migrate_game_inv in H
    as [->|[(_ & _ & ->)|(_ & _ & pgUid & t & Hm & _ & _ & ->)]];
    [by exists newg..|].
  exists (newg ++ [{| g_id := next_game_id (pg p); g_user_id := pgUid;
                      g_pgn := Some (default "" (sg_pgn g));
                      g_fens := PgOnly.fens_param (from_option JStr JNull (sg_fens g));
                      g_created_at := t |}]).
  simpl. rewrite Hbase, <- app_assoc. split; [done|].
  apply Forall_app. split; [done|]. constructor; [|constructor].
  destruct (Hmap _ _ Hm) as (su & owner & Hsu & Hid & Hin & Hown & Hname).
  exists g, su, owner. rewrite <- Hus. repeat split; done.
Qed.

(** The games a completed transaction adds are rows of games of the SQLite
    file, each under the user that has the name of its owner. *)
Lemma transaction_games w sus sgs st st' counts :
  transaction L w sus sgs st = (st', Some counts) →
  ∃ newg, games st' = games st ++ newg ∧
          Forall (migrated_game sus sgs (users st')) newg.
Proof.
  intros H.
  apply transaction_inv in H
    as [(_ & _ & ?)|(p1 & ok1 & E1 & [(_ & _ & ?)|(p2 & ok2 & -> & E2 & Hcase)])];
    [done..|].
  destruct Hcase as [(-> & _)|(-> & _ & -> & _)].
  { exists []. simpl. by rewrite app_nil_r. }
  assert (Hmap : maps_by_name sus p1).
  { apply (each_preserves (migrate_user L w) (maps_by_name sus) (λ su, su ∈ sus) sus)
      with (p := start st) (ok := true); [|by apply Forall_forall| |done].
    - intros q su q' ok Hsu Hq Hstep. by eapply migrate_user_maps.
    - intros old new Hm. simpl in Hm. by rewrite lookup_empty in Hm. }
  assert (Hg1 : games (pg p1) = games st).
  { destruct (each_user_grown _ _ _ _ _ _ _ _ (grown_start w st) E1)
      as (newu & _ & _ & _ & Hg & _). by rewrite Hg, app_nil_r. }
  pose proof (each_game_frame _ _ _ _ _ E2) as (Hu2 & _).
  rewrite Hu2.
  apply (each_preserves (migrate_game L w)
           (λ q, maps_by_name sus q ∧ users (pg q) = users (pg p1) ∧
                 ∃ newg, games (pg q) = games st ++ newg ∧
                         Forall (migrated_game sus sgs (users (pg p1))) newg)
           (λ g, g ∈ sgs) sgs) with (p := p1) (ok := true);
    [|by apply Forall_forall| |done].
  - intros q g q' ok Hg (Hq & Hu & newg & Hgq & Hall) Hstep.
    pose proof (migrate_game_frame _ _ _ _ _ Hstep) as (Hu' & Hm' & _).
    split; [|split; [congruence|]].
    + intros old new. rewrite Hm', Hu'. apply Hq.
    + by eapply migrate_game_rows.
  - split; [done|]. split; [done|]. exists []. by rewrite Hg1, app_nil_r.
Qed.

(** Every row the transaction writes can be shown. *)
Lemma transaction_viewable w sus sgs st :
  viewable st → viewable (fst (transaction L w sus sgs st)).
Proof.
  intros Hst.
  destruct (transaction L w sus sgs st) as [st' out] eqn:H. simpl.
  apply transaction_inv in H
    as [(_ & -> & _)|(p1 & ok1 & E1 & [(_ & -> & _)|(p2 & ok2 & -> & E2 & Hcase)])];
    [done..|].
  destruct Hcase as [(-> & _)|(_ & _ & -> & _)]; [done|].
  assert (Hp1 : viewable (pg p1)).
  { apply (each_preserves_all (migrate_user L w) (λ q, viewable (pg q))
             sus (start st) p1 true); [|done|done].
    intros q su q' ok Hq Hstep.
    by apply migrate_user_inv in Hstep
      as [[-> _]|[(_ & ? & _ & ->)|(_ & _ & _ & ->)]]. }
  apply (each_preserves_all (migrate_game L w) (λ q, viewable (pg q))
           sgs p1 p2 ok2); [|done|done].
  intros q g q' ok Hq Hstep.
  apply migrate_game_inv in Hstep
    as [->|[(_ & _ & ->)|(_ & _ & pgUid & t & _ & _ & _ & ->)]]; [done..|].
  unfold viewable. simpl. apply Forall_app. split; [done|].
  constructor; [|constructor]. unfold Db.view. simpl.
  pose proof (fens_read_back ServerPg (from_option JStr JNull (sg_fens g))) as Hr.
  cbn [fens_text] in Hr. rewrite Hr; [done|]. by destruct (sg_fens g).
Qed.

(** *** Consistency *)

Lemma insert_user_row_fits st n h :
  fits st → List.find (named n) (users st) = None →
  fits (insert_user_row st n h).
Proof.
  intros Hfit Hfree.
  assert (Db.insertUser sample_lib calm st (JStr n) h =
          Some (insert_user_row st n h, next_user_id st)) as Hins.
  { unfold Db.insertUser. simpl. fold (named n).
    by rewrite (proj2 (find_existsb _ _) Hfree). }
  by destruct (fits_insertUser sample_lib _ _ _ _ _ _ Hfit Hins) as (? & _).
Qed.

Lemma insert_game_row_fits st uid pgn fens t :
  fits st → existsb (λ u, u_id u =? uid) (users st) = true →
  fits (insert_game_row st uid pgn fens t).
Proof.
  intros [Hpos Hids Hdist Hnames Hsess Hgames] Hex.
  split; simpl; try done.
  apply Forall_app. split; [done|]. constructor; [|constructor]. simpl.
  apply existsb_exists in Hex as (u & Hin & Heq).
  exists u. split; [by apply list_elem_of_In | by apply Nat.eqb_eq].
Qed.

Lemma rolled_back_fits w st newu newg p :
  fits st → grown w st newu newg p → fits (rolled_back st p).
Proof.
  intros [Hpos Hids Hdist Hnames Hsess Hgames] (_&_&_&_&Hnu&_).
  split; simpl; try done; [lia|].
  eapply Forall_impl; [exact Hids|]. simpl. intros u [? ?]. lia.
Qed.

(** The transaction keeps the tables and the sessions fitting. *)
Lemma transaction_consistent w sus sgs st :
  consistent st → consistent (fst (transaction L w sus sgs st)).
Proof.
  intros [Hwf Hfit].
  destruct (transaction L w sus sgs st) as [st' out] eqn:H. simpl.
  apply transaction_inv in H as [(_ & -> & _)|(p1 & ok1 & E1 & Hcase)]; [done|].
  destruct (each_user_grown _ _ _ _ _ _ _ _ (grown_start w st) E1) as (newu & Hg1).
  assert (Hwf_of : ∀ st', sessions st' = sessions st → next_sid st' = next_sid st →
                          wf st').
  { intros st2 Hs Hn sid. rewrite Hs, Hn. apply Hwf. }
  assert (Hfit1 : fits (pg p1)).
  { apply (each_preserves_all (migrate_user L w) (λ q, fits (pg q))
             sus (start st) p1 ok1); [|done|done].
    intros q su q' ok Hq Hstep.
    apply migrate_user_inv in Hstep
      as [[-> _]|[(_ & ? & _ & ->)|(_ & _ & Hfree & ->)]]; [done..|].
    by apply insert_user_row_fits. }
  destruct Hcase as [(_ & -> & _)|(p2 & ok2 & _ & E2 & Hcase)].
  { split; [by apply Hwf_of | by eapply rolled_back_fits]. }
  destruct (each_game_grown _ _ _ _ _ _ _ _ Hg1 E2) as (newg & Hg2).
  destruct Hcase as [(-> & _)|(_ & _ & -> & _)].
  { split; [by apply Hwf_of | by eapply rolled_back_fits]. }
  split; [by destruct Hg2 as (?&?&_); apply Hwf_of|].
  apply (each_preserves_all (migrate_game L w) (λ q, fits (pg q))
           sgs p1 p2 ok2); [|done|done].
  intros q g q' ok Hq Hstep.
  apply migrate_game_inv in Hstep
    as [->|[(_ & _ & ->)|(_ & _ & pgUid & t & _ & _ & Hex & ->)]]; [done..|].
  by apply insert_game_row_fits.
Qed.

(** *** Completion *)

Lemma each_user_maps w sus st p1 ok :
  each (migrate_user L w) (start st) sus = (p1, ok) → maps_by_name sus p1.
Proof.
  apply (each_preserves (migrate_user L w) (maps_by_name sus) (λ su, su ∈ sus) sus).
  - intros q su q' ok' Hsu Hq Hstep. by eapply migrate_user_maps.
  - by apply Forall_forall.
  - intros old new Hm. simpl in Hm. by rewrite lookup_empty in Hm.
Qed.

Lemma each_user_completes w sus : ∀ p,
  (∀ su, su ∈ sus →
     rejects_select w su = false ∧ rejects_insert_user w su = false ∧
     is_Some (created_at_param L (now_user w su) (su_created_at su))) →
  ∃ p', each (migrate_user L w) p sus = (p', true).
Proof.
  induction sus as [|u sus IH]; intros p Hall; simpl; [by eexists|].
  destruct (Hall u) as (Hsel & Hins & [t Ht]); [by left|].
  assert (∃ p1, migrate_user L w p u = (p1, true)) as [p1 ->].
  { unfold migrate_user. rewrite Hsel. destruct (List.find _ _); [by eexists|].
    destruct (dry_run w); [by eexists|]. rewrite Hins, Ht. by eexists. }
  apply IH. intros su Hsu. apply Hall. by right.
Qed.

(** The owner of every game the loop inserts is a row of [users]: the
    foreign key of [games] holds at each insert. *)
Lemma each_game_completes w sus sgs : ∀ p,
  maps_by_name sus p →
  (∀ sg, sg ∈ sgs →
     rejects_insert_game w sg = false ∧
     is_Some (created_at_param L (now_game w sg) (sg_created_at sg))) →
  ∃ p', each (migrate_game L w) p sgs = (p', true).
Proof.
  induction sgs as [|g sgs IH]; intros p Hmap Hall; simpl; [by eexists|].
  destruct (Hall g) as (Hins & [t Ht]); [by left|].
  assert (∃ p1, migrate_game L w p g = (p1, true)) as [p1 E].
  { unfold migrate_game.
    destruct (userMap p !! sg_user_id g) as [[|n]|] eqn:Em;
      [by eexists| |by eexists].
    destruct (dry_run w); [by eexists|]. rewrite Hins.
    destruct (Hmap _ _ Em) as (su & row & _ & _ & Hin & Hid & _).
    assert (existsb (λ u, u_id u =? S n) (users (pg p)) = true) as ->.
    { apply existsb_exists. exists row.
      split; [by apply list_elem_of_In | by apply Nat.eqb_eq]. }
    simpl. rewrite Ht. by eexists. }
  rewrite E. apply IH.
  - pose proof (migrate_game_frame _ _ _ _ _ E) as (Hu & Hm & _).
    intros old new. rewrite Hm, Hu. apply Hmap.
  - intros sg Hsg. apply Hall. by right.
Qed.

Lemma transaction_completes w sus sgs st :
  accepting L w sus sgs → is_Some (snd (transaction L w sus sgs st)).
Proof.
  intros (_ & _ & Hb & Hc & Hus & Hgs). unfold transaction. rewrite Hb.
  fold (start st).
  destruct (each_user_completes w sus (start st) Hus) as [p1 E1]. rewrite E1.
  pose proof (each_user_maps _ _ _ _ _ E1) as Hmap.
  destruct (each_game_completes w sus sgs p1 Hmap Hgs) as [p2 E2]. rewrite E2.
  destruct (dry_run w); [by eexists|]. rewrite Hc. by eexists.
Qed.

(** *** The script, from the creation of the tables *)

Lemma rows_with_tables st : rows (with_tables st) = st.
Proof. by destruct st. Qed.

Lemma rows_create_users d : rows (create_users d) = rows d.
Proof.
  unfold create_users. destruct (has_users d) eqn:E; [done|].
  unfold rows. simpl. by rewrite E.
Qed.

Lemma create_users_same d : has_users d = true → create_users d = d.
Proof. unfold create_users. by intros ->. Qed.

Lemma content_created d : content (create_games (create_users d)) = rows d.
Proof. by destruct d as [[|] [|] []]. Qed.

Lemma whole_database d :
  has_users d = true → has_games d = true → with_tables (rows d) = d.
Proof. destruct d as [hu hg []]. simpl. by intros -> ->. Qed.

(** What a run does: a [CREATE TABLE] is rejected and nothing else
    happens, or the transaction runs on what the database holds. *)
Lemma migrate_inv w sus sgs d d' out :
  migrate L w sus sgs d = (d', out) →
  (out = None ∧ rows d' = rows d ∧
   (has_users d = true → d' = d) ∧
   (rejects_create_users w = true ∨ rejects_create_games w = true)) ∨
  (rejects_create_users w = false ∧ rejects_create_games w = false ∧
   d' = with_tables (rows d') ∧
   transaction L w sus sgs (rows d) = (rows d', out)).
Proof.
  unfold migrate, ensure_tables. intros H.
  destruct (rejects_create_users w) eqn:Eu.
  { injection H as <- <-. left. auto. }
  destruct (rejects_create_games w) eqn:Eg.
  { injection H as <- <-. left. split; [done|]. split; [apply rows_create_users|].
    split; [apply create_users_same | auto]. }
  right. rewrite content_created in H.
  destruct (transaction L w sus sgs (rows d)) as [st' out'] eqn:Et.
  injection H as <- <-. rewrite rows_with_tables. done.
Qed.

(** X22. The migration is all or nothing, and it only adds.  When it fails
    (exit code 2) the tables of Postgres hold the rows they held before,
    none for a table that did not exist.  When it completes, they hold
    those rows followed by the new ones, and the two numbers it logs are
    the numbers of rows it added, except in a dry run, which adds nothing.
    The sessions are never touched. *)
Theorem migration_all_or_nothing w sus sgs d d' out :
  migrate L w sus sgs d = (d', out) →
  sessions (rows d') = sessions (rows d) ∧
  match out with
  | None => users (rows d') = users (rows d) ∧ games (rows d') = games (rows d)
  | Some (nu, ng) =>
      ∃ newu newg, users (rows d') = users (rows d) ++ newu ∧
                   games (rows d') = games (rows d) ++ newg ∧
        if dry_run w then newu = [] ∧ newg = []
        else length newu = nu ∧ length newg = ng
  end.
Proof.
  intros H. apply migrate_inv in H as [(-> & -> & _)|(_ & _ & _ & Ht)]; [done|].
  by eapply transaction_all_or_nothing.
Qed.

(** X23. A dry run adds no row and moves no sequence, whether it completes
    or fails.  It is not without effect on Postgres: the two [CREATE TABLE
    IF NOT EXISTS] come before the transaction and are not skipped, so a
    dry run on a database that lacks a table creates it, empty.  Only a
    database that has both tables is left exactly as it is.  The number of
    users a dry run reports is always 0: the counter is incremented after
    the [continue] of the dry run, so only games of users that are already
    in Postgres are counted. *)
Theorem dry_run_changes_nothing w sus sgs d :
  dry_run w = true →
  rows (fst (migrate L w sus sgs d)) = rows d ∧
  (has_users d = true → has_games d = true → fst (migrate L w sus sgs d) = d) ∧
  (rejects_create_users w = false → rejects_create_games w = false →
   fst (migrate L w sus sgs d) = with_tables (rows d)) ∧
  ∀ nu ng, snd (migrate L w sus sgs d) = Some (nu, ng) → nu = 0 ∧ ng ≤ length sgs.
Proof.
  intros Hdry.
  destruct (migrate L w sus sgs d) as [d' out] eqn:H. simpl.
  apply migrate_inv in H as [(-> & Hr & Hsame & Hrej)|(_ & _ & Hd' & Ht)].
  - split; [done|]. split; [auto|]. split; [|done].
    intros Hu Hg. destruct Hrej; congruence.
  - destruct (transaction_dry_run w sus sgs (rows d) Hdry) as [Hst Hcount].
    rewrite Ht in Hst, Hcount. simpl in Hst, Hcount.
    split; [done|]. rewrite Hd', Hst. split; [|done].
    intros Hu Hg. by apply whole_database.
Qed.

(** X24. A migration that completes, and is not a dry run, leaves every user of
    the SQLite file with a row in Postgres under the same name, and every
    row that was there before in its place. *)
Theorem every_user_is_migrated w sus sgs d d' counts :
  dry_run w = false →
  migrate L w sus sgs d = (d', Some counts) →
  (∀ su, su ∈ sus →
     ∃ row, row ∈ users (rows d') ∧ u_username row = su_username su) ∧
  (∀ row, row ∈ users (rows d) → row ∈ users (rows d')).
Proof.
  intros Hdry H. apply migrate_inv in H as [(? & _)|(_ & _ & _ & Ht)]; [done|].
  by eapply transaction_users.
Qed.

(** X25. Once a migration has completed, another run over the same users
    inserts no user, whatever the world does: the script can be run again
    without duplicating accounts. *)
Theorem second_run_inserts_no_user w sus sgs d d1 counts w' sgs' :
  dry_run w = false →
  migrate L w sus sgs d = (d1, Some counts) →
  users (rows (fst (migrate L w' sus sgs' d1))) = users (rows d1) ∧
  ∀ nu ng, snd (migrate L w' sus sgs' d1) = Some (nu, ng) → nu = 0.
Proof.
  intros Hdry H. apply migrate_inv in H as [(? & _)|(_ & _ & _ & Ht)]; [done|].
  destruct (migrate L w' sus sgs' d1) as [d2 out] eqn:H2. cbn [fst snd].
  apply migrate_inv in H2 as [(-> & -> & _)|(_ & _ & _ & Ht2)]; [done|].
  destruct (transaction_second_run w sus sgs (rows d) (rows d1) counts w' sgs'
              Hdry Ht) as [Hu Hn].
  rewrite Ht2 in Hu, Hn. done.
Qed.

(** X26. The games a completed migration adds: each is the row of a game of the
    SQLite file, under the Postgres user that has the name of the owner of
    that game in SQLite, whatever id the user has there, and with the
    [fens] normalised as [src/server.js] does on import. *)
Theorem migrated_games_keep_their_owner w sus sgs d d' counts :
  migrate L w sus sgs d = (d', Some counts) →
  ∃ newg, games (rows d') = games (rows d) ++ newg ∧
          Forall (migrated_game sus sgs (users (rows d'))) newg.
Proof.
  intros H. apply migrate_inv in H as [(? & _)|(_ & _ & _ & Ht)]; [done|].
  by eapply transaction_games.
Qed.

(** X27. Every row the migration writes can be shown: its [fens] is valid JSON,
    so [getGamesByUser] of [src/server.js] does not throw on a migrated
    game, whatever text the SQLite file held. *)
Theorem migrated_games_can_be_listed w sus sgs d :
  viewable (rows d) → viewable (rows (fst (migrate L w sus sgs d))).
Proof.
  intros Hd.
  destruct (migrate L w sus sgs d) as [d' out] eqn:H. simpl.
  apply migrate_inv in H as [(_ & -> & _)|(_ & _ & _ & Ht)]; [done|].
  pose proof (transaction_viewable w sus sgs (rows d) Hd) as Hv.
  by rewrite Ht in Hv.
Qed.

(** X28. The migration and the foreign key of [games].  A run keeps the
    database consistent: user names and ids stay unique, and every game,
    old or new, refers to a user of the table.  And the foreign key never
    stops a run: when Postgres rejects no statement for a reason of its own
    and reads every [created_at] of the file as a timestamp, the run
    completes, although an insert of a game whose owner is not in [users]
    would fail it. *)
Theorem migration_keeps_consistency w sus sgs d :
  (consistent (rows d) → consistent (rows (fst (migrate L w sus sgs d)))) ∧
  (accepting L w sus sgs → is_Some (snd (migrate L w sus sgs d))).
Proof.
  destruct (migrate L w sus sgs d) as [d' out] eqn:H. simpl.
  apply migrate_inv in H as [(-> & -> & _ & Hrej)|(_ & _ & _ & Ht)].
  - split; [done|]. intros (Hu & Hg & _). destruct Hrej; congruence.
  - split.
    + intros Hd. pose proof (transaction_consistent w sus sgs (rows d) Hd) as Hc.
      by rewrite Ht in Hc.
    + intros Hacc. pose proof (transaction_completes w sus sgs (rows d) Hacc) as Hc.
      by rewrite Ht in Hc.
Qed.

End with_lib.
End Migration.

(** ** More theorems at sample inputs *)

Module Scenarios.
Import Handlers Reachable.

Lemma consistent_initial : consistent initial_state.
Proof. split; [apply wf_initial | apply Integrity.fits_initial]. Qed.

Lemma consistent_alice : consistent alice_registered.
Proof. apply Integrity.serve_consistent, consistent_initial. Qed.

Lemma wf_alice : wf alice_registered.
Proof. apply consistent_alice. Qed.

(** A visitor without a cookie asks for the games. *)
Lemma anonymous_is_401_witness :
  snd (serve sample_lib ServerPg GET_games calm alice_registered (request None JUndefined))
  = answer 401 (body_error "not_authenticated") None ∧
  sessions (fst (serve sample_lib ServerPg GET_games calm alice_registered
                   (request None JUndefined))) = sessions alice_registered.
Proof.
  destruct (Guard.anonymous_is_401 sample_lib ServerPg GET_games calm alice_registered
              (request None JUndefined) _ _ eq_refl eq_refl (surjective_pairing _))
    as (Hresp & _ & _ & Hs).
  split; [exact Hresp | exact Hs].
Defined.

(** Alice posts [{games: 5}]. *)
Lemma import_rejects_non_array_witness :
  snd (serve sample_lib ServerPg POST_import calm alice_registered
         (request (Some 1) (JObj [("games", JNum "5")])))
  = answer 400 (body_error "invalid_payload") None ∧
  fst (serve sample_lib ServerPg POST_import calm alice_registered
         (request (Some 1) (JObj [("games", JNum "5")]))) = alice_registered.
Proof.
  apply (Guard.import_rejects_non_array sample_lib ServerPg calm alice_registered
           (request (Some 1) (JObj [("games", JNum "5")])) 1 (JNum "5")).
  - vm_compute. reflexivity.
  - reflexivity.
  - reflexivity.
  - apply surjective_pairing.
Defined.

(** A visitor without a cookie asks who they are on the dual-mode
    server. *)
Lemma get_routes_read_only_witness :
  sessions (fst (serve sample_lib (ServerDual false) GET_me calm alice_registered
                   (request None JUndefined))) = sessions alice_registered ∧
  set_cookie (snd (serve sample_lib (ServerDual false) GET_me calm alice_registered
                     (request None JUndefined))) = None.
Proof.
  destruct (Guard.get_routes_read_only sample_lib (ServerDual false) GET_me calm
              alice_registered (request None JUndefined) _ _ eq_refl
              (surjective_pairing _)) as (_ & _ & _ & _ & Hs & Hck & _).
  split; [exact Hs | exact Hck].
Defined.

(** A login with an empty password. *)
Lemma login_requires_credentials_witness :
  snd (serve sample_lib ServerPg POST_login calm alice_registered
         (request None (credentials_body (JStr "alice") (JStr ""))))
  = answer 400 (body_error "username_and_password_required") None.
Proof.
  destruct (Edges.login_requires_credentials sample_lib ServerPg calm alice_registered
              (request None (credentials_body (JStr "alice") (JStr "")))
              (JStr "alice") (JStr "") _ _ eq_refl eq_refl (surjective_pairing _))
    as (Hresp & _).
  exact Hresp.
Defined.

(** A login with the password [true]: 500 for alice, 401 for bob, who has
    no account. *)
Lemma login_non_string_password_witness :
  snd (serve sample_lib ServerPg POST_login calm alice_registered
         (request None (credentials_body (JStr "alice") (JBool true))))
  = answer 500 (body_error "internal") None ∧
  snd (serve sample_lib ServerPg POST_login calm alice_registered
         (request None (credentials_body (JStr "bob") (JBool true))))
  = refused.
Proof.
  split.
  - apply (proj2 (Edges.login_non_string_password sample_lib ServerPg calm
                    alice_registered
                    (request None (credentials_body (JStr "alice") (JBool true)))
                    (JStr "alice") (JBool true) eq_refl eq_refl eq_refl eq_refl)
             {| u_id := 1; u_username := "alice";
                u_password_hash := "$2b$10$secret123" |}).
    vm_compute. reflexivity.
  - apply (proj1 (Edges.login_non_string_password sample_lib ServerPg calm
                    alice_registered
                    (request None (credentials_body (JStr "bob") (JBool true)))
                    (JStr "bob") (JBool true) eq_refl eq_refl eq_refl eq_refl)).
    vm_compute. reflexivity.
Defined.

(** Alice logs out. *)
Lemma logout_destroys_session_witness :
  snd (serve sample_lib ServerPg POST_logout calm alice_registered
         (request (Some 1) JUndefined)) = logged_out ∧
  sessions (fst (serve sample_lib ServerPg POST_logout calm alice_registered
                   (request (Some 1) JUndefined))) !! 1 = None.
Proof.
  destruct (Edges.logout_destroys_session sample_lib ServerPg calm alice_registered
              (request (Some 1) JUndefined) _ _ wf_alice eq_refl
              (surjective_pairing _)) as (Hresp & _ & _ & Hs).
  split; [exact Hresp | exact (Hs 1)].
Defined.

(** Alice logs out while the session store is down. *)
Lemma failed_logout_keeps_session_witness :
  snd (serve sample_lib ServerPg POST_logout store_down alice_registered
         (request (Some 1) JUndefined))
  = answer 500 (body_error "logout_failed") None ∧
  sessions (fst (serve sample_lib ServerPg POST_logout store_down alice_registered
                   (request (Some 1) JUndefined))) = sessions alice_registered.
Proof.
  destruct (Edges.failed_logout_keeps_session sample_lib ServerPg store_down
              alice_registered (request (Some 1) JUndefined) _ _ eq_refl
              (surjective_pairing _)) as (Hresp & _ & _ & Hs).
  split; [exact Hresp | exact Hs].
Defined.

(** Bob registers on [src/server.js] and on [src/unnamed/part_000] with
    SQLite. *)
Lemma servers_agree_witness :
  serve sample_lib ServerPg POST_register calm alice_registered (request None bob) =
  serve sqlite_lib (ServerDual false) POST_register calm alice_registered
    (request None bob).
Proof.
  apply (Edges.servers_agree sample_lib sqlite_lib false POST_register calm
           alice_registered (request None bob)).
  - reflexivity.
  - split; reflexivity.
  - discriminate.
  - intros _. split; [discriminate | reflexivity].
Defined.

(** The row of bob is found once it is inserted. *)
Lemma insert_then_find_witness :
  Db.findUserByName sample_lib calm alice_registered (JStr "bob") = Some None ∧
  Db.findUserByName sample_lib calm
    (Migrate.insert_user_row alice_registered "bob" "$2b$10$hunter2") (JStr "bob") =
    Some (Some {| u_id := 2; u_username := "bob";
                  u_password_hash := "$2b$10$hunter2" |}).
Proof.
  destruct (Wrappers.insert_then_find sample_lib calm alice_registered (JStr "bob")
              "$2b$10$hunter2"
              (Migrate.insert_user_row alice_registered "bob" "$2b$10$hunter2")
              2 calm eq_refl eq_refl) as (n & Hn & Hfree & Hfound & _).
  injection Hn as <-. split; [exact Hfree | exact Hfound].
Defined.

(** The import of alice. *)
Lemma tables_change_witness :
  users alice_imported = users alice_registered ∧
  (games alice_imported = games alice_registered ∨
   ∃ uid gs rows,
     identity alice_registered (Some 1) = Some uid ∧
     payload_games two_games = Some (JArr gs) ∧
     games alice_imported = games alice_registered ++ rows ∧
     length rows = length gs ∧ Forall (λ row, g_user_id row = uid) rows).
Proof.
  destruct (Tables.tables_change_by_their_route sample_lib ServerPg POST_import calm
              alice_registered (request (Some 1) two_games) _ _ (surjective_pairing _))
    as [[Hu|(Hr & _)] Hg]; [|discriminate Hr].
  split; [exact Hu|].
  destruct Hg as [Hg|(_ & _ & uid & gs & rows & Hid & Hp & _ & Hg & Hlen & Hall)].
  - left. exact Hg.
  - right. exists uid, gs, rows. auto.
Defined.

(** The import of alice does not show in the games of user 2. *)
Lemma games_of_others_untouched_witness :
  Db.getGamesByUser calm alice_imported 2 = Db.getGamesByUser calm alice_registered 2.
Proof.
  apply (Tables.games_of_others_untouched sample_lib ServerPg POST_import calm
           alice_registered (request (Some 1) two_games) 2 calm).
  right. vm_compute. discriminate.
Defined.

(** Bob registers; the session of alice is as before. *)
Lemma sessions_are_isolated_witness :
  sessions (fst (serve sample_lib ServerPg POST_register calm alice_registered
                   (request None bob))) !! 1 = sessions alice_registered !! 1.
Proof.
  apply (Isolation.sessions_are_isolated sample_lib ServerPg POST_register calm
           alice_registered (request None bob) 1).
  - exact wf_alice.
  - vm_compute. lia.
  - left. discriminate.
Defined.

(** Alice registers, then imports; bob registers and logs out: alice is
    still logged in. *)
Lemma stays_logged_in_witness :
  snd (serve sample_lib ServerPg GET_me calm
         (run sample_lib ServerPg
            [(POST_import, calm, request (Some 1) two_games);
             (POST_register, calm, request None bob);
             (POST_logout, calm, request (Some 3) JUndefined)]
            alice_registered)
         (request (Some 1) JNull))
  = answer 200 (body_username (JStr "alice")) None.
Proof.
  apply (Integrity.stays_logged_in sample_lib ServerPg POST_register calm initial_state
           (request None alice) alice_registered
           (snd (serve sample_lib ServerPg POST_register calm initial_state
                   (request None alice)))
           1
           [(POST_import, calm, request (Some 1) two_games);
            (POST_register, calm, request None bob);
            (POST_logout, calm, request (Some 3) JUndefined)]
           calm JNull).
  - exact consistent_initial.
  - left. split; [reflexivity | vm_compute; reflexivity].
  - apply surjective_pairing.
  - vm_compute. reflexivity.
  - vm_compute. reflexivity.
Defined.

(** The two games of alice, as the listing shows them. *)
Lemma games_listed_witness :
  ∃ views, Db.getGamesByUser calm alice_imported 1 = Some views ∧
           StronglySorted newer_view_first views ∧ length views = 2.
Proof.
  eexists. split; [vm_compute; reflexivity|]. split; [|reflexivity].
  apply (Listing.games_listed_newest_first calm alice_imported 1).
  vm_compute. reflexivity.
Defined.

(** [GET /api/games] of alice after her import. *)
Lemma listing_shows_own_games_witness :
  snd (serve sample_lib ServerPg GET_games calm alice_imported (request (Some 1) JUndefined))
  = answer 500 (body_error "internal") None ∨
  ∃ views rows,
    snd (serve sample_lib ServerPg GET_games calm alice_imported
           (request (Some 1) JUndefined)) = answer 200 (body_games views) None ∧
    StronglySorted newer_view_first views ∧
    rows ≡ₚ List.filter (owned_by 1) (games alice_imported) ∧
    Forall2 (λ r v, Db.view r = Some v) rows views.
Proof.
  apply (Listing.listing_shows_own_games sample_lib ServerPg calm alice_imported
           (request (Some 1) JUndefined) 1).
  vm_compute. reflexivity.
Defined.

(** Alice imports her two games while the clock ticks.  The second had no
    [fens] and no date: it is listed with [[]], its [pgn] and the time at
    which the loop reached it, the second reading of the clock. *)
Lemma imported_games_are_listed_witness :
  ∃ views v,
    resp_body (snd (serve sample_lib ServerPg GET_games calm
                      (run sample_lib ServerPg [(POST_register, calm, request None bob)]
                         (fst (serve sample_lib ServerPg POST_import ticking
                                 alice_registered (request (Some 1) two_games))))
                      (request (Some 1) JUndefined))) = body_games views ∧
    v ∈ views ∧ v_pgn v = Some "1.d4" ∧ v_fens v = JArr [] ∧ Some 1002 = Some (v_date v).
Proof.
  apply (Shown.imported_games_are_listed sample_lib ServerPg ticking alice_registered
           (request (Some 1) two_games) 1
           [JObj [("pgn", JStr "1.e4"); ("fens", JArr [JStr "startpos"])];
            JObj [("pgn", JStr "1.d4")]]
           1 (JObj [("pgn", JStr "1.d4")]) (JStr "1.d4") JUndefined
           (fst (serve sample_lib ServerPg POST_import ticking alice_registered
                   (request (Some 1) two_games)))
           (snd (serve sample_lib ServerPg POST_import ticking alice_registered
                   (request (Some 1) two_games)))
           [(POST_register, calm, request None bob)] calm
           (request (Some 1) JUndefined)).
  - vm_compute. reflexivity.
  - reflexivity.
  - reflexivity.
  - reflexivity.
  - reflexivity.
  - reflexivity.
  - reflexivity.
  - apply surjective_pairing.
  - vm_compute. reflexivity.
  - vm_compute. reflexivity.
  - reflexivity.
  - vm_compute. reflexivity.
Defined.

(** The import of alice makes her empty listing two entries long. *)
Lemma import_adds_to_listing_witness :
  ∃ views', Db.getGamesByUser calm alice_imported 1 = Some views' ∧
            length views' = 0 + 2.
Proof.
  eexists. split; [vm_compute; reflexivity|].
  apply (Shown.import_adds_to_listing sample_lib ServerPg calm alice_registered
           (request (Some 1) two_games) alice_imported
           (snd (serve sample_lib ServerPg POST_import calm alice_registered
                   (request (Some 1) two_games)))
           1
           [JObj [("pgn", JStr "1.e4"); ("fens", JArr [JStr "startpos"])];
            JObj [("pgn", JStr "1.d4")]]
           calm calm []).
  - vm_compute. reflexivity.
  - reflexivity.
  - apply surjective_pairing.
  - vm_compute. reflexivity.
  - vm_compute. reflexivity.
  - vm_compute. reflexivity.
Defined.

(** The cookie of the registration of alice carries an identifier
    generated in that request. *)
Lemma cookies_come_from_regenerate_witness :
  (status (snd (serve sample_lib ServerPg POST_register calm initial_state
                  (request None alice))) = 201 ∨
   status (snd (serve sample_lib ServerPg POST_register calm initial_state
                  (request None alice))) = 200 ∨
   resp_body (snd (serve sample_lib ServerPg POST_register calm initial_state
                     (request None alice))) = body_error "session_error") ∧
  next_sid initial_state ≤ 1 ∧ 1 < next_sid alice_registered.
Proof.
  destruct (Isolation.cookies_come_from_regenerate sample_lib ServerPg POST_register
              calm initial_state (request None alice) _ _ 1 (surjective_pairing _))
    as (_ & Hst & Hlo & Hhi & _).
  - vm_compute. reflexivity.
  - split; [exact Hst|]. split; [exact Hlo | exact Hhi].
Defined.

(** Alice logs out; her cookie no longer lists her games. *)
Lemma logout_ends_every_access_witness :
  snd (serve sample_lib ServerPg GET_games calm
         (run sample_lib ServerPg [(POST_register, calm, request None bob)]
            (fst (serve sample_lib ServerPg POST_logout calm alice_imported
                    (request (Some 1) JUndefined))))
         {| cookie := Some 1; body := JUndefined |})
  = answer 401 (body_error "not_authenticated") None.
Proof.
  apply (Isolation.logout_ends_every_access sample_lib ServerPg calm alice_imported
           (request (Some 1) JUndefined)
           (fst (serve sample_lib ServerPg POST_logout calm alice_imported
                   (request (Some 1) JUndefined)))
           (snd (serve sample_lib ServerPg POST_logout calm alice_imported
                   (request (Some 1) JUndefined)))
           [(POST_register, calm, request None bob)] GET_games calm JUndefined).
  - intros c Hc. injection Hc as <-. vm_compute. lia.
  - apply surjective_pairing.
  - vm_compute. reflexivity.
  - reflexivity.
Defined.

(** After the registration and the import of alice the listing works. *)
Lemma listing_never_fails_witness :
  status (snd (serve sample_lib ServerPg GET_games calm
                 (run sample_lib ServerPg
                    [(POST_register, calm, request None alice);
                     (POST_import, calm, request (Some 1) two_games)]
                    initial_state)
                 (request (Some 1) JUndefined))) = 200.
Proof.
  apply (Viewable.listing_never_fails_on_imports sample_lib ServerPg
           [(POST_register, calm, request None alice);
            (POST_import, calm, request (Some 1) two_games)]
           initial_state calm (request (Some 1) JUndefined) 1).
  - constructor.
  - vm_compute. reflexivity.
  - reflexivity.
  - vm_compute. reflexivity.
Defined.

(** The migration of the sample file into the database of alice adds bob
    and two games. *)
Lemma migration_all_or_nothing_witness :
  sessions (Migrate.rows migrated) = sessions alice_registered ∧
  ∃ newu newg, users (Migrate.rows migrated) = users alice_registered ++ newu ∧
               games (Migrate.rows migrated) = games alice_registered ++ newg ∧
               length newu = 1 ∧ length newg = 2.
Proof.
  exact (Migration.migration_all_or_nothing sample_lib quiet sqlite_users
           sqlite_games (Migrate.with_tables alice_registered) migrated
           (Some (1, 2)) eq_refl).
Defined.

(** A dry run of it leaves the database of alice as it is, and creates the
    two tables in a database that has none. *)
Lemma dry_run_witness :
  fst (Migrate.migrate sample_lib rehearsal sqlite_users sqlite_games
         (Migrate.with_tables alice_registered))
  = Migrate.with_tables alice_registered ∧
  fst (Migrate.migrate sample_lib rehearsal sqlite_users sqlite_games blank)
  = Migrate.with_tables initial_state.
Proof.
  split.
  - apply (Migration.dry_run_changes_nothing sample_lib rehearsal sqlite_users
             sqlite_games (Migrate.with_tables alice_registered) eq_refl);
      reflexivity.
  - apply (Migration.dry_run_changes_nothing sample_lib rehearsal sqlite_users
             sqlite_games blank eq_refl); reflexivity.
Defined.

(** Bob has his row afterwards. *)
Lemma every_user_is_migrated_witness :
  ∃ row, row ∈ users (Migrate.rows migrated) ∧ u_username row = "bob".
Proof.
  apply (proj1 (Migration.every_user_is_migrated sample_lib quiet sqlite_users
                  sqlite_games (Migrate.with_tables alice_registered) migrated
                  (1, 2) eq_refl eq_refl)
           {| Migrate.su_id := 9; Migrate.su_username := "bob";
              Migrate.su_password_hash := Some "$2b$10$hunter2";
              Migrate.su_created_at := None |}).
  right. left.
Defined.

(** A second run over the same file inserts no user. *)
Lemma second_run_witness :
  users (Migrate.rows
           (fst (Migrate.migrate sample_lib quiet sqlite_users sqlite_games migrated)))
  = users (Migrate.rows migrated).
Proof.
  apply (Migration.second_run_inserts_no_user sample_lib quiet sqlite_users
           sqlite_games (Migrate.with_tables alice_registered) migrated (1, 2)
           quiet sqlite_games);
    reflexivity.
Defined.

(** The game of bob, user 9 in SQLite, belongs to bob, user 2 in
    Postgres. *)
Lemma migrated_games_witness :
  ∃ newg, games (Migrate.rows migrated) = games alice_registered ++ newg ∧
          Forall (migrated_game sqlite_users sqlite_games
                    (users (Migrate.rows migrated))) newg.
Proof.
  exact (Migration.migrated_games_keep_their_owner sample_lib quiet sqlite_users
           sqlite_games (Migrate.with_tables alice_registered) migrated (1, 2)
           eq_refl).
Defined.

(** The migrated games can be shown. *)
Lemma migrated_games_listed_witness : viewable (Migrate.rows migrated).
Proof.
  apply (Migration.migrated_games_can_be_listed sample_lib quiet sqlite_users
           sqlite_games (Migrate.with_tables alice_registered)).
  unfold viewable. change (games _) with (@nil Game). constructor.
Defined.

(** In the quiet world Postgres accepts every statement of the run. *)
Lemma accepting_quiet : accepting sample_lib quiet sqlite_users sqlite_games.
Proof.
  split; [done|]. split; [done|]. split; [done|]. split; [done|]. split.
  - intros su Hsu. split; [done|]. split; [done|].
    apply list_elem_of_In in Hsu. simpl in Hsu.
    destruct Hsu as [<-|[<-|[]]]; by eexists.
  - intros sg Hsg. split; [done|].
    apply list_elem_of_In in Hsg. simpl in Hsg.
    destruct Hsg as [<-|[<-|[<-|[]]]]; by eexists.
Qed.

(** The migrated database is consistent, and the run completed. *)
Lemma migration_consistency_witness :
  consistent (Migrate.rows migrated) ∧
  is_Some (snd (Migrate.migrate sample_lib quiet sqlite_users sqlite_games
                  (Migrate.with_tables alice_registered))).
Proof.
  destruct (Migration.migration_keeps_consistency sample_lib quiet sqlite_users
              sqlite_games (Migrate.with_tables alice_registered)) as [Hc Hdone].
  split; [|exact (Hdone accepting_quiet)].
  apply Hc. rewrite Migration.rows_with_tables. exact consistent_alice.
Defined.

(** Alice logs in again with her cookie: the session under it is gone. *)
Lemma old_identifiers_witness :
  sessions (fst (serve sample_lib ServerPg POST_login calm alice_registered
                   (request (Some 1) alice))) !! 1 = sessions alice_registered !! 1 ∨
  sessions (fst (serve sample_lib ServerPg POST_login calm alice_registered
                   (request (Some 1) alice))) !! 1 = None.
Proof.
  apply (Regeneration.old_identifiers_gain_nothing sample_lib ServerPg POST_login calm
           alice_registered (request (Some 1) alice) _ _ wf_alice
           (surjective_pairing _) 1).
  vm_compute. lia.
Defined.

(** A registration on [src/server.js] with a number as the password. *)
Lemma pg_register_rejects_witness :
  status (snd (serve sample_lib ServerPg POST_register calm alice_registered
                 (request None (credentials_body (JStr "carol") (JNum "12345")))))
  = 400 ∧
  users (fst (serve sample_lib ServerPg POST_register calm alice_registered
                (request None (credentials_body (JStr "carol") (JNum "12345")))))
  = users alice_registered.
Proof.
  destruct (Validation.pg_register_rejects_invalid_input sample_lib calm
              alice_registered
              (request None (credentials_body (JStr "carol") (JNum "12345")))
              (JStr "carol") (JNum "12345") _ _ eq_refl eq_refl
              (surjective_pairing _)) as (Hst & _ & Hu & _).
  split; [exact Hst | exact Hu].
Defined.

End Scenarios.
